(** * The chat channel synchronisation core of core/code/chat.js

    A shallow embedding of the per-channel message store, the merger
    ([chat.updateOldNewHash], [chat.writeDataToHash]), the request
    builder and driver ([chat.genPostData], [chat.requestChannel],
    [chat.handleChannel]), the renderer loop of [chat.renderData], the
    tab chooser ([chat.chooseTab]) and the markup transformation
    ([transformMessage]), then the registry of channels
    ([chat.addChannel]), the refresh function ([chat.request]), the
    background flags ([chat.backgroundChannelData]) and posting
    ([chat.sendChatMessage], [chat.postMsg]), followed by the properties
    proved about them.

    Conventions.  Timestamps are JavaScript integers in milliseconds and
    are modelled by [Z]; the sentinel for an unset watermark is [-1].
    A property that may be absent ([undefined]) is an [option].  A
    JavaScript object used as a dictionary is a [gmap string _]; the
    inherited members of [Object.prototype] are accounted for where the
    source uses the [in] operator.  Code that can throw lives in a state
    and exception monad in which the state written before a [throw]
    persists, as it does in JavaScript. *)

From Stdlib Require Import ZArith QArith Qabs Qround Bool Ascii String List Sorted Lia.
From stdpp Require Import base option list strings gmap fin_maps pretty sorting.

Local Open Scope string_scope.
Local Open Scope Z_scope.

(** ** 1. Data model *)

(** JSON scalars found in the attributes of a markup entity. *)
Inductive JVal :=
| JStr (s : string)
| JNum (z : Z)
| JBool (b : bool)
| JNull.

(** The object of a markup entity, [ent[1]]: every entity the server sends
    carries [plain]; [team] is present on FACTION, PLAYER and the like;
    the remaining attributes (name, address, latE6, ...) ride along. *)
Record MarkupData := {
  plain : string;
  team : option string;
  attrs : list (string * JVal)
}.

(** A markup entity, the two-element array [[type, data]]. *)
Record Entity := {
  ent_type : string;
  ent_data : MarkupData
}.

(** [data[2].plext] of a raw record. *)
Record Plext := {
  categories : Z;
  plext_team : string;
  plextType : string;
  markup : list Entity
}.

(** A raw record of a response, the array [[guid, timestampMs, {plext}]]. *)
Record RawMsg := {
  raw_guid : string;
  raw_time : Z;
  raw_plext : Plext
}.

Record Player := {
  player_name : string;
  player_team : Z
}.

(** The object returned by [chat.parseMsgData]. *)
Record ParsedMsg := {
  p_guid : string;
  p_time : Z;
  p_public : bool;
  p_secure : bool;
  p_alert : bool;
  p_msgToPlayer : bool;
  p_type : string;
  p_narrowcast : bool;
  p_auto : bool;
  p_team : Z;
  p_player : Player;
  p_markup : list Entity
}.

(** A value of [storageHash.data]: the array
    [[timestamp, autogenerated, HTML row, nick, parsed]]. *)
Record StoredMsg := {
  m_time : Z;
  m_auto : bool;
  m_html : string;
  m_nick : string;
  m_parsed : ParsedMsg
}.

(** [chat._channels[id]]: the synchronisation state of one channel. *)
Record ChannelState := {
  data : gmap string StoredMsg;
  guids : list string;
  oldestTimestamp : Z;
  oldestGUID : option string;
  newestTimestamp : Z;
  newestGUID : option string
}.

(** What the host page supplies: the team tables ([window.teamStringToId],
    [window.TEAM_TO_CSS]), the nickname of the player logged in, the two
    time formatters of the page, the HTML of one markup entity
    ([chat.renderMarkupEntity], which builds DOM nodes and serialises them)
    and the locale's rendering of a calendar day,
    [new Date(t).toLocaleDateString()]. *)
Class HostPage := {
  teamStringToId : option string → Z;
  TEAM_TO_CSS : Z → option string;
  PLAYER_nickname : string;
  unixTimeToHHmm : Z → string;
  unixTimeToDateTimeString : Z → string;
  renderMarkupEntity : Entity → string;
  toLocaleDateString : Z → string
}.

(** The double quote, for the HTML the module writes. *)
Definition dquote : string := String "034"%char EmptyString.

(** The members every object literal inherits from [Object.prototype];
    [k in {}] is true for each of them. *)
Definition object_prototype_members : list string :=
  [ "constructor"; "__defineGetter__"; "__defineSetter__"; "hasOwnProperty";
    "__lookupGetter__"; "__lookupSetter__"; "isPrototypeOf";
    "propertyIsEnumerable"; "toString"; "valueOf"; "__proto__";
    "toLocaleString" ].

(** [k in obj] for an object literal used as a dictionary. *)
Definition js_in {V} (k : string) (obj : gmap string V) : bool :=
  bool_decide (k ∈ dom obj) || bool_decide (k ∈ object_prototype_members).

(** ** 2. The markup transformation, on values *)

(** [newMarkup[4][0] === 'TEXT' && (plain === ' Link ' || plain === ' Control Field @')]
    together with [newMarkup[3][0] === 'FACTION']. *)
Definition is_faction_link (ty3 ty4 plain4 : string) : bool :=
  String.eqb ty3 "FACTION" && String.eqb ty4 "TEXT"
  && (String.eqb plain4 " Link " || String.eqb plain4 " Control Field @").

(** ["Agent <player>"] at the beginning. *)
Definition is_agent_prefix (ty0 plain0 ty1 : string) : bool :=
  String.eqb ty0 "TEXT" && String.eqb plain0 "Agent " && String.eqb ty1 "PLAYER".

(** ["<faction> agent <player>"] at the beginning. *)
Definition is_faction_agent_prefix (ty0 ty1 plain1 ty2 : string) : bool :=
  String.eqb ty0 "FACTION" && String.eqb ty1 "TEXT" && String.eqb plain1 " agent "
  && String.eqb ty2 "PLAYER".

Definition with_team (t : option string) (d : MarkupData) : MarkupData :=
  {| plain := plain d; team := t; attrs := attrs d |}.

(** [arr.splice(start, count)] on the elements of an array. *)
Definition spliced {A} (start count : nat) (l : list A) : list A :=
  (take start l ++ drop (start + count) l)%list.

Definition collapse_faction (m : list Entity) : list Entity :=
  if (4 <? length m)%nat then
    match m !! 3%nat, m !! 4%nat with
    | Some e3, Some e4 =>
        if is_faction_link (ent_type e3) (ent_type e4) (plain (ent_data e4))
        then spliced 3 1
               (<[4%nat := {| ent_type := ent_type e4;
                              ent_data := with_team (team (ent_data e3)) (ent_data e4) |}]> m)
        else m
    | _, _ => m
    end
  else m.

Definition skip_agent (m : list Entity) : list Entity :=
  if (1 <? length m)%nat then
    match m !! 0%nat, m !! 1%nat with
    | Some e0, Some e1 =>
        if is_agent_prefix (ent_type e0) (plain (ent_data e0)) (ent_type e1)
        then spliced 0 2 m else m
    | _, _ => m
    end
  else m.

Definition skip_faction_agent (m : list Entity) : list Entity :=
  if (2 <? length m)%nat then
    match m !! 0%nat, m !! 1%nat, m !! 2%nat with
    | Some e0, Some e1, Some e2 =>
        if is_faction_agent_prefix (ent_type e0) (ent_type e1) (plain (ent_data e1)) (ent_type e2)
        then spliced 0 3 m else m
    | _, _, _ => m
    end
  else m.

(** The value of the array [transformMessage] returns, from the value of
    the array it is given. *)
Definition transformMessage_value (markup : list Entity) : list Entity :=
  skip_faction_agent (skip_agent (collapse_faction markup)).

(** ** 3. Channel store and message merger *)

(** The state written by [chat.initChannelData]. *)
Definition initChannelState : ChannelState :=
  {| data := ∅; guids := [];
     oldestTimestamp := -1; oldestGUID := None;
     newestTimestamp := -1; newestGUID := None |}.

Definition set_oldest (t : Z) (g : string) (s : ChannelState) : ChannelState :=
  {| data := data s; guids := guids s;
     oldestTimestamp := t; oldestGUID := Some g;
     newestTimestamp := newestTimestamp s; newestGUID := newestGUID s |}.

Definition set_newest (t : Z) (g : string) (s : ChannelState) : ChannelState :=
  {| data := data s; guids := guids s;
     oldestTimestamp := oldestTimestamp s; oldestGUID := oldestGUID s;
     newestTimestamp := t; newestGUID := Some g |}.

(** [chat.updateOldNewHash]: [newData] is [newData.result]. *)
Definition updateOldNewHash (newData : list RawMsg) (storageHash : ChannelState)
    (isOlderMsgs isAscendingOrder : bool) : ChannelState :=
  match head newData, last newData with
  | Some r0, Some rn =>
      let first0 := (raw_guid r0, raw_time r0) in
      let last0 := (raw_guid rn, raw_time rn) in
      let first := if isAscendingOrder then last0 else first0 in
      let last := if isAscendingOrder then first0 else last0 in
      let s1 :=
        if (oldestTimestamp storageHash =? -1) || (oldestTimestamp storageHash >=? last.2)
        then if isOlderMsgs || negb (oldestTimestamp storageHash =? last.2)
             then set_oldest last.2 last.1 storageHash
             else storageHash
        else storageHash in
      if (newestTimestamp s1 =? -1) || (newestTimestamp s1 <=? first.2)
      then if negb isOlderMsgs || negb (newestTimestamp s1 =? first.2)
           then set_newest first.2 first.1 s1
           else s1
      else s1
  | _, _ => storageHash
  end.

(** The regular expression replacement [s.replace(/: $/, '')]. *)
Definition cut_colon_suffix (s : string) : string :=
  let n := String.length s in
  if (2 <=? n)%nat && String.eqb (substring (n - 2) 2 s) ": "
  then substring 0 (n - 2) s
  else s.

Section Merger.
Context `{HostPage}.

(** The body of the [markup.forEach] of [chat.parseMsgData]. *)
Definition scan_player (player : Player) (ent : Entity) : Player :=
  if String.eqb (ent_type ent) "SENDER" then
    {| player_name := cut_colon_suffix (plain (ent_data ent));
       player_team := player_team player |}
  else if String.eqb (ent_type ent) "PLAYER" then
    {| player_name := plain (ent_data ent);
       player_team := teamStringToId (team (ent_data ent)) |}
  else player.

(** [chat.parseMsgData]. *)
Definition parseMsgData (json : RawMsg) : ParsedMsg :=
  let cats := categories (raw_plext json) in
  let isPublic := Z.land cats 1 =? 1 in
  let isSecure := Z.land cats 2 =? 2 in
  let msgAlert := Z.land cats 4 =? 4 in
  let team_id := teamStringToId (Some (plext_team (raw_plext json))) in
  {| p_guid := raw_guid json;
     p_time := raw_time json;
     p_public := isPublic;
     p_secure := isSecure;
     p_alert := msgAlert;
     p_msgToPlayer := msgAlert && (isPublic || isSecure);
     p_type := plextType (raw_plext json);
     p_narrowcast := String.eqb (plextType (raw_plext json)) "SYSTEM_NARROWCAST";
     p_auto := negb (String.eqb (plextType (raw_plext json)) "PLAYER_GENERATED");
     p_team := team_id;
     p_player := foldl scan_player {| player_name := ""; player_team := team_id |}
                       (markup (raw_plext json));
     p_markup := markup (raw_plext json) |}.

(** *** Rendering of a row *)

(** The three [replace] calls of [chat.renderTimeCell], which turn the
    less-than sign, the greater-than sign and the double quote into
    [&lt;], [&gt;] and [&quot;]. *)
Fixpoint escape_markup (s : string) : string :=
  match s with
  | EmptyString => EmptyString
  | String c rest =>
      (if Ascii.eqb c "<"%char then "&lt;"
       else if Ascii.eqb c ">"%char then "&gt;"
       else if Ascii.eqb c "034"%char then "&quot;"
       else String c EmptyString) +:+ escape_markup rest
  end.

(** [chat.renderTimeCell]; the date string is cut after its 19th
    character, where the milliseconds begin. *)
Definition renderTimeCell (time : Z) (classNames : string) : string :=
  let ta := unixTimeToHHmm time in
  let tb := unixTimeToDateTimeString time in
  let tb := escape_markup
              (substring 0 19 tb +:+ "<small class=" +:+ dquote +:+ "milliseconds" +:+ dquote
               +:+ ">" +:+ substring 19 (String.length tb - 19) tb +:+ "</small>") in
  "<td><time class=" +:+ dquote +:+ classNames +:+ dquote
  +:+ " title=" +:+ dquote +:+ tb +:+ dquote
  +:+ " data-timestamp=" +:+ dquote +:+ pretty time +:+ dquote +:+ ">" +:+ ta
  +:+ "</time></td>".

(** [chat.renderNickCell]. *)
Definition renderNickCell (nick classNames : string) : string :=
  "<td>" +:+ "<span class=" +:+ dquote +:+ "invisep" +:+ dquote +:+ ">&lt;</span>"
  +:+ "<mark class=" +:+ dquote +:+ classNames +:+ dquote +:+ ">" +:+ nick +:+ "</mark>"
  +:+ "<span class=" +:+ dquote +:+ "invisep" +:+ dquote +:+ ">&gt;</span>" +:+ "</td>".

(** [chat.renderMsgCell]. *)
Definition renderMsgCell (msg classNames : string) : string :=
  "<td class=" +:+ dquote +:+ classNames +:+ dquote +:+ ">" +:+ msg +:+ "</td>".

(** [chat.renderMarkup]: the sender is not repeated, and a player is
    rendered only when it is not the first entity. *)
Definition renderMarkup (markup : list Entity) : string :=
  String.concat ""
    (imap (λ ind ent,
             if String.eqb (ent_type ent) "SENDER" || String.eqb (ent_type ent) "SECURE"
             then ""
             else if String.eqb (ent_type ent) "PLAYER"
             then (if (0 <? ind)%nat then renderMarkupEntity ent else "")
             else renderMarkupEntity ent)
          markup).

(** [chat.renderMsgRow].  The source passes [data.markup] through
    [transformMessage], which works on a copy and leaves the stored markup
    alone (section 6); here the value it computes is used. *)
Definition renderMsgRow (data : ParsedMsg) : string :=
  let timeClass := if p_msgToPlayer data then "pl_nudge_date" else "" in
  let timeCell := renderTimeCell (p_time data) timeClass in
  let nickClasses :=
    (["nickname"]
     ++ match TEAM_TO_CSS (player_team (p_player data)) with
        | Some css => if String.eqb css "" then [] else [css]
        | None => []
        end
     ++ (if String.eqb (player_name (p_player data)) PLAYER_nickname
         then ["pl_nudge_me"] else []))%list in
  let nickCell := renderNickCell (player_name (p_player data)) (String.concat " " nickClasses) in
  let markup := transformMessage_value (p_markup data) in
  let msg := renderMarkup markup in
  let msgClass := if p_narrowcast data then "system_narrowcast" else "" in
  let msgCell := renderMsgCell msg msgClass in
  let className :=
    if negb (p_auto data) && p_public data then "public"
    else if negb (p_auto data) && p_secure data then "faction"
    else "" in
  "<tr data-guid=" +:+ dquote +:+ p_guid data +:+ dquote
  +:+ " class=" +:+ dquote +:+ className +:+ dquote +:+ ">"
  +:+ timeCell +:+ nickCell +:+ msgCell +:+ "</tr>".

(** The entry [chat.writeDataToHash] stores under the GUID. *)
Definition stored_entry (parsedData : ParsedMsg) : StoredMsg :=
  {| m_time := p_time parsedData;
     m_auto := p_auto parsedData;
     m_html := renderMsgRow parsedData;
     m_nick := player_name (p_player parsedData);
     m_parsed := parsedData |}.

(** The body of the [newData.result.forEach] of [chat.writeDataToHash]. *)
Definition write_one (isAscendingOrder : bool) (storageHash : ChannelState)
    (json : RawMsg) : ChannelState :=
  if js_in (raw_guid json) (data storageHash) then storageHash
  else
    let parsedData := parseMsgData json in
    {| data := <[p_guid parsedData := stored_entry parsedData]> (data storageHash);
       guids := if isAscendingOrder
                then guids storageHash ++ [p_guid parsedData]
                else p_guid parsedData :: guids storageHash;
       oldestTimestamp := oldestTimestamp storageHash;
       oldestGUID := oldestGUID storageHash;
       newestTimestamp := newestTimestamp storageHash;
       newestGUID := newestGUID storageHash |}.

(** [chat.writeDataToHash]. *)
Definition writeDataToHash (newData : list RawMsg) (storageHash : ChannelState)
    (isOlderMsgs isAscendingOrder : bool) : ChannelState :=
  foldl (write_one isAscendingOrder)
        (updateOldNewHash newData storageHash isOlderMsgs isAscendingOrder)
        newData.

(** One merge of a run: the batch and the two flags it is merged with. *)
Record Merge := {
  mg_batch : list RawMsg;
  mg_isOlderMsgs : bool;
  mg_isAscendingOrder : bool
}.

Definition apply_merge (s : ChannelState) (m : Merge) : ChannelState :=
  writeDataToHash (mg_batch m) s (mg_isOlderMsgs m) (mg_isAscendingOrder m).

(** The state after a sequence of merges into a freshly initialised channel. *)
Definition run_merges (ms : list Merge) : ChannelState :=
  foldl apply_merge initChannelState ms.

End Merger.

(** ** 4. Exceptions and state *)

(** What the modelled code can throw: [throw new Error(msg)], and the
    [TypeError] of reading a property of [undefined] or [null]. *)
Inductive Exn :=
| JsError (msg : string)
| TypeError (what : string).

Inductive Outcome (A : Type) :=
| Ret (a : A)
| Throw (e : Exn).
Arguments Ret {A} a.
Arguments Throw {A} e.

(** A computation over a state [S]: the state reached when an exception is
    thrown is kept, since the assignments made before a [throw] stay made. *)
Definition M (S A : Type) : Type := S → Outcome A * S.

Definition ret {S A} (a : A) : M S A := λ s, (Ret a, s).
Definition throw {S A} (e : Exn) : M S A := λ s, (Throw e, s).
Definition bind {S A B} (m : M S A) (k : A → M S B) : M S B :=
  λ s, match m s with
       | (Ret a, s') => k a s'
       | (Throw e, s') => (Throw e, s')
       end.
Definition get {S} : M S S := λ s, (Ret s, s).
Definition modify {S} (f : S → S) : M S unit := λ s, (Ret tt, f s).
Definition when {S} (c : bool) (m : M S unit) : M S unit := if c then m else ret tt.

Notation "'let!' x ':=' m 'in' k" := (bind m (λ x, k))
  (at level 10, x name, m at level 100, k at level 200).
Notation "'do!' m 'then' k" := (bind m (λ _, k))
  (at level 10, m at level 100, k at level 200).

(** ** 5. The page around the store *)

(** Leaflet's [LatLngBounds], as far as [chat.genPostData] uses it:
    [pad r b] is [b.pad(r)], [contains a b] is [a.contains(b)], and the four
    corner coordinates come rounded to micro-degrees, e.g.
    [Math.round(b.getSouthWest().lat * 1E6)]. *)
Class LatLngBounds (B : Type) := {
  pad : Q → B → B;
  contains : B → B → bool;
  toBBoxString : B → string;
  swLatE6 : B → Z;
  swLngE6 : B → Z;
  neLatE6 : B → Z;
  neLngE6 : B → Z
}.

(** An argument as a caller outside the module may pass it. *)
Inductive JsArg :=
| AStr (s : string)
| ANum (z : Z)
| ABool (b : bool)
| AUndefined
| ANull.

(** [typeof a === 'string']. *)
Definition is_string (a : JsArg) : bool :=
  match a with AStr _ => true | _ => false end.

(** String concatenation's coercion, [''+a]. *)
Definition js_toString (a : JsArg) : string :=
  match a with
  | AStr s => s
  | ANum z => pretty z
  | ABool true => "true"
  | ABool false => "false"
  | AUndefined => "undefined"
  | ANull => "null"
  end.

(** [s === a] for a string [s]. *)
Definition str_strict_eq (s : string) (a : JsArg) : bool :=
  match a with AStr s' => String.eqb s s' | _ => false end.

(** An entry of [chat.channels].  [request] and [render] say whether the
    entry carries [chat.requestChannel] and [chat.renderChannel], as the
    three stock channels do; callbacks supplied by plugins are outside the
    model, and so is an id that names a member of [Object.prototype]. *)
Record ChannelDesc := {
  ch_id : string;
  ch_name : string;
  localBounds : bool;
  inputPrompt : option string;
  inputClass : option string;
  request : bool;
  render : bool
}.

(** The initial value of [chat.channels]. *)
Definition stock_channels : list ChannelDesc :=
  [ {| ch_id := "all"; ch_name := "All"; localBounds := true;
       inputPrompt := Some "broadcast:"; inputClass := Some "public";
       request := true; render := true |};
    {| ch_id := "faction"; ch_name := "Faction"; localBounds := true;
       inputPrompt := Some "tell faction:"; inputClass := Some "faction";
       request := true; render := true |};
    {| ch_id := "alerts"; ch_name := "Alerts"; localBounds := false;
       inputPrompt := Some "tell Jarvis:"; inputClass := Some "alerts";
       request := true; render := true |} ].

(** The request parameters built by [chat.genPostData].  The two optional
    members are absent ([None]) unless [$.extend] wrote them; [$.extend]
    skips a member whose value is [undefined]. *)
Record PostData := {
  minLatE6 : Z;
  minLngE6 : Z;
  maxLatE6 : Z;
  maxLngE6 : Z;
  minTimestampMs : Z;
  maxTimestampMs : Z;
  tab : string;
  plextContinuationGuid : option string;
  ascendingTimestampOrder : option bool
}.

(** A call of [window.postAjax('getPlexts', d, success, error)] made by
    [chat.requestChannel]; the two callbacks are determined by the
    arguments of that call and are [onSuccess] and [onError] below. *)
Record Pending := {
  rq_channel : string;
  rq_data : PostData;
  rq_getOlderMsgs : bool;
  rq_isRetry : bool
}.

Inductive LogEntry :=
| LogLog (msg : string)
| LogWarn (msg : string).

(** The element [#chat<id>] of a channel: whether it is hidden, the HTML
    last written into it and the jQuery datum [needsClearing] (truthy or
    not).  Scroll offsets depend on layout and are not modelled. *)
Record Container := {
  hidden : bool;
  html : string;
  needsClearing : bool
}.

(** The mutable state the chat module works on: the globals of [chat]
    ([channels], [_channels], [_oldBBox], [_requestRunning]), the containers
    in the document, the log, [window.failedRequestCount], the tab kept in
    [localStorage] ([stored_tab]) and the tab whose link is [active].  Of
    the helpers that are not among the sources, [viewport] stands for
    [window.clampLatLngBounds(map.getBounds())] and [isIdle] for
    [window.isIdle()], both set by the environment; [statusRenders] counts
    the calls of [window.renderUpdateStatus] and [outbox] lists the calls of
    [window.postAjax]. *)
Record World (B : Type) := {
  channels : list ChannelDesc;
  _channels : gmap string ChannelState;
  _oldBBox : option B;
  _requestRunning : gmap string bool;
  containers : gmap string Container;
  viewport : B;
  isIdle : bool;
  log : list LogEntry;
  failedRequestCount : Z;
  statusRenders : nat;
  outbox : list Pending;
  stored_tab : option string;
  active : option string
}.
Arguments channels {B} _.
Arguments _channels {B} _.
Arguments _oldBBox {B} _.
Arguments _requestRunning {B} _.
Arguments containers {B} _.
Arguments viewport {B} _.
Arguments isIdle {B} _.
Arguments log {B} _.
Arguments failedRequestCount {B} _.
Arguments statusRenders {B} _.
Arguments outbox {B} _.
Arguments stored_tab {B} _.
Arguments active {B} _.

Section Page.
Context {B : Type} `{LatLngBounds B} `{HostPage}.

Definition set_channel_states (f : gmap string ChannelState → gmap string ChannelState)
    (w : World B) : World B :=
  {| channels := channels w; _channels := f (_channels w); _oldBBox := _oldBBox w;
     _requestRunning := _requestRunning w; containers := containers w;
     viewport := viewport w; isIdle := isIdle w; log := log w;
     failedRequestCount := failedRequestCount w; statusRenders := statusRenders w;
     outbox := outbox w; stored_tab := stored_tab w; active := active w |}.

Definition set_oldBBox (b : option B) (w : World B) : World B :=
  {| channels := channels w; _channels := _channels w; _oldBBox := b;
     _requestRunning := _requestRunning w; containers := containers w;
     viewport := viewport w; isIdle := isIdle w; log := log w;
     failedRequestCount := failedRequestCount w; statusRenders := statusRenders w;
     outbox := outbox w; stored_tab := stored_tab w; active := active w |}.

Definition set_requestRunning (channel : string) (v : bool) (w : World B) : World B :=
  {| channels := channels w; _channels := _channels w; _oldBBox := _oldBBox w;
     _requestRunning := <[channel := v]> (_requestRunning w); containers := containers w;
     viewport := viewport w; isIdle := isIdle w; log := log w;
     failedRequestCount := failedRequestCount w; statusRenders := statusRenders w;
     outbox := outbox w; stored_tab := stored_tab w; active := active w |}.

Definition set_containers (f : gmap string Container → gmap string Container)
    (w : World B) : World B :=
  {| channels := channels w; _channels := _channels w; _oldBBox := _oldBBox w;
     _requestRunning := _requestRunning w; containers := f (containers w);
     viewport := viewport w; isIdle := isIdle w; log := log w;
     failedRequestCount := failedRequestCount w; statusRenders := statusRenders w;
     outbox := outbox w; stored_tab := stored_tab w; active := active w |}.

Definition add_log (e : LogEntry) (w : World B) : World B :=
  {| channels := channels w; _channels := _channels w; _oldBBox := _oldBBox w;
     _requestRunning := _requestRunning w; containers := containers w;
     viewport := viewport w; isIdle := isIdle w; log := log w ++ [e];
     failedRequestCount := failedRequestCount w; statusRenders := statusRenders w;
     outbox := outbox w; stored_tab := stored_tab w; active := active w |}.

Definition incr_failedRequestCount (w : World B) : World B :=
  {| channels := channels w; _channels := _channels w; _oldBBox := _oldBBox w;
     _requestRunning := _requestRunning w; containers := containers w;
     viewport := viewport w; isIdle := isIdle w; log := log w;
     failedRequestCount := failedRequestCount w + 1; statusRenders := statusRenders w;
     outbox := outbox w; stored_tab := stored_tab w; active := active w |}.

(** Modelled from the spec: [window.renderUpdateStatus], which is not among
    the sources, signals the idle state upward; the call is counted. *)
Definition renderUpdateStatus (w : World B) : World B :=
  {| channels := channels w; _channels := _channels w; _oldBBox := _oldBBox w;
     _requestRunning := _requestRunning w; containers := containers w;
     viewport := viewport w; isIdle := isIdle w; log := log w;
     failedRequestCount := failedRequestCount w; statusRenders := S (statusRenders w);
     outbox := outbox w; stored_tab := stored_tab w; active := active w |}.

(** Modelled from the spec: [window.postAjax], which is not among the
    sources, sends the request to the server and later calls the success
    callback with the response or the error callback on failure.  The call
    is recorded; the callbacks are [onSuccess] and [onError] below, run by
    the environment. *)
Definition postAjax (p : Pending) (w : World B) : World B :=
  {| channels := channels w; _channels := _channels w; _oldBBox := _oldBBox w;
     _requestRunning := _requestRunning w; containers := containers w;
     viewport := viewport w; isIdle := isIdle w; log := log w;
     failedRequestCount := failedRequestCount w; statusRenders := statusRenders w;
     outbox := outbox w ++ [p]; stored_tab := stored_tab w; active := active w |}.

Definition set_tab (stored act : option string) (w : World B) : World B :=
  {| channels := channels w; _channels := _channels w; _oldBBox := _oldBBox w;
     _requestRunning := _requestRunning w; containers := containers w;
     viewport := viewport w; isIdle := isIdle w; log := log w;
     failedRequestCount := failedRequestCount w; statusRenders := statusRenders w;
     outbox := outbox w; stored_tab := stored; active := act |}.

(** The two things the environment changes: the user pans or zooms the map,
    and the client goes idle or wakes up. *)
Definition set_viewport (b : B) (w : World B) : World B :=
  {| channels := channels w; _channels := _channels w; _oldBBox := _oldBBox w;
     _requestRunning := _requestRunning w; containers := containers w;
     viewport := b; isIdle := isIdle w; log := log w;
     failedRequestCount := failedRequestCount w; statusRenders := statusRenders w;
     outbox := outbox w; stored_tab := stored_tab w; active := active w |}.

Definition set_isIdle (v : bool) (w : World B) : World B :=
  {| channels := channels w; _channels := _channels w; _oldBBox := _oldBBox w;
     _requestRunning := _requestRunning w; containers := containers w;
     viewport := viewport w; isIdle := v; log := log w;
     failedRequestCount := failedRequestCount w; statusRenders := statusRenders w;
     outbox := outbox w; stored_tab := stored_tab w; active := active w |}.

(** The element id of a channel's display area, ['chat' + id]. *)
Definition container_id (channel : string) : string := "chat" +:+ channel.

(** [$('#chat' + id).data('needsClearing', v)]: nothing happens when the
    selection is empty. *)
Definition set_needsClearing (channel : string) (v : bool) (w : World B) : World B :=
  set_containers
    (alter (λ c, {| hidden := hidden c; html := html c; needsClearing := v |})
           (container_id channel)) w.

(** [$('#chat' + id).data('needsClearing')], as a truth value. *)
Definition get_needsClearing (channel : string) (w : World B) : bool :=
  match containers w !! container_id channel with
  | Some c => needsClearing c
  | None => false
  end.

(** [obj[k]] as a truth value, for a dictionary of flags [obj]. *)
Definition js_truthy_at (k : string) (obj : gmap string bool) : bool :=
  match obj !! k with
  | Some v => v
  | None => bool_decide (k ∈ object_prototype_members)
  end.

(** *** Channel store: [chat.initChannelData] *)

Definition initChannelData (entry : ChannelDesc) (w : World B) : World B :=
  set_channel_states (<[ch_id entry := initChannelState]>) w.

(** *** Sync protocol driver: [chat.genPostData] *)

Definition CHAT_BOUNDINGBOX_SAME_FACTOR : Q := (1 # 10)%Q.

(** The test of [chat.genPostData] on the current box [b] and the box of
    the last synchronisation: true when neither, padded, fails to contain
    the other. *)
Definition same_bounding_box (b old : B) : bool :=
  contains (pad CHAT_BOUNDINGBOX_SAME_FACTOR b) old
  && contains (pad CHAT_BOUNDINGBOX_SAME_FACTOR old) b.

(** The body of the [chat.channels.forEach] that clears the channels bound
    to the viewport. *)
Definition clear_if_local (w : World B) (entry : ChannelDesc) : World B :=
  if localBounds entry
  then set_needsClearing (ch_id entry) true (initChannelData entry w)
  else w.

(** The first half of [chat.genPostData]: "clear management". *)
Definition check_bounding_box : M (World B) B :=
  let! w := get in
  let b := viewport w in
  let old := default b (_oldBBox w) in
  do! modify (set_oldBBox (Some old)) then
  do! when (negb (same_bounding_box b old))
        (do! modify (add_log (LogLog
               ("Bounding Box changed, chat will be cleared (old: "
                +:+ toBBoxString old +:+ "; new: " +:+ toBBoxString b +:+ ")"))) then
         do! modify (λ w, foldl clear_if_local w (channels w)) then
         modify (set_oldBBox (Some b))) then
  ret b.

Definition flag_needsClearing (c : Container) : Container :=
  {| hidden := hidden c; html := html c; needsClearing := true |}.

(** The world after the "clear management" of [chat.genPostData]. *)
Definition after_bounding_box_check (w : World B) : World B :=
  let b := viewport w in
  let old := default b (_oldBBox w) in
  if same_bounding_box b old then set_oldBBox (Some old) w
  else set_oldBBox (Some b)
         (foldl clear_if_local
            (add_log (LogLog ("Bounding Box changed, chat will be cleared (old: "
                              +:+ toBBoxString old +:+ "; new: " +:+ toBBoxString b +:+ ")"))
                     (set_oldBBox (Some old) w))
            (channels w)).

(** The parameters every request starts from. *)
Definition base_post_data (b : B) (channel : string) : PostData :=
  {| minLatE6 := swLatE6 b; minLngE6 := swLngE6 b;
     maxLatE6 := neLatE6 b; maxLngE6 := neLngE6 b;
     minTimestampMs := -1; maxTimestampMs := -1;
     tab := channel;
     plextContinuationGuid := None;
     ascendingTimestampOrder := None |}.

(** The second half: the parameters read off the channel's state. *)
Definition post_data_for (b : B) (channel : string) (storageHash : ChannelState)
    (getOlderMsgs : bool) : PostData :=
  if getOlderMsgs then
    {| minLatE6 := swLatE6 b; minLngE6 := swLngE6 b;
       maxLatE6 := neLatE6 b; maxLngE6 := neLngE6 b;
       minTimestampMs := -1;
       maxTimestampMs := oldestTimestamp storageHash;
       tab := channel;
       plextContinuationGuid := oldestGUID storageHash;
       ascendingTimestampOrder := None |}
  else
    let min := newestTimestamp storageHash in
    {| minLatE6 := swLatE6 b; minLngE6 := swLngE6 b;
       maxLatE6 := neLatE6 b; maxLngE6 := neLngE6 b;
       minTimestampMs := min;
       maxTimestampMs := -1;
       tab := channel;
       plextContinuationGuid := newestGUID storageHash;
       ascendingTimestampOrder := if min >? -1 then Some true else None |}.

(** [chat.genPostData(channel, _storageHash, getOlderMsgs)]; the second
    argument is never read.  A string that names no channel makes
    [storageHash] undefined and the first read of its members throws,
    unless the string names an inherited member of the dictionary, whose
    members are all undefined and extend nothing. *)
Definition genPostData (channel : JsArg) (getOlderMsgs : bool) : M (World B) PostData :=
  match channel with
  | AStr ch =>
      let! b := check_bounding_box in
      let! w := get in
      match _channels w !! ch with
      | Some storageHash => ret (post_data_for b ch storageHash getOlderMsgs)
      | None =>
          if bool_decide (ch ∈ object_prototype_members)
          then ret (base_post_data b ch)
          else throw (TypeError "storageHash is undefined")
      end
  | _ => throw (JsError "API changed: isFaction flag now a channel string - all, faction, alerts")
  end.

(** [chat.requestChannel]; the class [loading] of the tab is not modelled. *)
Definition requestChannel (channel : string) (getOlderMsgs isRetry : bool) : M (World B) unit :=
  let! w := get in
  if js_truthy_at channel (_requestRunning w) && negb isRetry then ret tt
  else if isIdle w then modify renderUpdateStatus
  else
    do! modify (set_requestRunning channel true) then
    let! d := genPostData (AStr channel) getOlderMsgs in
    modify (postAjax {| rq_channel := channel; rq_data := d;
                        rq_getOlderMsgs := getOlderMsgs; rq_isRetry := isRetry |}).

(** *** Incremental renderer: the loop of [chat.renderData] *)

(** One piece of the string [msgs] built by the loop. *)
Inductive Fragment :=
| Divider (day : string)
| Row (row_html : string).

(** [chat.renderDivider]. *)
Definition renderDivider (text : string) : string :=
  "<tr class=" +:+ dquote +:+ "divider" +:+ dquote +:+ "><td><hr></td><td>"
  +:+ text +:+ "</td><td><hr></td></tr>".

Definition fragment_html (f : Fragment) : string :=
  match f with
  | Divider day => renderDivider day
  | Row row_html => row_html
  end.

(** [msg = data[guid]] followed by the reads of [msg[0]] and [msg[2]]:
    the day string and the row.  An inherited member is an object whose
    [0] and [2] are undefined; a missing one makes [msg[0]] throw. *)
Definition lookup_row (data : gmap string StoredMsg) (guid : string)
    : option (string * string) :=
  match data !! guid with
  | Some msg => Some (toLocaleDateString (m_time msg), m_html msg)
  | None =>
      if bool_decide (guid ∈ object_prototype_members)
      then Some ("Invalid Date", "undefined")
      else None
  end.

(** [prevTime && prevTime !== nextTime]; [prevTime] starts as [null]. *)
Definition day_changed (prevTime : option string) (nextTime : string) : bool :=
  match prevTime with
  | Some p => negb (String.eqb p "") && negb (String.eqb p nextTime)
  | None => false
  end.

(** The [vals.forEach] of [chat.renderData], as the list of the pieces
    appended to [msgs]. *)
Fixpoint render_rows (data : gmap string StoredMsg) (prevTime : option string)
    (vals : list string) : Outcome (list Fragment) :=
  match vals with
  | [] => Ret []
  | guid :: rest =>
      match lookup_row data guid with
      | None => Throw (TypeError "msg is undefined")
      | Some (nextTime, row) =>
          match render_rows data (Some nextTime) rest with
          | Throw e => Throw e
          | Ret frags =>
              Ret (((if day_changed prevTime nextTime then [Divider nextTime] else [])
                    ++ Row row :: frags)%list)
          end
      end
  end.

(** The display sequence as the specification describes it, to compare the
    loop with: the content of each message in the order given, with a date
    divider before a message whose calendar day differs from the day of the
    message before it. *)
Fixpoint spec_display_sequence (prevDay : option string) (msgs : list StoredMsg) : list Fragment :=
  match msgs with
  | [] => []
  | msg :: rest =>
      let day := toLocaleDateString (m_time msg) in
      (match prevDay with
       | Some p => if String.eqb p day then [] else [Divider day]
       | None => []
       end ++ Row (m_html msg) :: spec_display_sequence (Some day) rest)%list
  end.

(** The rows of a display sequence, dividers left out. *)
Definition rows_of (frags : list Fragment) : list string :=
  omap (λ f, match f with Row r => Some r | Divider _ => None end) frags.

(** The comparison [a[0] - b[0]] of the legacy sort. *)
Definition older_first (a b : Z * string) : Prop := a.1 ≤ b.1.

#[local] Instance older_first_dec : RelDecision older_first.
Proof. intros a b. unfold older_first. apply _. Defined.

(** The order used when no [sortedGuids] is passed (legacy callers): by
    timestamp, oldest first.  Members with equal timestamps come out in the
    enumeration order of the map, which for a [gmap] need not be the
    insertion order a JavaScript object has. *)
Definition legacy_order (data : gmap string StoredMsg) : list string :=
  snd <$> merge_sort older_first
                     ((λ kv : string * StoredMsg, (m_time kv.2, kv.1)) <$> map_to_list data).

Definition is_hidden (element : string) (w : World B) : bool :=
  match containers w !! element with
  | Some c => hidden c
  | None => false
  end.

Definition set_html (element : string) (h : string) (w : World B) : World B :=
  set_containers
    (alter (λ c, {| hidden := hidden c; html := h; needsClearing := needsClearing c |})
           element) w.

(** [chat.renderData], up to [elm.html(...)].  What follows in the source
    writes the jQuery data [needsScrollTop] and [ignoreNextScroll] of the
    element and sets its scroll offset, through [chat.keepScrollPosition]
    among others; these depend on layout, [Container] has no field for
    them, and nothing is stated about them. *)
Definition renderData (data : gmap string StoredMsg) (element : string)
    (likelyWereOldMsgs : bool) (sortedGuids : option (list string)) : M (World B) unit :=
  let! w := get in
  if is_hidden element w then ret tt
  else
    let vals := match sortedGuids with
                | Some v => v
                | None => legacy_order data
                end in
    match render_rows data None vals with
    | Throw e => throw e
    | Ret frags =>
        modify (set_html element
                  ("<table>" +:+ String.concat "" (fragment_html <$> frags) +:+ "</table>"))
    end.

(** [chat.renderChannel]. *)
Definition renderChannel (channel : string) (oldMsgsWereAdded : bool) : M (World B) unit :=
  let! w := get in
  match _channels w !! channel with
  | None => throw (TypeError "chat._channels[channel] is undefined")
  | Some st => renderData (data st) (container_id channel) oldMsgsWereAdded (Some (guids st))
  end.

(** [chat.handleChannel]; [data] is [None] when the response is falsy or
    has no [result].  The call of [chat.writeDataToHash] passes five
    arguments, [(data, state, false, olderMsgs, ascendingTimestampOrder)],
    to a function of four parameters: [isOlderMsgs] receives [false] and
    [isAscendingOrder] receives [olderMsgs].  The hooks run after the merge
    only observe. *)
Definition handleChannel (channel : string) (data : option (list RawMsg))
    (olderMsgs : bool) (ascendingTimestampOrder : option bool) : M (World B) unit :=
  do! modify (set_requestRunning channel false) then
  match data with
  | None =>
      do! modify incr_failedRequestCount then
      modify (add_log (LogWarn (channel +:+ " chat error. Waiting for next auto-refresh.")))
  | Some result =>
      let! w := get in
      if (length result =? 0)%nat && negb (get_needsClearing channel w) then ret tt
      else
        do! modify (set_needsClearing channel false) then
        match _channels w !! channel with
        | None => throw (TypeError "chat._channels[channel] is undefined")
        | Some st =>
            let old := oldestGUID st in
            let st' := writeDataToHash result st false olderMsgs in
            do! modify (set_channel_states (<[channel := st']>)) then
            renderChannel channel (negb (bool_decide (old = oldestGUID st')))
        end
  end.

(** The success callback [chat.requestChannel] hands to [postAjax]. *)
Definition onSuccess (p : Pending) (data : option (list RawMsg)) : M (World B) unit :=
  handleChannel (rq_channel p) data (rq_getOlderMsgs p) (ascendingTimestampOrder (rq_data p)).

(** The error callback [chat.requestChannel] hands to [postAjax]. *)
Definition onError (p : Pending) : M (World B) unit :=
  if rq_isRetry p
  then modify (set_requestRunning (rq_channel p) false)
  else requestChannel (rq_channel p) (rq_getOlderMsgs p) true.

(** *** Tabs: [chat.getChannelDesc], [chat.chooseTab], [chat.setupTabs] *)

(** [chat.getChannelDesc]: the last entry whose id is [tab]. *)
Definition getChannelDesc (tab : option string) (w : World B) : option ChannelDesc :=
  foldl (λ channelObject entry,
           match tab with
           | Some t => if String.eqb (ch_id entry) t then Some entry else channelObject
           | None => channelObject
           end)
        None (channels w).

(** [$('#chat > div').hide()] followed by [$('#chat' + tab).show()]. *)
Definition show_only (tab : string) (w : World B) : World B :=
  set_containers
    (λ cs, alter (λ c, {| hidden := false; html := html c; needsClearing := needsClearing c |})
                 (container_id tab)
                 ((λ c, {| hidden := true; html := html c; needsClearing := needsClearing c |})
                    <$> cs)) w.

(** The warning of [chat.chooseTab]. *)
Definition invalid_tab_warning (tab : JsArg) (w : World B) : string :=
  "chat tab " +:+ dquote +:+ js_toString tab +:+ dquote +:+ " requested - but only "
  +:+ String.concat ", " ((λ entry, dquote +:+ ch_id entry +:+ dquote) <$> channels w)
  +:+ " are valid - assuming " +:+ dquote +:+ "all" +:+ dquote +:+ " wanted".

(** [chat.chooseTab].  The tab link and the container of a channel are
    created together, so the link of [tab] can take the class [active]
    exactly when the container exists.  The classes and prompt of the input
    box, the refresh timer and the scroll offset are not modelled. *)
Definition chooseTab (tab : JsArg) : M (World B) unit :=
  let! w := get in
  let! tab :=
    if forallb (λ entry, negb (str_strict_eq (ch_id entry) tab)) (channels w)
    then do! modify (add_log (LogWarn (invalid_tab_warning tab w))) then ret "all"
    else ret (js_toString tab) in
  do! modify (λ w, set_tab (Some tab) (active w) w) then
  match getChannelDesc (Some tab) w with
  | None => throw (TypeError "channel is null")
  | Some channel =>
      do! modify (λ w, set_tab (stored_tab w)
                         (if bool_decide (is_Some (containers w !! container_id tab))
                          then Some tab else None) w) then
      do! modify (show_only tab) then
      when (render channel) (renderChannel tab false)
  end.

(** [createChannelTab], as far as the container goes. *)
Definition createChannelTab (entry : ChannelDesc) (w : World B) : World B :=
  set_containers
    (<[container_id (ch_id entry) :=
         {| hidden := false; html := "<table></table>"; needsClearing := false |}]>) w.

(** [chat.setupTabs]. *)
Definition setupTabs (w : World B) : World B :=
  foldl (λ w entry, createChannelTab entry (initChannelData entry w)) w (channels w).

End Page.

(** ** 6. The markup transformation, on the heap

    Arrays and objects are shared by reference, so the function is modelled
    over a heap: a markup array holds references to entity arrays
    [[type, data]], which hold a reference to their data object. *)

Abbreviation loc := nat.

Inductive HObj :=
| HArray (elems : list loc)
| HEntity (ty : string) (obj : loc)
| HData (d : MarkupData).

Abbreviation Heap := (list HObj).

Definition alloc (o : HObj) : M Heap loc := λ h, (Ret (length h), (h ++ [o])%list).

Definition write (l : loc) (o : HObj) : M Heap unit := modify (λ h : Heap, <[l := o]> h).

Definition read_array (l : loc) : M Heap (list loc) :=
  λ h, match h !! l with
       | Some (HArray elems) => (Ret elems, h)
       | _ => (Throw (TypeError "not an array"), h)
       end.

Definition read_entity (l : loc) : M Heap (string * loc) :=
  λ h, match h !! l with
       | Some (HEntity ty obj) => (Ret (ty, obj), h)
       | _ => (Throw (TypeError "not an entity"), h)
       end.

Definition read_data (l : loc) : M Heap MarkupData :=
  λ h, match h !! l with
       | Some (HData d) => (Ret d, h)
       | _ => (Throw (TypeError "not an object"), h)
       end.

(** [arr[i]] for an entity array [arr]: its type and its data reference. *)
Definition entity_at (arr : loc) (i : nat) : M Heap (string * loc) :=
  let! elems := read_array arr in
  match elems !! i with
  | Some l => read_entity l
  | None => throw (TypeError "entity is undefined")
  end.

(** [arr.splice(start, count)], in place. *)
Definition splice (arr : loc) (start count : nat) : M Heap unit :=
  let! elems := read_array arr in
  write arr (HArray (spliced start count elems)).

(** [JSON.parse(JSON.stringify(...))] on one entity: a new data object and
    a new entity array. *)
Definition clone_entity (l : loc) : M Heap loc :=
  let! e := read_entity l in
  let! d := read_data e.2 in
  let! obj := alloc (HData d) in
  alloc (HEntity e.1 obj).

Fixpoint clone_entities (ls : list loc) : M Heap (list loc) :=
  match ls with
  | [] => ret []
  | l :: rest =>
      let! l' := clone_entity l in
      let! rest' := clone_entities rest in
      ret (l' :: rest')
  end.

(** [JSON.parse(JSON.stringify(markup))]. *)
Definition json_clone (markup : loc) : M Heap loc :=
  let! elems := read_array markup in
  let! elems' := clone_entities elems in
  alloc (HArray elems').

(** The three rewriting steps, on the copy. *)
Definition collapse_faction_step (newMarkup : loc) : M Heap unit :=
  let! elems := read_array newMarkup in
  when (4 <? length elems)%nat
    (let! e3 := entity_at newMarkup 3 in
     let! e4 := entity_at newMarkup 4 in
     let! d4 := read_data e4.2 in
     when (is_faction_link e3.1 e4.1 (plain d4))
       (let! d3 := read_data e3.2 in
        do! write e4.2 (HData (with_team (team d3) d4)) then
        splice newMarkup 3 1)).

Definition skip_agent_step (newMarkup : loc) : M Heap unit :=
  let! elems := read_array newMarkup in
  when (1 <? length elems)%nat
    (let! e0 := entity_at newMarkup 0 in
     let! d0 := read_data e0.2 in
     let! e1 := entity_at newMarkup 1 in
     when (is_agent_prefix e0.1 (plain d0) e1.1) (splice newMarkup 0 2)).

Definition skip_faction_agent_step (newMarkup : loc) : M Heap unit :=
  let! elems := read_array newMarkup in
  when (2 <? length elems)%nat
    (let! e0 := entity_at newMarkup 0 in
     let! e1 := entity_at newMarkup 1 in
     let! d1 := read_data e1.2 in
     let! e2 := entity_at newMarkup 2 in
     when (is_faction_agent_prefix e0.1 e1.1 (plain d1) e2.1) (splice newMarkup 0 3)).

(** [transformMessage]. *)
Definition transformMessage (markup : loc) : M Heap loc :=
  let! newMarkup := json_clone markup in
  do! collapse_faction_step newMarkup then
  do! skip_agent_step newMarkup then
  do! skip_faction_agent_step newMarkup then
  ret newMarkup.

(** The value an entity reference stands for. *)
Definition entity_value (h : Heap) (l : loc) : option Entity :=
  match h !! l with
  | Some (HEntity ty obj) =>
      match h !! obj with
      | Some (HData d) => Some {| ent_type := ty; ent_data := d |}
      | _ => None
      end
  | _ => None
  end.

(** The value a markup reference stands for. *)
Definition markup_value (h : Heap) (l : loc) : option (list Entity) :=
  match h !! l with
  | Some (HArray elems) => mapM (entity_value h) elems
  | _ => None
  end.

(** The references a markup array reaches: itself, its entity arrays and
    their data objects. *)
Definition reachable_locs (h : Heap) (l : loc) : list loc :=
  match h !! l with
  | Some (HArray elems) =>
      l :: flat_map (λ e, match h !! e with
                          | Some (HEntity _ obj) => [e; obj]
                          | _ => [e]
                          end) elems
  | _ => [l]
  end.

(** *** The shape of the heap after the copy *)

Section CopyShape.
Local Open Scope nat_scope.

(** The objects [JSON.parse(JSON.stringify(...))] allocates for the
    entities [vs], starting at address [n]: for each entity its data
    object, then its entity array. *)
Fixpoint cloned_objs (n : nat) (vs : list Entity) : list HObj :=
  match vs with
  | [] => []
  | v :: vs => HData (ent_data v) :: HEntity (ent_type v) n :: cloned_objs (S (S n)) vs
  end.

Definition dat_loc (n i : nat) : loc := n + 2 * i.
Definition ent_loc (n i : nat) : loc := S (n + 2 * i).

(** The heap [h] extended by a copy of [vs] and by the copy's array, which
    holds the entities numbered [idxs]. *)
Definition copy_heap (h : Heap) (vs : list Entity) (idxs : list nat) : Heap :=
  (h ++ cloned_objs (length h) vs ++ [HArray (ent_loc (length h) <$> idxs)])%list.

Definition copy_ref (h : Heap) (vs : list Entity) : loc := length h + 2 * length vs.

Fixpoint cloned_locs (n : nat) (vs : list Entity) : list loc :=
  match vs with
  | [] => []
  | _ :: vs => S n :: cloned_locs (S (S n)) vs
  end.

(** The entities numbered [idxs] have the values [cur]. *)
Definition numbered (vs : list Entity) (idxs : list nat) (cur : list Entity) : Prop :=
  Forall2 (λ i v, vs !! i = Some v) idxs cur.

End CopyShape.

(** ** 7. A concrete page

    Leaflet is a third-party library; the following reading of its
    [LatLngBounds] over exact rationals (degrees) instantiates the
    interface of section 5, and [sample_host] is a host page, so the
    model can be run. *)

Record QBox := {
  south : Q;
  west : Q;
  north : Q;
  east : Q
}.

(** [pad]: each side moves outwards by the ratio times the extent. *)
Definition qbox_pad (bufferRatio : Q) (b : QBox) : QBox :=
  let heightBuffer := (Qabs (south b - north b) * bufferRatio)%Q in
  let widthBuffer := (Qabs (west b - east b) * bufferRatio)%Q in
  {| south := (south b - heightBuffer)%Q; west := (west b - widthBuffer)%Q;
     north := (north b + heightBuffer)%Q; east := (east b + widthBuffer)%Q |}.

(** [a.contains(b)] for two boxes. *)
Definition qbox_contains (a b : QBox) : bool :=
  Qle_bool (south a) (south b) && Qle_bool (north b) (north a)
  && Qle_bool (west a) (west b) && Qle_bool (east b) (east a).

(** [Math.round(x * 1E6)]: to the nearest integer, halves upwards. *)
Definition round_E6 (x : Q) : Z := Qfloor (x * 1000000 + (1 # 2))%Q.

Definition show_Q (x : Q) : string := pretty (Qnum x) +:+ "/" +:+ pretty (Z.pos (Qden x)).

#[global] Instance qbox_bounds : LatLngBounds QBox := {|
  pad := qbox_pad;
  contains := qbox_contains;
  toBBoxString := λ b, String.concat "," (show_Q <$> [west b; south b; east b; north b]);
  swLatE6 := λ b, round_E6 (south b);
  swLngE6 := λ b, round_E6 (west b);
  neLatE6 := λ b, round_E6 (north b);
  neLngE6 := λ b, round_E6 (east b)
|}.

Definition sample_teamStringToId (t : option string) : Z :=
  match t with
  | Some s => if String.eqb s "RESISTANCE" then 1 else if String.eqb s "ENLIGHTENED" then 2 else 0
  | None => 0
  end.

(** A host page: team ids as the page numbers them, times in UTC
    milliseconds written out plainly, entities rendered as their text. *)
#[global] Instance sample_host : HostPage := {|
  teamStringToId := sample_teamStringToId;
  TEAM_TO_CSS := λ t, if t =? 1 then Some "res" else if t =? 2 then Some "enl" else None;
  PLAYER_nickname := "alice";
  unixTimeToHHmm := λ t, pretty ((t / 3600000) `mod` 24) +:+ ":" +:+ pretty ((t / 60000) `mod` 60);
  unixTimeToDateTimeString := λ t, "day " +:+ pretty (t / 86400000) +:+ " ms " +:+ pretty t;
  renderMarkupEntity := λ ent, plain (ent_data ent);
  toLocaleDateString := λ t, "day " +:+ pretty (t / 86400000)
|}.

(** A raw record with nothing but a GUID and a timestamp. *)
Definition raw (g : string) (t : Z) : RawMsg :=
  {| raw_guid := g; raw_time := t;
     raw_plext := {| categories := 1; plext_team := "RESISTANCE";
                     plextType := "PLAYER_GENERATED"; markup := [] |} |}.

(** The page before [chat.setup], looking at the box [b]. *)
Definition initial_world {B} (b : B) : World B :=
  {| channels := stock_channels; _channels := ∅; _oldBBox := None;
     _requestRunning := ∅; containers := ∅; viewport := b; isIdle := false;
     log := []; failedRequestCount := 0; statusRenders := 0; outbox := [];
     stored_tab := None; active := None |}.

Definition unit_box : QBox := {| south := 0; west := 0; north := 1; east := 1 |}.

(** The page after [chat.setupTabs], looking at the unit box. *)
Definition sample_world : World QBox := setupTabs (initial_world unit_box).

Definition far_box : QBox := {| south := 5; west := 5; north := 6; east := 6 |}.

(** The channel [all] with two messages merged, asked for newer ones. *)
Definition synced_state : ChannelState :=
  writeDataToHash [raw "g1" 100; raw "g2" 200] initChannelState false true.

Definition synced_world : World QBox :=
  set_channel_states (<["all" := synced_state]>) sample_world.

(** The map has moved away from the box of the last synchronisation. *)
Definition moved_world : World QBox :=
  set_viewport far_box (set_oldBBox (Some unit_box) synced_world).

(** Two well-formed merges: a page of new messages, then older ones. *)
Definition sample_merges : list Merge :=
  [ {| mg_batch := [raw "g1" 100; raw "g2" 200];
       mg_isOlderMsgs := false; mg_isAscendingOrder := true |};
    {| mg_batch := [raw "g0" 50; raw "g00" 40];
       mg_isOlderMsgs := true; mg_isAscendingOrder := false |} ].

(** Three messages, the third a day after the first two. *)
Definition three_days : list RawMsg :=
  [raw "g1" 0; raw "g2" 1000; raw "g3" 86400000].

(** The message [Agent bob destroyed the Resistance Link ...]: the data objects at
    even addresses, their entity arrays after them, the markup array last. *)
Definition sample_heap : Heap :=
  [ HData {| plain := "Agent "; team := None; attrs := [] |};
    HEntity "TEXT" 0;
    HData {| plain := "bob"; team := Some "ENLIGHTENED"; attrs := [] |};
    HEntity "PLAYER" 2;
    HData {| plain := " destroyed the "; team := None; attrs := [] |};
    HEntity "TEXT" 4;
    HData {| plain := "Resistance"; team := Some "RESISTANCE"; attrs := [] |};
    HEntity "FACTION" 6;
    HData {| plain := " Link "; team := None; attrs := [] |};
    HEntity "TEXT" 8;
    HData {| plain := "Town Hall"; team := Some "RESISTANCE";
             attrs := [("name", JStr "Town Hall"); ("latE6", JNum 1000000)] |};
    HEntity "PORTAL" 10;
    HArray [1; 3; 5; 7; 9; 11]%nat ].

Definition sample_markup : list Entity :=
  [ {| ent_type := "TEXT"; ent_data := {| plain := "Agent "; team := None; attrs := [] |} |};
    {| ent_type := "PLAYER";
       ent_data := {| plain := "bob"; team := Some "ENLIGHTENED"; attrs := [] |} |};
    {| ent_type := "TEXT";
       ent_data := {| plain := " destroyed the "; team := None; attrs := [] |} |};
    {| ent_type := "FACTION";
       ent_data := {| plain := "Resistance"; team := Some "RESISTANCE"; attrs := [] |} |};
    {| ent_type := "TEXT"; ent_data := {| plain := " Link "; team := None; attrs := [] |} |};
    {| ent_type := "PORTAL";
       ent_data := {| plain := "Town Hall"; team := Some "RESISTANCE";
                      attrs := [("name", JStr "Town Hall"); ("latE6", JNum 1000000)] |} |} ].

(** ** 8. Properties of channel states and batches *)

(** Every stored timestamp lies between the two watermarks. *)
Definition watermarks_bound (s : ChannelState) : Prop :=
  ∀ g m, data s !! g = Some m → oldestTimestamp s ≤ m_time m ≤ newestTimestamp s.

(** [guids] lists exactly the keys of [data], each once. *)
Definition order_integrity (s : ChannelState) : Prop :=
  NoDup (guids s) ∧ ∀ g, g ∈ guids s ↔ g ∈ dom (data s).

(** The timestamps of a batch run in the direction its flag announces. *)
Definition batch_ordered (isAscendingOrder : bool) (b : list RawMsg) : Prop :=
  if isAscendingOrder
  then Sorted Z.le (raw_time <$> b)
  else Sorted Z.ge (raw_time <$> b).

(** No record of the batch carries the sentinel [-1] as its timestamp. *)
Definition no_sentinel (b : list RawMsg) : Prop :=
  Forall (λ r, raw_time r ≠ -1) b.

Definition well_formed_merge (m : Merge) : Prop :=
  batch_ordered (mg_isAscendingOrder m) (mg_batch m) ∧ no_sentinel (mg_batch m).

(** The timestamps are never the sentinel once a message is stored, and
    every stored timestamp lies between the watermarks. *)
Definition marks_inv (s : ChannelState) : Prop :=
  ∀ g m, data s !! g = Some m →
    oldestTimestamp s ≠ -1 ∧ newestTimestamp s ≠ -1
    ∧ oldestTimestamp s ≤ m_time m ≤ newestTimestamp s.

(** ** 9. The rest of the page: registry, refresh, background flags, posting *)

Section Registry.
Context {B : Type} `{LatLngBounds B} `{HostPage}.

Definition set_channels (l : list ChannelDesc) (w : World B) : World B :=
  {| channels := l; _channels := _channels w; _oldBBox := _oldBBox w;
     _requestRunning := _requestRunning w; containers := containers w;
     viewport := viewport w; isIdle := isIdle w; log := log w;
     failedRequestCount := failedRequestCount w; statusRenders := statusRenders w;
     outbox := outbox w; stored_tab := stored_tab w; active := active w |}.

(** The warnings of [chat.addChannel]. *)
Definition addChannel_warning (id reason : string) : string :=
  "could not add channel " +:+ dquote +:+ id +:+ dquote +:+ ": " +:+ reason.

(** [chat.addChannel].  [isTabsSetup] is the variable of that name, which
    [chat.setupTabs] sets; the member [index] written to the entry only
    numbers the access key of the tab link and is not modelled. *)
Definition addChannel (isTabsSetup : bool) (channelDesc : ChannelDesc) : M (World B) bool :=
  let! w := get in
  if String.eqb (ch_id channelDesc) "info" || String.eqb (ch_id channelDesc) "map" then
    do! modify (add_log (LogWarn (addChannel_warning (ch_id channelDesc) "reserved"))) then
    ret false
  else
    match getChannelDesc (Some (ch_id channelDesc)) w with
    | Some _ =>
        do! modify (add_log (LogWarn (addChannel_warning (ch_id channelDesc) "already exist"))) then
        ret false
    | None =>
        do! modify (set_channels (channels w ++ [channelDesc])) then
        do! when isTabsSetup (modify (createChannelTab channelDesc)) then
        ret true
    end.

(** [Array.prototype.forEach] with a callback that may throw: the
    exception ends the loop. *)
Fixpoint forEach {S A} (l : list A) (f : A → M S unit) : M S unit :=
  match l with
  | [] => ret tt
  | x :: rest => do! f x then forEach rest f
  end.

(** The test of [chat.request] on an entry: its tab is the active one, or
    [chat.backgroundChannels] exists and flags its id. *)
Definition wants_refresh (channel : option string)
    (backgroundChannels : option (gmap string bool)) (entry : ChannelDesc) : bool :=
  bool_decide (channel = Some (ch_id entry))
  || match backgroundChannels with
     | Some flags => js_truthy_at (ch_id entry) flags
     | None => false
     end.

(** [chat.request], the refresh function; [backgroundChannels] is
    [chat.backgroundChannels], undefined until
    [chat.backgroundChannelData] is first called. *)
Definition chat_request (backgroundChannels : option (gmap string bool)) : M (World B) unit :=
  let! w := get in
  let channel := active w in
  forEach (channels w)
    (λ entry, when (wants_refresh channel backgroundChannels entry)
                (when (request entry) (requestChannel (ch_id entry) false false))).

End Registry.

(** *** Background monitoring: [chat.backgroundChannelData] *)

(** [chat.backgroundInstanceChannel] and [chat.backgroundChannels]; both
    are undefined until the first call.  Instance and channel names that
    name a member of [Object.prototype] are outside the model. *)
Record Background := {
  backgroundInstanceChannel : option (gmap string (gmap string bool));
  backgroundChannels : option (gmap string bool)
}.

(** The body of the inner [$.each]. *)
Definition flag_channel (channel : string) (flag : bool) (acc : gmap string bool)
    : gmap string bool :=
  if flag then <[channel := true]> acc else acc.

(** The two nested [$.each] loops, started from the empty object. *)
Definition merge_flags (instances : gmap string (gmap string bool)) : gmap string bool :=
  map_fold (λ _ channels acc, map_fold flag_channel acc channels) ∅ instances.

Definition backgroundChannelData (instance channel : string) (flag : bool)
    (bg : Background) : Background :=
  let instances := default ∅ (backgroundInstanceChannel bg) in
  let own := default ∅ (instances !! instance) in
  let instances' := <[instance := <[channel := flag]> own]> instances in
  {| backgroundInstanceChannel := Some instances';
     backgroundChannels := Some (merge_flags instances') |}.

(** *** Posting: [chat.sendChatMessage], [chat.postMsg] *)

(** The data of a [window.postAjax('sendPlext', data, ...)] call; [message]
    is absent when the value passed is [undefined]. *)
Record SendData := {
  sd_message : option string;
  sd_latE6 : Z;
  sd_lngE6 : Z;
  sd_tab : string
}.

(** What posting works on: the text of the input box, the centre of the
    map in micro-degrees ([Math.round(map.getCenter().lat*1E6)] and the
    like), the [sendPlext] calls made, the texts shown by [alert] and the
    delays passed to [window.startRefreshTimeout]. *)
Record Desk := {
  chatinput : string;
  center_latE6 : Z;
  center_lngE6 : Z;
  sendPlext : list SendData;
  alerts : list string;
  refreshTimeouts : list Z
}.

Definition set_chatinput (s : string) (d : Desk) : Desk :=
  {| chatinput := s; center_latE6 := center_latE6 d; center_lngE6 := center_lngE6 d;
     sendPlext := sendPlext d; alerts := alerts d; refreshTimeouts := refreshTimeouts d |}.

Definition alert (text : string) (d : Desk) : Desk :=
  {| chatinput := chatinput d; center_latE6 := center_latE6 d; center_lngE6 := center_lngE6 d;
     sendPlext := sendPlext d; alerts := alerts d ++ [text];
     refreshTimeouts := refreshTimeouts d |}.

Definition startRefreshTimeout (ms : Z) (d : Desk) : Desk :=
  {| chatinput := chatinput d; center_latE6 := center_latE6 d; center_lngE6 := center_lngE6 d;
     sendPlext := sendPlext d; alerts := alerts d;
     refreshTimeouts := refreshTimeouts d ++ [ms] |}.

Definition post_sendPlext (p : SendData) (d : Desk) : Desk :=
  {| chatinput := chatinput d; center_latE6 := center_latE6 d; center_lngE6 := center_lngE6 d;
     sendPlext := sendPlext d ++ [p]; alerts := alerts d;
     refreshTimeouts := refreshTimeouts d |}.

(** The line feed. *)
Definition newline : string := String "010"%char EmptyString.

(** [errMsg] of [chat.sendChatMessage]; an undefined [msg] is concatenated
    as the word [undefined]. *)
Definition errMsg (msg : option string) : string :=
  "Your message could not be delivered. You can copy&paste it here and try again if you want:"
  +:+ newline +:+ newline +:+ default "undefined" msg.

(** [chat.sendChatMessage(tab, msg)]. *)
Definition sendChatMessage (tab : string) (msg : option string) (d : Desk) : Desk :=
  if negb (String.eqb tab "all") && negb (String.eqb tab "faction") then d
  else post_sendPlext {| sd_message := msg; sd_latE6 := center_latE6 d;
                         sd_lngE6 := center_lngE6 d; sd_tab := tab |} d.

(** The two callbacks [chat.sendChatMessage] hands to [postAjax];
    [response_error] is the truth value of [response.error]. *)
Definition sendPlext_success (p : SendData) (response_error : bool) (d : Desk) : Desk :=
  startRefreshTimeout 100 (if response_error then alert (errMsg (sd_message p)) d else d).

Definition sendPlext_error (p : SendData) (d : Desk) : Desk :=
  alert (errMsg (sd_message p)) d.

(** The member [sendMessage] of a channel entry, which [ChannelDesc] does
    not carry: [chat.sendChatMessage] or the function of the alerts
    channel. *)
Inductive SendMessage :=
| SendChatMessage
| JarvisAlert.

Definition jarvis_text : string :=
  "Jarvis: A strange game. The only winning move is not to play. How about a nice game of chess?"
  +:+ newline +:+ "(You can't chat to the 'alerts' channel!)".

(** [sendMessage] in the three entries [chat.channels] starts with. *)
Definition stock_sendMessage (entry : ChannelDesc) : option SendMessage :=
  if String.eqb (ch_id entry) "all" || String.eqb (ch_id entry) "faction"
  then Some SendChatMessage
  else if String.eqb (ch_id entry) "alerts" then Some JarvisAlert
  else None.

(** [channel.sendMessage(msg)], the call [chat.postMsg] makes: the one
    argument lands in the first parameter of [chat.sendChatMessage], and
    the second parameter is undefined. *)
Definition call_sendMessage (f : SendMessage) (arg : string) (d : Desk) : Desk :=
  match f with
  | SendChatMessage => sendChatMessage arg None d
  | JarvisAlert => alert jarvis_text d
  end.

Section Posting.
Context {B : Type} `{LatLngBounds B} `{HostPage}.
(** jQuery's [$.trim] and the member [sendMessage] of the entries. *)
Variable trim : string → string.
Variable sendMessage : ChannelDesc → option SendMessage.

(** [chat.postMsg], on the page [w]. *)
Definition postMsg (w : World B) : M Desk unit :=
  let channel := getChannelDesc (active w) w in
  let! d := get in
  let msg := trim (chatinput d) in
  if String.eqb msg "" then ret tt
  else
    match channel with
    | None => throw (TypeError "channel is null")
    | Some entry =>
        match sendMessage entry with
        | Some f =>
            do! modify (call_sendMessage f msg) then
            modify (set_chatinput "")
        | None => ret tt
        end
    end.

End Posting.

(** ** 10. Further predicates *)

(** The entities [chat.parseMsgData] reads the name of the player from. *)
Definition names_player (ent : Entity) : bool :=
  String.eqb (ent_type ent) "SENDER" || String.eqb (ent_type ent) "PLAYER".

(** A character the title attribute of a time cell must not contain. *)
Definition breaks_attribute (c : ascii) : bool :=
  Ascii.eqb c "<"%char || Ascii.eqb c ">"%char || Ascii.eqb c "034"%char.

(** What a reader sees of an entity: its type and its text. *)
Definition ent_text (ent : Entity) : string * string :=
  (ent_type ent, plain (ent_data ent)).

(** Every channel state of the page lists exactly the GUIDs it stores. *)
Definition stores_consistent {B} (w : World B) : Prop :=
  ∀ ch st, _channels w !! ch = Some st → order_integrity st.

(** Two pages that agree on everything the model keeps of a page except,
    possibly, the HTML of one element. *)
Definition same_but_html {B} (element : string) (w w' : World B) : Prop :=
  channels w' = channels w ∧ _channels w' = _channels w ∧ _oldBBox w' = _oldBBox w
  ∧ _requestRunning w' = _requestRunning w ∧ viewport w' = viewport w
  ∧ isIdle w' = isIdle w ∧ log w' = log w
  ∧ failedRequestCount w' = failedRequestCount w ∧ statusRenders w' = statusRenders w
  ∧ outbox w' = outbox w ∧ stored_tab w' = stored_tab w ∧ active w' = active w
  ∧ ∀ k, hidden <$> containers w' !! k = hidden <$> containers w !! k
       ∧ needsClearing <$> containers w' !! k = needsClearing <$> containers w !! k
       ∧ (k ≠ element → containers w' !! k = containers w !! k).

(** * Properties *)

(** ** A. The merger *)

Section MergerFacts.
Context `{HostPage}.

Ltac case_if :=
  match goal with
  | |- context [if ?c then _ else _] => destruct c eqn:?
  | H : context [if ?c then _ else _] |- _ => destruct c eqn:?
  end.

Ltac bool_to_Z :=
  repeat match goal with
  | H : (_ || _) = true |- _ => apply orb_true_iff in H
  | H : (_ || _) = false |- _ => apply orb_false_iff in H; destruct H
  | H : negb _ = true |- _ => apply negb_true_iff in H
  | H : negb _ = false |- _ => apply negb_false_iff in H
  | H : (_ =? _) = true |- _ => apply Z.eqb_eq in H
  | H : (_ =? _) = false |- _ => apply Z.eqb_neq in H
  | H : (_ >=? _) = true |- _ => apply Z.geb_le in H
  | H : (_ >=? _) = false |- _ => rewrite Z.geb_leb in H; apply Z.leb_gt in H
  | H : (_ <=? _) = true |- _ => apply Z.leb_le in H
  | H : (_ <=? _) = false |- _ => apply Z.leb_gt in H
  end.

Lemma updateOldNewHash_data newData s older asc :
  data (updateOldNewHash newData s older asc) = data s.
Proof.
  unfold updateOldNewHash.
  destruct (head newData), (last newData); try reflexivity.
  repeat case_if; reflexivity.
Qed.

Lemma updateOldNewHash_guids newData s older asc :
  guids (updateOldNewHash newData s older asc) = guids s.
Proof.
  unfold updateOldNewHash.
  destruct (head newData), (last newData); try reflexivity.
  repeat case_if; reflexivity.
Qed.

Lemma updateOldNewHash_idempotent newData s older asc :
  updateOldNewHash newData (updateOldNewHash newData s older asc) older asc
  = updateOldNewHash newData s older asc.
Proof.
  unfold updateOldNewHash.
  destruct (head newData) as [r0|], (last newData) as [rn|]; try reflexivity.
  destruct s as [d gs ot og nt ng], older, asc; cbn -[Z.eqb Z.geb Z.leb];
    repeat (case_if; cbn -[Z.eqb Z.geb Z.leb] in * );
    try reflexivity; bool_to_Z; try lia;
    repeat match goal with H : _ ∨ _ |- _ => destruct H end; try lia; try discriminate.
Qed.

Lemma updateOldNewHash_write_one newData s older asc asc' json :
  updateOldNewHash newData (write_one asc' s json) older asc
  = write_one asc' (updateOldNewHash newData s older asc) json.
Proof.
  unfold write_one. rewrite updateOldNewHash_data.
  destruct (js_in (raw_guid json) (data s)); [reflexivity|].
  rewrite updateOldNewHash_guids.
  unfold updateOldNewHash.
  destruct (head newData), (last newData); try reflexivity.
  destruct s as [d gs ot og nt ng], asc, asc'; cbn -[Z.eqb Z.geb Z.leb];
    repeat (case_if; cbn -[Z.eqb Z.geb Z.leb] in * ); reflexivity || congruence.
Qed.

Lemma updateOldNewHash_foldl newData s older asc asc' batch :
  updateOldNewHash newData (foldl (write_one asc') s batch) older asc
  = foldl (write_one asc') (updateOldNewHash newData s older asc) batch.
Proof.
  revert s. induction batch as [|json batch IH]; intros s; [reflexivity|].
  cbn. rewrite IH, updateOldNewHash_write_one. reflexivity.
Qed.

Lemma js_in_insert {V} (g k : string) (v : V) (m : gmap string V) :
  js_in g m = true → js_in g (<[k := v]> m) = true.
Proof.
  unfold js_in. rewrite !orb_true_iff, !bool_decide_eq_true, dom_insert_L.
  intros [Hg|Hg]; [left|by right]. apply elem_of_union. by right.
Qed.

Lemma js_in_inserted {V} (k : string) (v : V) (m : gmap string V) :
  js_in k (<[k := v]> m) = true.
Proof.
  unfold js_in. rewrite orb_true_iff, !bool_decide_eq_true, dom_insert_L.
  left. apply elem_of_union. left. by apply elem_of_singleton.
Qed.

Lemma js_in_false {V} (k : string) (m : gmap string V) :
  js_in k m = false → m !! k = None.
Proof.
  unfold js_in. rewrite orb_false_iff, !bool_decide_eq_false.
  intros [Hk _]. by apply not_elem_of_dom.
Qed.

Lemma write_one_keeps asc s json g :
  js_in g (data s) = true → js_in g (data (write_one asc s json)) = true.
Proof.
  intros Hg. unfold write_one.
  destruct (js_in (raw_guid json) (data s)); [done|]. cbn. by apply js_in_insert.
Qed.

Lemma write_one_present asc s json :
  js_in (raw_guid json) (data (write_one asc s json)) = true.
Proof.
  unfold write_one.
  destruct (js_in (raw_guid json) (data s)) eqn:E; [done|]. cbn. apply js_in_inserted.
Qed.

Lemma foldl_write_one_keeps asc batch s g :
  js_in g (data s) = true → js_in g (data (foldl (write_one asc) s batch)) = true.
Proof.
  revert s. induction batch as [|json batch IH]; intros s Hg; [done|].
  cbn. apply IH. by apply write_one_keeps.
Qed.

(** After the loop every GUID of the batch is a member of [data]. *)
Lemma foldl_write_one_present asc batch s json :
  json ∈ batch → js_in (raw_guid json) (data (foldl (write_one asc) s batch)) = true.
Proof.
  revert s. induction batch as [|j batch IH]; intros s Hin.
  - by apply elem_of_nil in Hin.
  - cbn. apply elem_of_cons in Hin as [->|Hin].
    + apply foldl_write_one_keeps, write_one_present.
    + by apply IH.
Qed.

(** The loop does nothing when every GUID of the batch is a member already. *)
Lemma foldl_write_one_absorbed asc batch s :
  (∀ json, json ∈ batch → js_in (raw_guid json) (data s) = true) →
  foldl (write_one asc) s batch = s.
Proof.
  induction batch as [|j batch IH]; intros Hall; [done|].
  cbn. assert (write_one asc s j = s) as ->.
  { unfold write_one. rewrite Hall; [done|]. apply elem_of_cons; by left. }
  apply IH. intros json Hin. apply Hall. apply elem_of_cons; by right.
Qed.

Lemma write_one_marks asc s json :
  oldestTimestamp (write_one asc s json) = oldestTimestamp s
  ∧ oldestGUID (write_one asc s json) = oldestGUID s
  ∧ newestTimestamp (write_one asc s json) = newestTimestamp s
  ∧ newestGUID (write_one asc s json) = newestGUID s.
Proof. unfold write_one. by destruct (js_in _ _). Qed.

Lemma foldl_write_one_marks asc batch s :
  oldestTimestamp (foldl (write_one asc) s batch) = oldestTimestamp s
  ∧ oldestGUID (foldl (write_one asc) s batch) = oldestGUID s
  ∧ newestTimestamp (foldl (write_one asc) s batch) = newestTimestamp s
  ∧ newestGUID (foldl (write_one asc) s batch) = newestGUID s.
Proof.
  revert s. induction batch as [|j batch IH]; intros s; [done|].
  cbn. destruct (IH (write_one asc s j)) as (-> & -> & -> & ->).
  apply write_one_marks.
Qed.

(** Merging a batch a second time changes nothing. *)
Lemma writeDataToHash_twice batch s older asc :
  writeDataToHash batch (writeDataToHash batch s older asc) older asc
  = writeDataToHash batch s older asc.
Proof.
  unfold writeDataToHash.
  rewrite updateOldNewHash_foldl, updateOldNewHash_idempotent.
  apply foldl_write_one_absorbed. intros json Hin.
  by apply foldl_write_one_present.
Qed.

(** A batch whose GUIDs are all members leaves messages and order alone,
    and the watermarks are those [chat.updateOldNewHash] computes. *)
Lemma writeDataToHash_all_present batch s older asc :
  (∀ json, json ∈ batch → js_in (raw_guid json) (data s) = true) →
  writeDataToHash batch s older asc = updateOldNewHash batch s older asc.
Proof.
  intros Hall. unfold writeDataToHash. apply foldl_write_one_absorbed.
  intros json Hin. rewrite updateOldNewHash_data. by apply Hall.
Qed.

(** *** Order integrity *)

Lemma write_one_order_integrity asc s json :
  order_integrity s → order_integrity (write_one asc s json).
Proof.
  intros [Hnd Hiff]. unfold write_one.
  destruct (js_in (raw_guid json) (data s)) eqn:E; [by split|].
  assert (raw_guid json ∉ guids s) as Hfresh.
  { intros Hin. apply Hiff in Hin. apply elem_of_dom in Hin as [m Hm].
    apply js_in_false in E. congruence. }
  split; cbn.
  - destruct asc.
    + apply NoDup_app. split; [done|]. split; [|apply NoDup_singleton].
      intros x Hx Hx'. apply list_elem_of_singleton in Hx'. by subst.
    + by apply NoDup_cons.
  - intros g. rewrite dom_insert_L, elem_of_union, elem_of_singleton, <- Hiff.
    destruct asc.
    + rewrite elem_of_app, list_elem_of_singleton. tauto.
    + rewrite elem_of_cons. tauto.
Qed.

Lemma writeDataToHash_order_integrity batch s older asc :
  order_integrity s → order_integrity (writeDataToHash batch s older asc).
Proof.
  intros Hs. unfold writeDataToHash.
  assert (order_integrity (updateOldNewHash batch s older asc)) as Hu.
  { unfold order_integrity. by rewrite updateOldNewHash_data, updateOldNewHash_guids. }
  revert Hu. generalize (updateOldNewHash batch s older asc).
  induction batch as [|json batch IH]; intros s' Hs'; [done|].
  cbn. apply IH. by apply write_one_order_integrity.
Qed.

Lemma initChannelState_order_integrity : order_integrity initChannelState.
Proof.
  split; cbn; [apply NoDup_nil_2|].
  intros g. rewrite dom_empty_L. split; intros Hg.
  - by apply elem_of_nil in Hg.
  - by apply elem_of_empty in Hg.
Qed.

Lemma foldl_apply_merge_order_integrity ms s :
  order_integrity s → order_integrity (foldl apply_merge s ms).
Proof.
  revert s. induction ms as [|m ms IH]; intros s Hs; [done|].
  cbn. apply IH. by apply writeDataToHash_order_integrity.
Qed.

(** *** Watermarks *)

(** In a sorted list every member lies between the first and the last. *)
Lemma sorted_between (R : relation Z) (l : list Z) (a z x : Z) :
  (∀ u, R u u) → (∀ u v w, R u v → R v w → R u w) →
  Sorted R l → head l = Some a → last l = Some z → x ∈ l → R a x ∧ R x z.
Proof.
  intros Hrefl Htrans Hs. apply Sorted_StronglySorted in Hs; [|exact Htrans].
  revert a x. induction Hs as [|y l Hs IH Hall]; intros a x Hhd Hlast Hx; [done|].
  cbn in Hhd. injection Hhd as ->.
  rewrite Forall_forall in Hall.
  assert (∀ u, u ∈ a :: l → R a u) as Hhead.
  { intros u Hu. apply elem_of_cons in Hu as [->|Hu]; [apply Hrefl|].
    by apply Hall. }
  split; [by apply Hhead|].
  destruct l as [|b l].
  - cbn in Hlast. injection Hlast as <-.
    apply list_elem_of_singleton in Hx as ->. apply Hrefl.
  - rewrite last_cons_cons in Hlast.
    apply elem_of_cons in Hx as [->|Hx].
    + apply Hhead. apply elem_of_cons. right. by apply last_Some_elem_of.
    + by apply (IH b x).
Qed.

(** With the batch ordered as its flag says, [last] of
    [chat.updateOldNewHash] is its oldest record and [first] its newest. *)
Lemma batch_extremes asc (batch : list RawMsg) (r0 rn r : RawMsg) :
  batch_ordered asc batch → head batch = Some r0 → last batch = Some rn → r ∈ batch →
  raw_time (if asc then r0 else rn) ≤ raw_time r ≤ raw_time (if asc then rn else r0).
Proof.
  intros Hord Hhd Hlast Hr.
  assert (head (raw_time <$> batch) = Some (raw_time r0)) as Hhd'.
  { destruct batch; [done|]. cbn in *. congruence. }
  assert (last (raw_time <$> batch) = Some (raw_time rn)) as Hlast'.
  { by rewrite fmap_last, Hlast. }
  assert (raw_time r ∈ raw_time <$> batch) as Hr' by by apply list_elem_of_fmap_2.
  unfold batch_ordered in Hord. destruct asc.
  - destruct (sorted_between Z.le _ _ _ _ Z.le_refl Z.le_trans Hord Hhd' Hlast' Hr'). lia.
  - assert (∀ u, u >= u) as Hrefl by (intros; lia).
    assert (∀ u v w, u >= v → v >= w → u >= w) as Htrans by (intros; lia).
    destruct (sorted_between Z.ge _ _ _ _ Hrefl Htrans Hord Hhd' Hlast' Hr'). lia.
Qed.

(** The watermarks after [chat.updateOldNewHash], for a batch whose oldest
    and newest timestamps are [lo] and [hi]. *)
Lemma updateOldNewHash_marks batch s (older asc : bool) (r0 rn : RawMsg) :
  head batch = Some r0 → last batch = Some rn →
  raw_time (if asc then r0 else rn) ≠ -1 → raw_time (if asc then rn else r0) ≠ -1 →
  let s' := updateOldNewHash batch s older asc in
  oldestTimestamp s' ≤ raw_time (if asc then r0 else rn)
  ∧ raw_time (if asc then rn else r0) ≤ newestTimestamp s'
  ∧ oldestTimestamp s' ≠ -1 ∧ newestTimestamp s' ≠ -1
  ∧ (oldestTimestamp s ≠ -1 → oldestTimestamp s' ≤ oldestTimestamp s)
  ∧ (newestTimestamp s ≠ -1 → newestTimestamp s ≤ newestTimestamp s').
Proof.
  intros Hhd Hlast Hlo Hhi. unfold updateOldNewHash. rewrite Hhd, Hlast.
  destruct s as [d gs ot og nt ng], older, asc; cbn -[Z.eqb Z.geb Z.leb] in *;
    repeat (case_if; cbn -[Z.eqb Z.geb Z.leb] in * );
    bool_to_Z;
    repeat match goal with H : _ ∨ _ |- _ => destruct H end;
    repeat split; intros; try lia; try discriminate.
Qed.

(** What the loop stores was there before or comes from the batch. *)
Lemma foldl_write_one_lookup asc batch s g m :
  data (foldl (write_one asc) s batch) !! g = Some m →
  data s !! g = Some m ∨ ∃ r, r ∈ batch ∧ m_time m = raw_time r.
Proof.
  revert s. induction batch as [|json batch IH]; intros s Hm; [by left|].
  cbn in Hm. apply IH in Hm as [Hm|(r & Hr & Ht)].
  - unfold write_one in Hm.
    destruct (js_in (raw_guid json) (data s)); [by left|]. cbn in Hm.
    apply lookup_insert_Some in Hm as [[_ <-]|[_ Hm]]; [|by left].
    right. exists json. split; [apply elem_of_cons; by left|done].
  - right. exists r. split; [apply elem_of_cons; by right|done].
Qed.

Lemma writeDataToHash_marks_inv batch s older asc :
  batch_ordered asc batch → no_sentinel batch →
  marks_inv s → marks_inv (writeDataToHash batch s older asc).
Proof.
  intros Hord Hsent Hinv. unfold writeDataToHash.
  destruct (head batch) as [r0|] eqn:Hhd; cycle 1.
  { apply head_None in Hhd. by subst. }
  destruct (last batch) as [rn|] eqn:Hlast; cycle 1.
  { apply last_None in Hlast. by subst. }
  assert (r0 ∈ batch) as Hr0 by by apply head_Some_elem_of.
  assert (rn ∈ batch) as Hrn by by apply last_Some_elem_of.
  unfold no_sentinel in Hsent. rewrite Forall_forall in Hsent.
  destruct (updateOldNewHash_marks batch s older asc r0 rn Hhd Hlast)
    as (Hlo & Hhi & Ho & Hn & Hold & Hnew).
  { destruct asc; by apply Hsent. }
  { destruct asc; by apply Hsent. }
  intros g m Hm.
  destruct (foldl_write_one_marks asc batch (updateOldNewHash batch s older asc))
    as (-> & _ & -> & _).
  split; [done|]. split; [done|].
  apply foldl_write_one_lookup in Hm as [Hm|(r & Hr & ->)].
  - rewrite updateOldNewHash_data in Hm.
    destruct (Hinv g m Hm) as (Ho' & Hn' & Hb). specialize (Hold Ho'). specialize (Hnew Hn'). lia.
  - pose proof (batch_extremes asc batch r0 rn r Hord Hhd Hlast Hr). lia.
Qed.

Lemma foldl_apply_merge_marks_inv ms s :
  Forall well_formed_merge ms → marks_inv s → marks_inv (foldl apply_merge s ms).
Proof.
  revert s. induction ms as [|m ms IH]; intros s Hwf Hs; [done|].
  apply Forall_cons in Hwf as [[Hord Hsent] Hwf].
  cbn. apply IH; [done|]. by apply writeDataToHash_marks_inv.
Qed.

End MergerFacts.

(** ** B. The page *)

Section PageFacts.
Context {B : Type} `{LatLngBounds B} `{HostPage}.

Lemma check_bounding_box_run (w : World B) :
  check_bounding_box w = (Ret (viewport w), after_bounding_box_check w).
Proof.
  unfold check_bounding_box, after_bounding_box_check, bind, get, modify, when, ret.
  cbn. destruct (same_bounding_box _ _); reflexivity.
Qed.

Lemma genPostData_run (w : World B) ch older :
  genPostData (AStr ch) older w =
  (match _channels (after_bounding_box_check w) !! ch with
   | Some storageHash => Ret (post_data_for (viewport w) ch storageHash older)
   | None => if bool_decide (ch ∈ object_prototype_members)
             then Ret (base_post_data (viewport w) ch)
             else Throw (TypeError "storageHash is undefined")
   end, after_bounding_box_check w).
Proof.
  unfold genPostData, bind, get. rewrite check_bounding_box_run.
  destruct (_channels _ !! ch); [reflexivity|].
  destruct (bool_decide _); reflexivity.
Qed.

Lemma foldl_clear_if_local_fields (w : World B) l :
  channels (foldl clear_if_local w l) = channels w
  ∧ _oldBBox (foldl clear_if_local w l) = _oldBBox w
  ∧ _requestRunning (foldl clear_if_local w l) = _requestRunning w
  ∧ log (foldl clear_if_local w l) = log w
  ∧ outbox (foldl clear_if_local w l) = outbox w
  ∧ isIdle (foldl clear_if_local w l) = isIdle w
  ∧ viewport (foldl clear_if_local w l) = viewport w.
Proof.
  revert w. induction l as [|e l IH]; intros w; [done|].
  cbn. destruct (IH (clear_if_local w e)) as (-> & -> & -> & -> & -> & -> & ->).
  unfold clear_if_local. by destruct (localBounds e).
Qed.

(** The channel states after the clearing loop. *)
Lemma foldl_clear_if_local_states (w : World B) l id :
  _channels (foldl clear_if_local w l) !! id =
  if existsb (λ e, localBounds e && String.eqb (ch_id e) id) l
  then Some initChannelState else _channels w !! id.
Proof.
  revert w. induction l as [|e l IH]; intros w; [done|].
  cbn. rewrite IH. unfold clear_if_local.
  destruct (localBounds e); cbn; [|done].
  destruct (String.eqb_spec (ch_id e) id) as [->|Hne]; cbn.
  - rewrite lookup_insert_eq. by destruct (existsb _ l).
  - by rewrite lookup_insert_ne.
Qed.

(** The containers after the clearing loop. *)
Lemma foldl_clear_if_local_containers (w : World B) l k :
  containers (foldl clear_if_local w l) !! k =
  if existsb (λ e, localBounds e && String.eqb (container_id (ch_id e)) k) l
  then flag_needsClearing <$> containers w !! k else containers w !! k.
Proof.
  revert w. induction l as [|e l IH]; intros w; [done|].
  cbn. rewrite IH. unfold clear_if_local.
  destruct (localBounds e); cbn; [|done].
  destruct (String.eqb_spec (container_id (ch_id e)) k) as [->|Hne]; cbn.
  - rewrite lookup_alter_eq. destruct (existsb _ l); [|done].
    by destruct (containers w !! _).
  - by rewrite lookup_alter_ne.
Qed.

Lemma existsb_local_true l (entry : ChannelDesc) (f : ChannelDesc → string) :
  entry ∈ l → localBounds entry = true →
  existsb (λ e, localBounds e && String.eqb (f e) (f entry)) l = true.
Proof.
  intros Hin Hloc. apply existsb_exists. exists entry.
  split; [by apply list_elem_of_In|]. by rewrite Hloc, String.eqb_refl.
Qed.

Lemma existsb_local_false l id :
  (∀ entry, entry ∈ l → ch_id entry = id → localBounds entry = false) →
  existsb (λ e, localBounds e && String.eqb (ch_id e) id) l = false.
Proof.
  intros Hall. apply not_true_is_false. intros Hex.
  apply existsb_exists in Hex as (e & Hin & He).
  apply andb_true_iff in He as [Hloc He]. apply String.eqb_eq in He.
  apply list_elem_of_In in Hin. rewrite (Hall e Hin He) in Hloc. done.
Qed.

Lemma after_bounding_box_check_keeps_state (w : World B) ch :
  is_Some (_channels w !! ch) → is_Some (_channels (after_bounding_box_check w) !! ch).
Proof.
  intros Hs. unfold after_bounding_box_check.
  destruct (same_bounding_box _ _); cbn; [done|].
  rewrite foldl_clear_if_local_states. by destruct (existsb _ _).
Qed.

Lemma after_bounding_box_check_fields (w : World B) :
  channels (after_bounding_box_check w) = channels w
  ∧ _requestRunning (after_bounding_box_check w) = _requestRunning w
  ∧ outbox (after_bounding_box_check w) = outbox w
  ∧ isIdle (after_bounding_box_check w) = isIdle w
  ∧ viewport (after_bounding_box_check w) = viewport w.
Proof.
  unfold after_bounding_box_check. destruct (same_bounding_box _ _); cbn; [done|].
  match goal with |- context [foldl clear_if_local ?w0 ?l] =>
    destruct (foldl_clear_if_local_fields w0 l) as (-> & _ & -> & _ & -> & -> & ->) end.
  done.
Qed.

(** C9.  [chat.genPostData] throws its [Error] whenever the channel
    argument is not a string, and does so first: the world it leaves is
    the world it was called in, so no bounding box was compared, no
    parameter computed and no channel state read or reset. *)
Theorem genPostData_rejects_non_string (channel : JsArg) (getOlderMsgs : bool) (w : World B) :
  is_string channel = false →
  genPostData channel getOlderMsgs w
  = (Throw (JsError "API changed: isFaction flag now a channel string - all, faction, alerts"), w).
Proof. intros Hns. destruct channel; try discriminate; reflexivity. Qed.

(** C4.  The parameters [chat.genPostData] builds for a channel that has a
    state [st] (read after the clear management, which is when the source
    reads it): asking for older messages bounds the request above by
    [oldestTimestamp], continues from [oldestGUID] and sets no ascending
    flag; otherwise it bounds the request below by [newestTimestamp],
    continues from [newestGUID] and sets [ascendingTimestampOrder] to
    [true] exactly when [newestTimestamp > -1]; with [newestTimestamp]
    still [-1], and in the freshly initialised state whichever way is
    asked, both bounds are [-1] and no ascending flag is sent.  When the
    bounding box test passes, or the channel is not bound to the viewport,
    [st] is the state the channel had on entry; when the test fails for a
    channel bound to the viewport, [st] is the freshly initialised state. *)
Theorem genPostData_parameters (w : World B) (ch : string) (getOlderMsgs : bool)
    (st : ChannelState) :
  _channels (genPostData (AStr ch) getOlderMsgs w).2 !! ch = Some st →
  ∃ d, (genPostData (AStr ch) getOlderMsgs w).1 = Ret d
    ∧ tab d = ch
    ∧ (getOlderMsgs = true →
         maxTimestampMs d = oldestTimestamp st
         ∧ plextContinuationGuid d = oldestGUID st
         ∧ minTimestampMs d = -1
         ∧ ascendingTimestampOrder d = None)
    ∧ (getOlderMsgs = false →
         minTimestampMs d = newestTimestamp st
         ∧ plextContinuationGuid d = newestGUID st
         ∧ maxTimestampMs d = -1
         ∧ (ascendingTimestampOrder d = Some true ↔ newestTimestamp st > -1)
         ∧ (ascendingTimestampOrder d = None ↔ ¬ newestTimestamp st > -1)
         ∧ (newestTimestamp st = -1 →
              minTimestampMs d = -1 ∧ maxTimestampMs d = -1
              ∧ ascendingTimestampOrder d = None))
    ∧ (st = initChannelState →
         minTimestampMs d = -1 ∧ maxTimestampMs d = -1
         ∧ plextContinuationGuid d = None ∧ ascendingTimestampOrder d = None)
    ∧ (same_bounding_box (viewport w) (default (viewport w) (_oldBBox w)) = true →
         _channels w !! ch = Some st)
    ∧ ((∀ entry, entry ∈ channels w → ch_id entry = ch → localBounds entry = false) →
         _channels w !! ch = Some st)
    ∧ (same_bounding_box (viewport w) (default (viewport w) (_oldBBox w)) = false →
       (∃ entry, entry ∈ channels w ∧ ch_id entry = ch ∧ localBounds entry = true) →
         st = initChannelState).
Proof.
  rewrite genPostData_run. cbn. intros Hst. rewrite Hst.
  eexists. split; [reflexivity|].
  unfold post_data_for.
  split; [by destruct getOlderMsgs|].
  split; [by intros ->|].
  split.
  { intros ->. cbn. destruct (Z.gtb_spec (newestTimestamp st) (-1)) as [Hgt|Hle];
      repeat split; intros; try done; try lia. }
  split.
  { intros ->. by destruct getOlderMsgs. }
  revert Hst. unfold after_bounding_box_check.
  destruct (same_bounding_box _ _); cbn; rewrite ?foldl_clear_if_local_states.
  - intros Hst. split; [done|]. split; [done|]. by intros ?.
  - intros Hst. split; [by intros ?|]. split.
    + intros Hnone. by rewrite (existsb_local_false _ ch Hnone) in Hst.
    + intros _ (entry & Hin & <- & Hloc).
      rewrite (existsb_local_true _ entry ch_id Hin Hloc) in Hst. by injection Hst as <-.
Qed.

(** C5.  The bounding box test of [chat.genPostData] compares the current
    box [b] with the box of the last synchronisation ([b] itself when there
    was none): they count as unchanged exactly when each, padded by the
    factor 0.1, contains the other.  Unchanged: no channel state and no
    container is touched and the remembered box stays.  Changed: the
    remembered box becomes [b]; every channel with [localBounds] gets the
    freshly initialised state and its container, where there is one, gets
    [needsClearing]; a channel id that no [localBounds] entry carries keeps
    its state. *)
Theorem viewport_change_detector (w : World B) (ch : string) (getOlderMsgs : bool) :
  let b := viewport w in
  let old := default b (_oldBBox w) in
  let w' := (genPostData (AStr ch) getOlderMsgs w).2 in
  if contains (pad (1 # 10) b) old && contains (pad (1 # 10) old) b
  then _channels w' = _channels w ∧ containers w' = containers w
       ∧ _oldBBox w' = Some old ∧ log w' = log w
  else _oldBBox w' = Some b
       ∧ (∀ entry, entry ∈ channels w → localBounds entry = true →
            _channels w' !! ch_id entry = Some initChannelState
            ∧ containers w' !! container_id (ch_id entry)
              = flag_needsClearing <$> containers w !! container_id (ch_id entry))
       ∧ (∀ id, (∀ entry, entry ∈ channels w → ch_id entry = id → localBounds entry = false) →
            _channels w' !! id = _channels w !! id).
Proof.
  intros b old w'. subst w'. rewrite genPostData_run. cbn [snd].
  unfold after_bounding_box_check. fold b. fold old.
  change (contains (pad (1 # 10) b) old && contains (pad (1 # 10) old) b)
    with (same_bounding_box b old).
  destruct (same_bounding_box b old); cbn; [done|].
  split; [done|]. split.
  - intros entry Hin Hloc. split.
    + rewrite foldl_clear_if_local_states.
      by rewrite (existsb_local_true _ entry ch_id Hin Hloc).
    + rewrite foldl_clear_if_local_containers.
      by rewrite (existsb_local_true _ entry (λ e, container_id (ch_id e)) Hin Hloc).
  - intros id Hnone. rewrite foldl_clear_if_local_states.
    by rewrite (existsb_local_false _ id Hnone).
Qed.

(** *** The driver *)

Lemma requestChannel_in_flight (w : World B) ch older :
  js_truthy_at ch (_requestRunning w) = true →
  requestChannel ch older false w = (Ret tt, w).
Proof. intros Hrun. unfold requestChannel, bind, get, ret. cbn. by rewrite Hrun. Qed.

(** A request that is let through and whose channel has a state leaves the
    page. *)
Lemma requestChannel_issues (w : World B) ch older isRetry :
  js_truthy_at ch (_requestRunning w) && negb isRetry = false →
  isIdle w = false → is_Some (_channels w !! ch) →
  ∃ d, tab d = ch
    ∧ requestChannel ch older isRetry w
      = (Ret tt, postAjax {| rq_channel := ch; rq_data := d;
                             rq_getOlderMsgs := older; rq_isRetry := isRetry |}
                   (after_bounding_box_check (set_requestRunning ch true w))).
Proof.
  intros Hrun Hidle Hst.
  unfold requestChannel, bind, get, modify, ret. cbn -[genPostData].
  rewrite Hrun, Hidle, genPostData_run.
  apply (after_bounding_box_check_keeps_state (set_requestRunning ch true w)) in Hst
    as [st Hst].
  rewrite Hst. eexists. split; [|reflexivity].
  unfold post_data_for. by destruct older.
Qed.

Lemma onError_retry (w : World B) p :
  rq_isRetry p = true → onError p w = (Ret tt, set_requestRunning (rq_channel p) false w).
Proof. intros Hr. unfold onError. by rewrite Hr. Qed.

Lemma postAjax_fields (w : World B) p :
  outbox (postAjax p w) = (outbox w ++ [p])%list
  ∧ _requestRunning (postAjax p w) = _requestRunning w
  ∧ _channels (postAjax p w) = _channels w
  ∧ isIdle (postAjax p w) = isIdle w.
Proof. done. Qed.

Lemma issued_fields (w : World B) ch p :
  let w' := postAjax p (after_bounding_box_check (set_requestRunning ch true w)) in
  outbox w' = (outbox w ++ [p])%list
  ∧ _requestRunning w' !! ch = Some true
  ∧ isIdle w' = isIdle w
  ∧ (is_Some (_channels w !! ch) → is_Some (_channels w' !! ch)).
Proof.
  cbn.
  destruct (after_bounding_box_check_fields (set_requestRunning ch true w))
    as (_ & -> & -> & -> & _).
  cbn. rewrite lookup_insert_eq. repeat split; try done.
  apply (after_bounding_box_check_keeps_state (set_requestRunning ch true w)).
Qed.

(** A request that is let through carries the parameters
    [chat.genPostData] builds at that moment, read off the state the
    channel has once the clear management has run. *)
Lemma requestChannel_issues_fresh (w : World B) ch older isRetry :
  js_truthy_at ch (_requestRunning w) && negb isRetry = false →
  isIdle w = false → is_Some (_channels w !! ch) →
  ∃ st,
    let d := post_data_for (viewport w) ch st older in
    let w' := postAjax {| rq_channel := ch; rq_data := d;
                          rq_getOlderMsgs := older; rq_isRetry := isRetry |}
                (after_bounding_box_check (set_requestRunning ch true w)) in
    _channels w' !! ch = Some st
    ∧ (genPostData (AStr ch) older (set_requestRunning ch true w)).1 = Ret d
    ∧ tab d = ch
    ∧ requestChannel ch older isRetry w = (Ret tt, w').
Proof.
  intros Hrun Hidle Hst.
  apply (after_bounding_box_check_keeps_state (set_requestRunning ch true w)) in Hst
    as [st Hst].
  exists st. cbv zeta. split; [exact Hst|]. split; [|split].
  - rewrite genPostData_run. cbn [fst]. by rewrite Hst.
  - unfold post_data_for. by destruct older.
  - unfold requestChannel, bind, get, modify, ret. cbn -[genPostData].
    rewrite Hrun, Hidle, genPostData_run. by rewrite Hst.
Qed.

Lemma issued_viewport (w : World B) ch p :
  viewport (postAjax p (after_bounding_box_check (set_requestRunning ch true w))) = viewport w.
Proof.
  by destruct (after_bounding_box_check_fields (set_requestRunning ch true w))
    as (_ & _ & _ & _ & ?).
Qed.

(** C6 (amended).  [chat.requestChannel] does nothing when a request for
    the channel is in flight and the call is not a retry.  When a retry
    fails, its error callback returns normally and only clears the
    in-flight flag of the channel: the page it leaves is the page it found
    with that one flag set to false, so the flags of the other channels,
    the log, the requests sent, the states and the displays are as they
    were.  When a first attempt fails while the client is not idle, its
    error callback calls [chat.requestChannel] with [isRetry] set, which
    issues one request for the same channel and direction, marked as a
    retry, with freshly generated parameters: they are what
    [chat.genPostData] returns when the retry is made, read off the state
    the channel then has, not the parameters of the failed attempt.  So a
    request that keeps failing is sent twice in all: the attempt and one
    retry. *)
Theorem requestChannel_retries_once (w : World B) (ch : string) (getOlderMsgs : bool) :
  (js_truthy_at ch (_requestRunning w) = true →
     requestChannel ch getOlderMsgs false w = (Ret tt, w))
  ∧ (∀ p, rq_isRetry p = true →
       ∃ w', onError p w = (Ret tt, w')
         ∧ w' = set_requestRunning (rq_channel p) false w
         ∧ _requestRunning w' = <[rq_channel p := false]> (_requestRunning w)
         ∧ _requestRunning w' !! rq_channel p = Some false
         ∧ (∀ other, other ≠ rq_channel p →
              _requestRunning w' !! other = _requestRunning w !! other)
         ∧ outbox w' = outbox w ∧ log w' = log w ∧ _channels w' = _channels w
         ∧ containers w' = containers w ∧ _oldBBox w' = _oldBBox w
         ∧ failedRequestCount w' = failedRequestCount w
         ∧ statusRenders w' = statusRenders w)
  ∧ (∀ p, rq_isRetry p = false → isIdle w = false → is_Some (_channels w !! rq_channel p) →
       ∃ d st w', onError p w = (Ret tt, w')
         ∧ (genPostData (AStr (rq_channel p)) (rq_getOlderMsgs p)
                        (set_requestRunning (rq_channel p) true w)).1 = Ret d
         ∧ _channels w' !! rq_channel p = Some st
         ∧ d = post_data_for (viewport w) (rq_channel p) st (rq_getOlderMsgs p)
         ∧ tab d = rq_channel p
         ∧ outbox w' = (outbox w ++ [ {| rq_channel := rq_channel p; rq_data := d;
                                         rq_getOlderMsgs := rq_getOlderMsgs p;
                                         rq_isRetry := true |} ])%list)
  ∧ (js_truthy_at ch (_requestRunning w) = false → isIdle w = false →
     is_Some (_channels w !! ch) →
       ∃ d1 d2 st1 st2 w1 w2 w3,
         let p1 := {| rq_channel := ch; rq_data := d1;
                      rq_getOlderMsgs := getOlderMsgs; rq_isRetry := false |} in
         let p2 := {| rq_channel := ch; rq_data := d2;
                      rq_getOlderMsgs := getOlderMsgs; rq_isRetry := true |} in
         requestChannel ch getOlderMsgs false w = (Ret tt, w1)
         ∧ outbox w1 = (outbox w ++ [p1])%list
         ∧ _channels w1 !! ch = Some st1
         ∧ d1 = post_data_for (viewport w) ch st1 getOlderMsgs
         ∧ (genPostData (AStr ch) getOlderMsgs (set_requestRunning ch true w)).1 = Ret d1
         ∧ onError p1 w1 = (Ret tt, w2)
         ∧ outbox w2 = (outbox w ++ [p1; p2])%list
         ∧ _channels w2 !! ch = Some st2
         ∧ d2 = post_data_for (viewport w1) ch st2 getOlderMsgs
         ∧ (genPostData (AStr ch) getOlderMsgs (set_requestRunning ch true w1)).1 = Ret d2
         ∧ onError p2 w2 = (Ret tt, w3)
         ∧ w3 = set_requestRunning ch false w2
         ∧ outbox w3 = (outbox w ++ [p1; p2])%list
         ∧ _requestRunning w3 !! ch = Some false
         ∧ log w3 = log w2).
Proof.
  split; [apply requestChannel_in_flight|].
  split.
  { intros p Hr. eexists. split; [by apply onError_retry|].
    split; [done|]. split; [done|]. cbn. split; [by rewrite lookup_insert_eq|].
    split; [|done]. intros other Hne. by rewrite lookup_insert_ne. }
  split.
  { intros p Hr Hidle Hst. unfold onError. rewrite Hr.
    destruct (requestChannel_issues_fresh w (rq_channel p) (rq_getOlderMsgs p) true)
      as (st & Hst' & Hgen & Htab & Hrun); [by rewrite andb_false_r|done|done|].
    cbv zeta in Hst', Hgen, Htab, Hrun.
    eexists _, st, _. split; [exact Hrun|]. split; [exact Hgen|]. split; [exact Hst'|].
    split; [done|]. split; [exact Htab|].
    match goal with |- outbox (postAjax ?p' _) = _ =>
      by destruct (issued_fields w (rq_channel p) p') as (-> & _) end. }
  intros Hrun Hidle Hst.
  destruct (requestChannel_issues_fresh w ch getOlderMsgs false)
    as (st1 & Hst1' & Hgen1 & _ & Hrun1); [by rewrite Hrun|done|done|].
  cbv zeta in Hst1', Hgen1, Hrun1.
  set (d1 := post_data_for (viewport w) ch st1 getOlderMsgs) in *.
  set (p1 := {| rq_channel := ch; rq_data := d1;
                rq_getOlderMsgs := getOlderMsgs; rq_isRetry := false |}) in *.
  set (w1 := postAjax p1 _) in *.
  destruct (issued_fields w ch p1) as (Hout1 & _ & Hidle1 & Hst1). fold w1 in Hout1, Hidle1, Hst1.
  destruct (requestChannel_issues_fresh w1 ch getOlderMsgs true)
    as (st2 & Hst2' & Hgen2 & _ & Hrun2); [by rewrite andb_false_r|congruence|by apply Hst1|].
  cbv zeta in Hst2', Hgen2, Hrun2.
  set (d2 := post_data_for (viewport w1) ch st2 getOlderMsgs) in *.
  set (p2 := {| rq_channel := ch; rq_data := d2;
                rq_getOlderMsgs := getOlderMsgs; rq_isRetry := true |}) in *.
  set (w2 := postAjax p2 _) in *.
  destruct (issued_fields w1 ch p2) as (Hout2 & _ & _ & _). fold w2 in Hout2.
  clearbody w1 w2. subst p1 p2.
  exists d1, d2, st1, st2, w1, w2, (set_requestRunning ch false w2). cbn zeta.
  split; [done|]. split; [done|]. split; [done|]. split; [done|]. split; [done|].
  split; [done|].
  split; [by rewrite Hout2, Hout1, <- app_assoc|].
  split; [done|]. split; [done|]. split; [done|].
  split; [done|]. split; [done|].
  split; [cbn; by rewrite Hout2, Hout1, <- app_assoc|].
  split; [cbn; by rewrite lookup_insert_eq|done].
Qed.

(** *** The renderer and the tab chooser *)

Lemma render_rows_total (d : gmap string StoredMsg) prev vals :
  (∀ g, g ∈ vals → is_Some (lookup_row d g)) →
  ∃ frags, render_rows d prev vals = Ret frags.
Proof.
  revert prev. induction vals as [|g vals IH]; intros prev Hall; [by eexists|].
  cbn. destruct (Hall g) as [[day row] Hg]; [apply elem_of_cons; by left|].
  rewrite Hg. destruct (IH (Some day)) as [frags Hf].
  { intros g' Hg'. apply Hall. apply elem_of_cons. by right. }
  rewrite Hf. by eexists.
Qed.

Lemma lookup_row_member (d : gmap string StoredMsg) g :
  g ∈ dom d → is_Some (lookup_row d g).
Proof.
  intros Hg. apply elem_of_dom in Hg as [m Hm]. unfold lookup_row. rewrite Hm. by eexists.
Qed.

(** C7 (amended).  [chat.chooseTab], given anything that names no channel,
    falls back to the tab [all] and logs the warning, and returns normally
    provided the page is set up: the channel [all] is there and, when it
    renders through [chat.renderChannel], its state exists and lists only
    stored GUIDs.  The stored tab becomes [all] and no channel state
    changes.  [chat.genPostData] has no such fallback: anything but a
    string meets its explicit [throw] of an [Error], and a string that
    names no channel, being the id of no entry and the key of no state,
    makes it throw a [TypeError], unless the string names an inherited
    member of the dictionary of states, for which it returns the
    parameters every request starts from. *)
Theorem chooseTab_falls_back (w : World B) :
  (∀ (tab : JsArg) (channel : ChannelDesc),
     forallb (λ entry, negb (str_strict_eq (ch_id entry) tab)) (channels w) = true →
     getChannelDesc (Some "all") w = Some channel →
     (render channel = true →
        ∃ st, _channels w !! "all" = Some st ∧ ∀ g, g ∈ guids st → g ∈ dom (data st)) →
     ∃ w', chooseTab tab w = (Ret tt, w')
       ∧ stored_tab w' = Some "all"
       ∧ log w' = (log w ++ [LogWarn (invalid_tab_warning tab w)])%list
       ∧ active w' = (if bool_decide (is_Some (containers w !! container_id "all"))
                      then Some "all" else None)
       ∧ _channels w' = _channels w)
  ∧ (∀ (channel : JsArg) (getOlderMsgs : bool),
       is_string channel = false →
       genPostData channel getOlderMsgs w
       = (Throw (JsError "API changed: isFaction flag now a channel string - all, faction, alerts"),
          w))
  ∧ (∀ (ch : string) (getOlderMsgs : bool),
       (∀ entry, entry ∈ channels w → ch_id entry ≠ ch) →
       _channels w !! ch = None →
       (genPostData (AStr ch) getOlderMsgs w).1
       = if bool_decide (ch ∈ object_prototype_members)
         then Ret (base_post_data (viewport w) ch)
         else Throw (TypeError "storageHash is undefined")).
Proof.
  split; [|split].
  - intros tab channel Hnone Hall Hready.
    unfold chooseTab, bind, get, modify, ret, when. cbn -[renderChannel]. rewrite Hnone.
    cbn -[renderChannel]. rewrite Hall.
    destruct (render channel) eqn:Hrender.
    + destruct Hready as (st & Hst & Hguids); [done|].
      unfold renderChannel, bind, get. cbn -[renderData]. rewrite Hst.
      unfold renderData, bind, get, modify, throw. cbn -[render_rows].
      match goal with |- context [if ?c then _ else _] => destruct c end.
      * eexists. split; [reflexivity|]. by cbn.
      * destruct (render_rows_total (data st) None (guids st)) as [frags ->].
        { intros g Hg. by apply lookup_row_member, Hguids. }
        eexists. split; [reflexivity|]. by cbn.
    + eexists. split; [reflexivity|]. by cbn.
  - intros channel getOlderMsgs Hs. by destruct channel.
  - intros ch getOlderMsgs Hno Hst. rewrite genPostData_run. cbn [fst].
    assert (_channels (after_bounding_box_check w) !! ch = None) as ->; [|done].
    unfold after_bounding_box_check. cbv zeta.
    destruct (same_bounding_box _ _); [done|].
    cbn [_channels set_oldBBox]. rewrite foldl_clear_if_local_states.
    rewrite existsb_local_false; [done|].
    intros entry Hin Hid. by destruct (Hno entry Hin).
Qed.

End PageFacts.

(** ** C. The markup transformation *)

Section HeapFacts.
Local Open Scope nat_scope.
Local Arguments Nat.mul : simpl never.

Lemma length_cloned_objs n vs : length (cloned_objs n vs) = 2 * length vs.
Proof. revert n. induction vs as [|v vs IH]; intros n; cbn; [done|]. rewrite IH. lia. Qed.

Lemma cloned_objs_lookup n vs i v :
  vs !! i = Some v →
  cloned_objs n vs !! (2 * i) = Some (HData (ent_data v))
  ∧ cloned_objs n vs !! S (2 * i) = Some (HEntity (ent_type v) (dat_loc n i)).
Proof.
  revert n i. induction vs as [|v' vs IH]; intros n i Hi; [done|].
  destruct i as [|i]; cbn in Hi.
  - injection Hi as ->. unfold dat_loc. change (2 * 0) with 0. cbn.
    split; [done|]. do 2 f_equal. lia.
  - destruct (IH (S (S n)) i Hi) as [Hd He].
    replace (2 * S i) with (S (S (2 * i))) by lia. cbn.
    split; [exact Hd|]. etrans; [exact He|]. unfold dat_loc. do 2 f_equal. lia.
Qed.

Lemma cloned_objs_insert n vs i v d :
  vs !! i = Some v →
  <[2 * i := HData d]> (cloned_objs n vs)
  = cloned_objs n (<[i := {| ent_type := ent_type v; ent_data := d |}]> vs).
Proof.
  revert n i. induction vs as [|v' vs IH]; intros n i Hi; [done|].
  destruct i as [|i]; cbn in Hi.
  - by injection Hi as ->.
  - replace (2 * S i) with (S (S (2 * i))) by lia. cbn.
    do 2 f_equal. by apply IH.
Qed.

Lemma copy_heap_old h vs idxs l :
  l < length h → copy_heap h vs idxs !! l = h !! l.
Proof. intros Hl. unfold copy_heap. by rewrite lookup_app_l. Qed.

Lemma copy_heap_array h vs idxs :
  copy_heap h vs idxs !! copy_ref h vs = Some (HArray (ent_loc (length h) <$> idxs)).
Proof.
  unfold copy_heap, copy_ref.
  rewrite lookup_app_r by lia. rewrite lookup_app_r by (rewrite length_cloned_objs; lia).
  rewrite length_cloned_objs.
  replace (length h + 2 * length vs - length h - 2 * length vs) with 0 by lia. done.
Qed.

Lemma copy_heap_data h vs idxs i v :
  vs !! i = Some v →
  copy_heap h vs idxs !! dat_loc (length h) i = Some (HData (ent_data v)).
Proof.
  intros Hi. unfold copy_heap, dat_loc.
  rewrite lookup_app_r by lia.
  replace (length h + 2 * i - length h) with (2 * i) by lia.
  apply lookup_lt_Some in Hi as Hlt.
  rewrite lookup_app_l by (rewrite length_cloned_objs; lia).
  by apply cloned_objs_lookup.
Qed.

Lemma copy_heap_entity h vs idxs i v :
  vs !! i = Some v →
  copy_heap h vs idxs !! ent_loc (length h) i
  = Some (HEntity (ent_type v) (dat_loc (length h) i)).
Proof.
  intros Hi. unfold copy_heap, ent_loc.
  rewrite lookup_app_r by lia.
  replace (S (length h + 2 * i) - length h) with (S (2 * i)) by lia.
  apply lookup_lt_Some in Hi as Hlt.
  rewrite lookup_app_l by (rewrite length_cloned_objs; lia).
  by apply cloned_objs_lookup.
Qed.

Lemma copy_heap_entity_value h vs idxs i v :
  vs !! i = Some v → entity_value (copy_heap h vs idxs) (ent_loc (length h) i) = Some v.
Proof.
  intros Hi. unfold entity_value.
  rewrite (copy_heap_entity _ _ _ _ _ Hi), (copy_heap_data _ _ _ _ _ Hi). by destruct v.
Qed.

(** The array of the copy stands for the entities it numbers. *)
Lemma copy_heap_value h vs idxs cur :
  Forall2 (λ i v, vs !! i = Some v) idxs cur →
  markup_value (copy_heap h vs idxs) (copy_ref h vs) = Some cur.
Proof.
  intros Hcur. unfold markup_value. rewrite copy_heap_array.
  apply mapM_Some_2, Forall2_fmap_l.
  eapply Forall2_impl; [exact Hcur|]. intros i v Hi. by apply copy_heap_entity_value.
Qed.

Lemma copy_heap_write_data h vs idxs i v d :
  vs !! i = Some v →
  <[dat_loc (length h) i := HData d]> (copy_heap h vs idxs)
  = copy_heap h (<[i := {| ent_type := ent_type v; ent_data := d |}]> vs) idxs.
Proof.
  intros Hi. unfold copy_heap, dat_loc.
  rewrite insert_app_r. apply lookup_lt_Some in Hi as Hlt.
  rewrite insert_app_l by (rewrite length_cloned_objs; lia).
  by rewrite (cloned_objs_insert _ _ _ _ _ Hi).
Qed.

Lemma copy_heap_write_array h vs idxs idxs' :
  <[copy_ref h vs := HArray (ent_loc (length h) <$> idxs')]> (copy_heap h vs idxs)
  = copy_heap h vs idxs'.
Proof.
  unfold copy_heap, copy_ref.
  rewrite insert_app_r.
  rewrite <- (length_cloned_objs (length h) vs) at 1.
  rewrite <- (Nat.add_0_r (length (cloned_objs _ _))) at 1.
  by rewrite insert_app_r.
Qed.

(** *** The primitives on a copy *)

Lemma read_array_copy h vs idxs :
  read_array (copy_ref h vs) (copy_heap h vs idxs)
  = (Ret (ent_loc (length h) <$> idxs), copy_heap h vs idxs).
Proof. unfold read_array. by rewrite copy_heap_array. Qed.

Lemma entity_at_copy h vs idxs k i v :
  idxs !! k = Some i → vs !! i = Some v →
  entity_at (copy_ref h vs) k (copy_heap h vs idxs)
  = (Ret (ent_type v, dat_loc (length h) i), copy_heap h vs idxs).
Proof.
  intros Hk Hi. unfold entity_at, bind. rewrite read_array_copy.
  rewrite list_lookup_fmap, Hk. cbn. unfold read_entity.
  by rewrite (copy_heap_entity _ _ _ _ _ Hi).
Qed.

Lemma read_data_copy h vs idxs i v :
  vs !! i = Some v →
  read_data (dat_loc (length h) i) (copy_heap h vs idxs)
  = (Ret (ent_data v), copy_heap h vs idxs).
Proof. intros Hi. unfold read_data. by rewrite (copy_heap_data _ _ _ _ _ Hi). Qed.

Lemma splice_copy h vs idxs start count :
  splice (copy_ref h vs) start count (copy_heap h vs idxs)
  = (Ret tt, copy_heap h vs (spliced start count idxs)).
Proof.
  unfold splice, bind. rewrite read_array_copy. unfold write, modify.
  f_equal. unfold spliced. rewrite <- fmap_take, <- fmap_drop, <- fmap_app.
  apply copy_heap_write_array.
Qed.

Lemma spliced_Forall2 {A C} (R : A → C → Prop) start count l k :
  Forall2 R l k → Forall2 R (spliced start count l) (spliced start count k).
Proof.
  intros Hlk. unfold spliced. apply Forall2_app; [by apply Forall2_take|by apply Forall2_drop].
Qed.

Lemma seq_lookup_Forall2 {A} (l : list A) :
  Forall2 (λ i v, l !! i = Some v) (seq 0 (length l)) l.
Proof.
  apply Forall2_same_length_lookup_2; [by rewrite length_seq|].
  intros k i v Hi Hv. apply lookup_seq in Hi as [-> _]. done.
Qed.

(** *** The copy *)

Lemma entity_value_extend h ext l v :
  entity_value h l = Some v → entity_value (h ++ ext) l = Some v.
Proof.
  unfold entity_value. intros Hv.
  destruct (h !! l) as [[|ty obj|]|] eqn:Hl; try done.
  destruct (h !! obj) as [[| |d]|] eqn:Ho; try done.
  by rewrite (lookup_app_l_Some _ _ _ _ Hl), (lookup_app_l_Some _ _ _ _ Ho).
Qed.

Lemma markup_value_extend h ext l v :
  markup_value h l = Some v → markup_value (h ++ ext) l = Some v.
Proof.
  unfold markup_value. intros Hv.
  destruct (h !! l) as [[elems| |]|] eqn:Hl; try done.
  rewrite (lookup_app_l_Some _ _ _ _ Hl).
  apply mapM_Some in Hv. apply mapM_Some.
  eapply Forall2_impl; [exact Hv|]. intros. by apply entity_value_extend.
Qed.

Lemma cloned_locs_seq n vs : cloned_locs n vs = ent_loc n <$> seq 0 (length vs).
Proof.
  revert n. induction vs as [|v vs IH]; intros n; [done|].
  cbn [cloned_locs length seq fmap list_fmap]. f_equal.
  - unfold ent_loc. lia.
  - rewrite IH, <- fmap_S_seq, <- list_fmap_compose.
    apply list_fmap_ext. intros _ i _. unfold ent_loc. cbn. lia.
Qed.

Lemma clone_entities_run elems h vs :
  Forall2 (λ l v, entity_value h l = Some v) elems vs →
  clone_entities elems h
  = (Ret (cloned_locs (length h) vs), (h ++ cloned_objs (length h) vs)%list).
Proof.
  intros Hvs. revert h Hvs. revert vs.
  induction elems as [|l elems IH]; intros vs h Hvs.
  - apply Forall2_nil_inv_l in Hvs as ->. cbn. by rewrite app_nil_r.
  - apply Forall2_cons_inv_l in Hvs as (v & vs' & Hv & Hvs & ->).
    cbn [clone_entities]. unfold bind at 1.
    assert (clone_entity l h
            = (Ret (S (length h)),
               (h ++ [HData (ent_data v); HEntity (ent_type v) (length h)])%list)) as ->.
    { unfold clone_entity, bind, read_entity, read_data, alloc.
      unfold entity_value in Hv.
      destruct (h !! l) as [[|ty obj|]|] eqn:Hl; try done.
      destruct (h !! obj) as [[| |d]|] eqn:Ho; try done.
      injection Hv as <-. cbn. rewrite Ho. cbn.
      rewrite length_app. cbn. rewrite Nat.add_1_r, <- app_assoc. done. }
    unfold bind at 1. rewrite (IH vs').
    + unfold ret. cbn. rewrite length_app. cbn.
      rewrite Nat.add_comm. cbn. by rewrite <- app_assoc.
    + eapply Forall2_impl; [exact Hvs|]. intros. by apply entity_value_extend.
Qed.

Lemma json_clone_run h markup v :
  markup_value h markup = Some v →
  json_clone markup h = (Ret (copy_ref h v), copy_heap h v (seq 0 (length v))).
Proof.
  unfold markup_value. intros Hv.
  destruct (h !! markup) as [[elems| |]|] eqn:Hm; try done.
  apply mapM_Some in Hv.
  unfold json_clone, bind, read_array. rewrite Hm.
  rewrite (clone_entities_run _ _ _ Hv). unfold alloc.
  rewrite length_app, length_cloned_objs, cloned_locs_seq.
  unfold copy_ref, copy_heap. by rewrite <- app_assoc.
Qed.

(** *** The three steps on a copy *)

Lemma numbered_lookup vs idxs cur k v :
  numbered vs idxs cur → cur !! k = Some v → ∃ i, idxs !! k = Some i ∧ vs !! i = Some v.
Proof. intros Hn Hk. by destruct (Forall2_lookup_r _ _ _ _ _ Hn Hk) as (i & ? & ?); eauto. Qed.

Lemma collapse_faction_step_copy h vs :
  ∃ vs' idxs',
    collapse_faction_step (copy_ref h vs) (copy_heap h vs (seq 0 (length vs)))
    = (Ret tt, copy_heap h vs' idxs')
    ∧ length vs' = length vs
    ∧ numbered vs' idxs' (collapse_faction vs).
Proof.
  pose proof (seq_lookup_Forall2 vs) as Hn.
  unfold collapse_faction_step, collapse_faction, bind, when.
  rewrite read_array_copy, length_fmap, length_seq.
  destruct (4 <? length vs) eqn:Hlen; cycle 1.
  { exists vs, (seq 0 (length vs)). done. }
  apply Nat.ltb_lt in Hlen.
  destruct (lookup_lt_is_Some_2 vs 3) as [e3 He3]; [lia|].
  destruct (lookup_lt_is_Some_2 vs 4) as [e4 He4]; [lia|].
  rewrite He3, He4.
  destruct (numbered_lookup _ _ _ _ _ Hn He3) as (i3 & Hi3 & Hv3).
  destruct (numbered_lookup _ _ _ _ _ Hn He4) as (i4 & Hi4 & Hv4).
  rewrite (entity_at_copy _ _ _ _ _ _ Hi3 Hv3), (entity_at_copy _ _ _ _ _ _ Hi4 Hv4).
  cbn [fst snd]. rewrite (read_data_copy _ _ _ _ _ Hv4).
  destruct (is_faction_link _ _ _); cycle 1.
  { exists vs, (seq 0 (length vs)). done. }
  rewrite (read_data_copy _ _ _ _ _ Hv3).
  unfold write, modify. rewrite (copy_heap_write_data _ _ _ _ _ _ Hv4).
  apply lookup_seq in Hi4 as [-> _]. cbn [Nat.add].
  set (vs' := <[4 := _]> vs).
  assert (length vs' = length vs) as Hlen' by apply length_insert.
  replace (copy_ref h vs) with (copy_ref h vs') by (unfold copy_ref; by rewrite Hlen').
  rewrite splice_copy. exists vs', (spliced 3 1 (seq 0 (length vs))).
  split; [done|]. split; [done|].
  apply spliced_Forall2. rewrite <- Hlen'. apply seq_lookup_Forall2.
Qed.

Lemma skip_agent_step_copy h vs idxs cur :
  numbered vs idxs cur →
  ∃ idxs',
    skip_agent_step (copy_ref h vs) (copy_heap h vs idxs) = (Ret tt, copy_heap h vs idxs')
    ∧ numbered vs idxs' (skip_agent cur).
Proof.
  intros Hn. pose proof (Forall2_length _ _ _ Hn) as Hlen.
  unfold skip_agent_step, skip_agent, bind, when.
  rewrite read_array_copy, length_fmap, Hlen.
  destruct (1 <? length cur) eqn:Hl; cycle 1.
  { exists idxs. done. }
  apply Nat.ltb_lt in Hl.
  destruct (lookup_lt_is_Some_2 cur 0) as [e0 He0]; [lia|].
  destruct (lookup_lt_is_Some_2 cur 1) as [e1 He1]; [lia|].
  rewrite He0, He1.
  destruct (numbered_lookup _ _ _ _ _ Hn He0) as (i0 & Hi0 & Hv0).
  destruct (numbered_lookup _ _ _ _ _ Hn He1) as (i1 & Hi1 & Hv1).
  rewrite (entity_at_copy _ _ _ _ _ _ Hi0 Hv0). cbn [fst snd].
  rewrite (read_data_copy _ _ _ _ _ Hv0), (entity_at_copy _ _ _ _ _ _ Hi1 Hv1).
  cbn [fst snd].
  destruct (is_agent_prefix _ _ _).
  - rewrite splice_copy. eexists. split; [done|]. by apply spliced_Forall2.
  - exists idxs. done.
Qed.

Lemma skip_faction_agent_step_copy h vs idxs cur :
  numbered vs idxs cur →
  ∃ idxs',
    skip_faction_agent_step (copy_ref h vs) (copy_heap h vs idxs)
    = (Ret tt, copy_heap h vs idxs')
    ∧ numbered vs idxs' (skip_faction_agent cur).
Proof.
  intros Hn. pose proof (Forall2_length _ _ _ Hn) as Hlen.
  unfold skip_faction_agent_step, skip_faction_agent, bind, when.
  rewrite read_array_copy, length_fmap, Hlen.
  destruct (2 <? length cur) eqn:Hl; cycle 1.
  { exists idxs. done. }
  apply Nat.ltb_lt in Hl.
  destruct (lookup_lt_is_Some_2 cur 0) as [e0 He0]; [lia|].
  destruct (lookup_lt_is_Some_2 cur 1) as [e1 He1]; [lia|].
  destruct (lookup_lt_is_Some_2 cur 2) as [e2 He2]; [lia|].
  rewrite He0, He1, He2.
  destruct (numbered_lookup _ _ _ _ _ Hn He0) as (i0 & Hi0 & Hv0).
  destruct (numbered_lookup _ _ _ _ _ Hn He1) as (i1 & Hi1 & Hv1).
  destruct (numbered_lookup _ _ _ _ _ Hn He2) as (i2 & Hi2 & Hv2).
  rewrite (entity_at_copy _ _ _ _ _ _ Hi0 Hv0), (entity_at_copy _ _ _ _ _ _ Hi1 Hv1).
  cbn [fst snd].
  rewrite (read_data_copy _ _ _ _ _ Hv1), (entity_at_copy _ _ _ _ _ _ Hi2 Hv2).
  cbn [fst snd].
  destruct (is_faction_agent_prefix _ _ _ _).
  - rewrite splice_copy. eexists. split; [done|]. by apply spliced_Forall2.
  - exists idxs. done.
Qed.

(** Everything the array of a copy reaches was allocated by the copy. *)
Lemma copy_heap_reachable h vs idxs cur :
  numbered vs idxs cur →
  Forall (λ l, length h ≤ l) (reachable_locs (copy_heap h vs idxs) (copy_ref h vs)).
Proof.
  intros Hn. unfold reachable_locs. rewrite copy_heap_array.
  apply Forall_cons. split; [unfold copy_ref; lia|].
  apply Forall_flat_map, Forall_fmap, Forall_forall. intros i Hi. cbn.
  apply list_elem_of_lookup in Hi as [k Hk].
  destruct (Forall2_lookup_l _ _ _ _ _ Hn Hk) as (v & _ & Hv).
  rewrite (copy_heap_entity _ _ _ _ _ Hv).
  repeat apply Forall_cons_2; [unfold ent_loc; lia|unfold dat_loc; lia|done].
Qed.

(** C10.  [transformMessage] leaves its argument alone: called on a markup
    array that stands for the value [v], it returns normally; the heap
    afterwards is the heap before with new objects appended, so every
    object that existed keeps its contents and the argument still stands
    for [v]; the array returned, its entity arrays and their data objects
    are all among the new objects (a deep copy); and the array returned
    stands for [transformMessage_value v], whether or not a FACTION entity
    was folded into the TEXT entity after it or a leading prefix was
    dropped. *)
Theorem transformMessage_leaves_argument (h : Heap) (markup : loc) (v : list Entity) :
  markup_value h markup = Some v →
  ∃ newMarkup ext,
    transformMessage markup h = (Ret newMarkup, (h ++ ext)%list)
    ∧ (∀ l, l < length h → (h ++ ext)%list !! l = h !! l)
    ∧ markup_value (h ++ ext) markup = Some v
    ∧ Forall (λ l, length h ≤ l) (reachable_locs (h ++ ext) newMarkup)
    ∧ markup_value (h ++ ext) newMarkup = Some (transformMessage_value v).
Proof.
  intros Hv. unfold transformMessage, bind at 1.
  rewrite (json_clone_run _ _ _ Hv).
  destruct (collapse_faction_step_copy h v) as (vs1 & idxs1 & Hrun1 & Hlen1 & Hn1).
  unfold bind at 1. rewrite Hrun1.
  assert (copy_ref h v = copy_ref h vs1) as Href by (unfold copy_ref; by rewrite Hlen1).
  rewrite Href.
  destruct (skip_agent_step_copy h vs1 idxs1 _ Hn1) as (idxs2 & Hrun2 & Hn2).
  unfold bind at 1. rewrite Hrun2.
  destruct (skip_faction_agent_step_copy h vs1 idxs2 _ Hn2) as (idxs3 & Hrun3 & Hn3).
  unfold bind at 1. rewrite Hrun3. unfold ret.
  exists (copy_ref h vs1), (cloned_objs (length h) vs1 ++ [HArray (ent_loc (length h) <$> idxs3)])%list.
  split; [done|].
  split; [intros l Hl; by rewrite lookup_app_l|].
  split; [by apply markup_value_extend|].
  split; [by apply (copy_heap_reachable h vs1 idxs3 _ Hn3)|].
  by apply (copy_heap_value h vs1 idxs3 _ Hn3).
Qed.

End HeapFacts.

(** ** D. The renderer *)

Section RendererFacts.
Context {B : Type} `{LatLngBounds B} `{HostPage}.

Lemma render_rows_display (d : gmap string StoredMsg) order msgs prev :
  (∀ t, toLocaleDateString t ≠ "") →
  match prev with Some p => p ≠ "" | None => True end →
  Forall2 (λ g m, d !! g = Some m) order msgs →
  render_rows d prev order = Ret (spec_display_sequence prev msgs).
Proof.
  intros Hday Hprev Hom. revert prev Hprev.
  induction Hom as [|g m order msgs Hg Hom IH]; intros prev Hprev; [done|].
  cbn. unfold lookup_row. rewrite Hg.
  rewrite (IH (Some (toLocaleDateString (m_time m)))) by apply Hday.
  do 2 f_equal. unfold day_changed. destruct prev as [p|]; [|done].
  destruct (String.eqb_spec p ""); [done|]. cbn.
  by destruct (String.eqb p _).
Qed.

Lemma rows_of_display prev msgs : rows_of (spec_display_sequence prev msgs) = m_html <$> msgs.
Proof.
  revert prev. induction msgs as [|m msgs IH]; intros prev; [done|].
  cbn. unfold rows_of in *. rewrite omap_app. cbn. rewrite IH.
  destruct prev as [p|]; [|done]. by destruct (String.eqb p _).
Qed.

(** C8.  Given a messages map and an explicit order whose GUIDs are all
    stored, the loop of [chat.renderData] emits exactly the display
    sequence described for the renderer: the rows of the messages in the
    order given, whatever their timestamps, with a divider before a message
    exactly when its day differs from the day of the message before it and
    none before the first.  For three messages of which the first two share
    a day and the third falls on another, that is the two rows, one
    divider, and the third row.  A visible container receives this
    sequence between the table tags.  (The day strings of the host are
    never empty.) *)
Theorem renderData_in_given_order (d : gmap string StoredMsg) (order : list string)
    (msgs : list StoredMsg) :
  (∀ t, toLocaleDateString t ≠ "") →
  Forall2 (λ g m, d !! g = Some m) order msgs →
  render_rows d None order = Ret (spec_display_sequence None msgs)
  ∧ rows_of (spec_display_sequence None msgs) = m_html <$> msgs
  ∧ head (spec_display_sequence None msgs) = (λ m, Row (m_html m)) <$> head msgs
  ∧ (∀ m1 m2 m3, msgs = [m1; m2; m3] →
       toLocaleDateString (m_time m1) = toLocaleDateString (m_time m2) →
       toLocaleDateString (m_time m2) ≠ toLocaleDateString (m_time m3) →
       spec_display_sequence None msgs
       = [Row (m_html m1); Row (m_html m2);
          Divider (toLocaleDateString (m_time m3)); Row (m_html m3)])
  ∧ (∀ (w : World B) element likelyWereOldMsgs,
       is_hidden element w = false →
       renderData d element likelyWereOldMsgs (Some order) w
       = (Ret tt,
          set_html element
            ("<table>"
             +:+ String.concat "" (fragment_html <$> spec_display_sequence None msgs)
             +:+ "</table>") w)).
Proof.
  intros Hday Hom.
  pose proof (render_rows_display d order msgs None Hday I Hom) as Hrun.
  split; [done|]. split; [apply rows_of_display|].
  split; [by destruct msgs|]. split.
  - intros m1 m2 m3 -> H12 H23. cbn. rewrite H12, String.eqb_refl.
    by destruct (String.eqb_spec (toLocaleDateString (m_time m2))
                                 (toLocaleDateString (m_time m3))).
  - intros w element likely Hvis.
    unfold renderData, bind, get, modify. cbn -[render_rows].
    by rewrite Hvis, Hrun.
Qed.

End RendererFacts.

(** ** E. The claims about the merger *)

Section MergerClaims.
Context `{HostPage}.

(** C1 (amended).  Merging a batch a second time, with the same flags,
    changes nothing: messages, order and both watermarks are those of the
    first merge.  A batch whose GUIDs are all members of the messages map
    already leaves the messages and the order as they are; the watermarks
    are then the ones [chat.updateOldNewHash] computes from the ends of the
    batch. *)
Theorem merge_idempotent (s : ChannelState) (batch : list RawMsg)
    (isOlderMsgs isAscendingOrder : bool) :
  writeDataToHash batch (writeDataToHash batch s isOlderMsgs isAscendingOrder)
                  isOlderMsgs isAscendingOrder
  = writeDataToHash batch s isOlderMsgs isAscendingOrder
  ∧ ((∀ json, json ∈ batch → js_in (raw_guid json) (data s) = true) →
       data (writeDataToHash batch s isOlderMsgs isAscendingOrder) = data s
       ∧ guids (writeDataToHash batch s isOlderMsgs isAscendingOrder) = guids s
       ∧ writeDataToHash batch s isOlderMsgs isAscendingOrder
         = updateOldNewHash batch s isOlderMsgs isAscendingOrder).
Proof.
  split; [apply writeDataToHash_twice|].
  intros Hall. rewrite (writeDataToHash_all_present _ _ _ _ Hall).
  by rewrite updateOldNewHash_data, updateOldNewHash_guids.
Qed.

(** The watermarks bound what is stored when the merger is used as its
    documentation says.  After any sequence of merges into a freshly
    initialised channel, with any flags, in which every batch is ordered
    the way its [isAscendingOrder] flag says and carries no timestamp [-1],
    [oldestTimestamp] is at most, and [newestTimestamp] at least, every
    timestamp stored in the messages map. *)
Theorem watermarks_bound_ordered_batches (ms : list Merge) :
  Forall well_formed_merge ms →
  ∀ g m, data (run_merges ms) !! g = Some m →
    oldestTimestamp (run_merges ms) ≤ m_time m ≤ newestTimestamp (run_merges ms).
Proof.
  intros Hwf g m Hm.
  assert (marks_inv (run_merges ms)) as Hinv.
  { apply foldl_apply_merge_marks_inv; [done|]. intros g' m' Hm'. done. }
  by destruct (Hinv g m Hm) as (_ & _ & ?).
Qed.

(** C3.  After any sequence of merges into a freshly initialised channel,
    with any flags, the order list holds exactly the keys of the messages
    map, each once. *)
Theorem order_integrity_after_merges (ms : list Merge) :
  NoDup (guids (run_merges ms))
  ∧ ∀ g, g ∈ guids (run_merges ms) ↔ g ∈ dom (data (run_merges ms)).
Proof.
  apply (foldl_apply_merge_order_integrity ms initChannelState).
  apply initChannelState_order_integrity.
Qed.

End MergerClaims.

(** ** F. Instances and counterexamples *)

(** Two records that share a timestamp, then an older-messages batch that
    repeats one of them: nothing is stored, yet [oldestGUID] moves. *)
Lemma merge_present_batch_moves_watermark :
  let s := writeDataToHash [raw "g2" 100; raw "g1" 100] initChannelState false false in
  let batch := [raw "g2" 100] in
  (∀ json, json ∈ batch → js_in (raw_guid json) (data s) = true)
  ∧ oldestGUID s = Some "g1"
  ∧ oldestGUID (writeDataToHash batch s true false) = Some "g2"
  ∧ writeDataToHash batch s true false ≠ s.
Proof.
  cbv zeta. split.
  { intros json Hin. apply list_elem_of_singleton in Hin as ->. by vm_compute. }
  split; [by vm_compute|]. split; [by vm_compute|].
  intros Heq. apply (f_equal oldestGUID) in Heq. vm_compute in Heq. discriminate.
Qed.

Lemma merge_idempotent_witness :
  let s := writeDataToHash [raw "g1" 100; raw "g2" 200] initChannelState false true in
  let batch := [raw "g1" 100; raw "g2" 200] in
  (∀ json, json ∈ batch → js_in (raw_guid json) (data s) = true)
  ∧ writeDataToHash batch s false true = s
  ∧ guids (writeDataToHash batch s false true) = guids s.
Proof.
  cbv zeta.
  assert (∀ json, json ∈ [raw "g1" 100; raw "g2" 200] →
            js_in (raw_guid json)
              (data (writeDataToHash [raw "g1" 100; raw "g2" 200] initChannelState false true))
            = true) as Hall.
  { intros json Hin. apply elem_of_cons in Hin as [->|Hin]; [by vm_compute|].
    apply list_elem_of_singleton in Hin as ->. by vm_compute. }
  split; [exact Hall|]. split.
  - exact (proj1 (merge_idempotent initChannelState [raw "g1" 100; raw "g2" 200] false true)).
  - exact (proj1 (proj2 (proj2 (merge_idempotent _ [raw "g1" 100; raw "g2" 200] false true)
                           Hall))).
Defined.

(** A batch in ascending order merged as if it were descending: the
    message [g1] of time 100 is stored under an [oldestTimestamp] of 200. *)
Lemma watermarks_misordered_batch :
  let s := run_merges [ {| mg_batch := [raw "g1" 100; raw "g2" 200];
                           mg_isOlderMsgs := false; mg_isAscendingOrder := false |} ] in
  m_time <$> data s !! "g1" = Some 100
  ∧ oldestTimestamp s = 200
  ∧ newestTimestamp s = 100
  ∧ ¬ watermarks_bound s.
Proof.
  cbv zeta. split; [by vm_compute|]. split; [by vm_compute|]. split; [by vm_compute|].
  intros Hb.
  destruct (data (run_merges [ {| mg_batch := [raw "g1" 100; raw "g2" 200];
                                  mg_isOlderMsgs := false; mg_isAscendingOrder := false |} ])
            !! "g1") as [m|] eqn:Hm; [|by vm_compute in Hm].
  pose proof (Hb "g1" m Hm) as [Hlo _].
  assert (m_time m = 100) as Ht.
  { vm_compute in Hm. by injection Hm as <-. }
  rewrite Ht in Hlo. vm_compute in Hlo. by apply Hlo.
Qed.

Lemma watermarks_bound_witness :
  Forall well_formed_merge sample_merges
  ∧ ∀ g m, data (run_merges sample_merges) !! g = Some m →
      oldestTimestamp (run_merges sample_merges) ≤ m_time m
      ≤ newestTimestamp (run_merges sample_merges).
Proof.
  assert (Forall well_formed_merge sample_merges) as Hwf.
  { repeat constructor; cbn; lia. }
  split; [exact Hwf|]. exact (watermarks_bound_ordered_batches sample_merges Hwf).
Defined.

(** C2.  The code at the failing input.  The channel [all] holds [g1] and
    [g2], within its watermarks; the request for newer messages asks for
    ascending order, and the response brings [g3] and [g4], oldest first.
    [chat.handleChannel] calls [chat.writeDataToHash] with five arguments,
    so that [isAscendingOrder] receives [olderMsgs], false here: the merger
    takes the first record for the newest, and [newestTimestamp] becomes
    300 while [g4] is stored with the timestamp 400. *)
Lemma handleChannel_newer_page_breaks_watermarks :
  let p := {| rq_channel := "all"; rq_data := post_data_for unit_box "all" synced_state false;
              rq_getOlderMsgs := false; rq_isRetry := false |} in
  let w := (onSuccess p (Some [raw "g3" 300; raw "g4" 400]) synced_world).2 in
  _channels synced_world !! "all" = Some synced_state
  ∧ watermarks_bound synced_state
  ∧ ascendingTimestampOrder (rq_data p) = Some true
  ∧ ∃ st, _channels w !! "all" = Some st
      ∧ newestTimestamp st = 300
      ∧ m_time <$> data st !! "g4" = Some 400
      ∧ ¬ watermarks_bound st.
Proof.
  cbv zeta. split; [by vm_compute|]. split; [|split; [by vm_compute|]].
  - change synced_state
      with (run_merges [ {| mg_batch := [raw "g1" 100; raw "g2" 200];
                            mg_isOlderMsgs := false; mg_isAscendingOrder := true |} ]).
    intros g m. apply watermarks_bound_ordered_batches. repeat constructor; cbn; lia.
  - set (w := (onSuccess _ _ synced_world).2).
    destruct (_channels w !! "all") as [st|] eqn:Hst; [|by vm_compute in Hst].
    assert (newestTimestamp st = 300) as Hnew.
    { assert (newestTimestamp <$> _channels w !! "all" = Some 300) as Hn by by vm_compute.
      rewrite Hst in Hn. by injection Hn. }
    assert (m_time <$> data st !! "g4" = Some 400) as Hg4.
    { assert ((_channels w !! "all") ≫= (λ st, m_time <$> data st !! "g4") = Some 400) as Hn
        by by vm_compute.
      by rewrite Hst in Hn. }
    exists st. split; [done|]. split; [done|]. split; [done|].
    intros Hb. destruct (data st !! "g4") as [m|] eqn:Hm; [|done].
    cbn in Hg4. injection Hg4 as Ht.
    pose proof (Hb "g4" m Hm) as [_ Hhi]. rewrite Ht, Hnew in Hhi. lia.
Qed.

Lemma genPostData_rejects_non_string_witness :
  is_string (ABool true) = false
  ∧ genPostData (ABool true) false sample_world
    = (Throw (JsError "API changed: isFaction flag now a channel string - all, faction, alerts"),
       sample_world).
Proof.
  split; [reflexivity|].
  apply (genPostData_rejects_non_string (ABool true) false sample_world). reflexivity.
Defined.

Lemma genPostData_parameters_witness :
  _channels (genPostData (AStr "all") false synced_world).2 !! "all" = Some synced_state
  ∧ ∃ d, (genPostData (AStr "all") false synced_world).1 = Ret d
      ∧ minTimestampMs d = 200
      ∧ plextContinuationGuid d = Some "g2"
      ∧ ascendingTimestampOrder d = Some true.
Proof.
  assert (_channels (genPostData (AStr "all") false synced_world).2 !! "all"
          = Some synced_state) as Hst by (vm_compute; reflexivity).
  split; [exact Hst|].
  destruct (genPostData_parameters synced_world "all" false synced_state Hst)
    as (d & Hd & _ & _ & Hnew & _).
  destruct (Hnew eq_refl) as (Hmin & Hguid & _ & Hasc & _).
  exists d. split; [exact Hd|]. split; [exact Hmin|]. split; [exact Hguid|].
  apply Hasc. vm_compute. reflexivity.
Defined.

Lemma viewport_change_detector_witness :
  contains (pad (1 # 10) far_box) unit_box && contains (pad (1 # 10) unit_box) far_box = false
  ∧ _channels (genPostData (AStr "all") false moved_world).2 !! "all" = Some initChannelState
  ∧ needsClearing <$> containers (genPostData (AStr "all") false moved_world).2 !! "chatall"
    = Some true
  ∧ _oldBBox (genPostData (AStr "all") false moved_world).2 = Some far_box.
Proof.
  assert (contains (pad (1 # 10) far_box) unit_box
          && contains (pad (1 # 10) unit_box) far_box = false) as Hchanged
    by (vm_compute; reflexivity).
  split; [exact Hchanged|].
  pose proof (viewport_change_detector moved_world "all" false) as Hd.
  cbv zeta in Hd.
  change (viewport moved_world) with far_box in Hd.
  change (default far_box (_oldBBox moved_world)) with unit_box in Hd.
  rewrite Hchanged in Hd. destruct Hd as (Hbox & Hlocal & _).
  destruct (Hlocal {| ch_id := "all"; ch_name := "All"; localBounds := true;
                      inputPrompt := Some "broadcast:"; inputClass := Some "public";
                      request := true; render := true |}) as [Hst Hc].
  { apply elem_of_cons. by left. }
  { reflexivity. }
  split; [exact Hst|]. split; [|exact Hbox].
  etrans; [exact (f_equal (fmap needsClearing) Hc)|]. vm_compute. reflexivity.
Defined.

(** A retry that fails logs nothing, and a first attempt that fails while
    the client is idle is not sent again. *)
Lemma retry_failure_is_silent :
  let retry := {| rq_channel := "all"; rq_data := base_post_data unit_box "all";
                  rq_getOlderMsgs := false; rq_isRetry := true |} in
  let attempt := {| rq_channel := "all"; rq_data := base_post_data unit_box "all";
                    rq_getOlderMsgs := false; rq_isRetry := false |} in
  (onError retry sample_world).1 = Ret tt
  ∧ log (onError retry sample_world).2 = log sample_world
  ∧ log sample_world = []
  ∧ (onError attempt (set_isIdle true sample_world)).1 = Ret tt
  ∧ outbox (onError attempt (set_isIdle true sample_world)).2 = [].
Proof. cbv zeta. repeat split; vm_compute; reflexivity. Qed.

Lemma requestChannel_retries_once_witness :
  js_truthy_at "all" (_requestRunning sample_world) = false
  ∧ isIdle sample_world = false
  ∧ is_Some (_channels sample_world !! "all")
  ∧ ∃ d1 d2 w1 w2 w3,
      requestChannel "all" false false sample_world = (Ret tt, w1)
      ∧ (genPostData (AStr "all") false (set_requestRunning "all" true sample_world)).1 = Ret d1
      ∧ onError {| rq_channel := "all"; rq_data := d1;
                   rq_getOlderMsgs := false; rq_isRetry := false |} w1 = (Ret tt, w2)
      ∧ onError {| rq_channel := "all"; rq_data := d2;
                   rq_getOlderMsgs := false; rq_isRetry := true |} w2 = (Ret tt, w3)
      ∧ length (outbox w3) = 2%nat
      ∧ _requestRunning w3 !! "all" = Some false.
Proof.
  assert (js_truthy_at "all" (_requestRunning sample_world) = false) as Hrun by reflexivity.
  assert (isIdle sample_world = false) as Hidle by reflexivity.
  assert (is_Some (_channels sample_world !! "all")) as Hst
    by (exists initChannelState; vm_compute; reflexivity).
  split; [exact Hrun|]. split; [exact Hidle|]. split; [exact Hst|].
  destruct (proj2 (proj2 (proj2 (requestChannel_retries_once sample_world "all" false)))
              Hrun Hidle Hst)
    as (d1 & d2 & st1 & st2 & w1 & w2 & w3 & H1 & _ & _ & _ & Hgen1 & H2 & _ & _ & _ & _
        & H3 & _ & Hout & Hflag & _).
  exists d1, d2, w1, w2, w3.
  split; [exact H1|]. split; [exact Hgen1|]. split; [exact H2|]. split; [exact H3|].
  split; [|exact Hflag]. rewrite Hout. reflexivity.
Defined.

(** [chat.genPostData] has no fallback: a string that names no channel
    makes it throw and nothing is logged, [chat.requestChannel] throws with
    it, and anything but a string meets the explicit [throw].  And
    [chat.chooseTab] itself throws after falling back when it is called
    before [chat.setupTabs] has given the channel [all] a state. *)
Lemma genPostData_unknown_channel_throws :
  (genPostData (AStr "nosuch") false sample_world).1
  = Throw (TypeError "storageHash is undefined")
  ∧ log (genPostData (AStr "nosuch") false sample_world).2 = []
  ∧ (requestChannel "nosuch" false false sample_world).1
    = Throw (TypeError "storageHash is undefined")
  ∧ (genPostData AUndefined false sample_world).1
    = Throw (JsError "API changed: isFaction flag now a channel string - all, faction, alerts")
  ∧ (chooseTab (AStr "nosuch") (initial_world unit_box)).1
    = Throw (TypeError "chat._channels[channel] is undefined").
Proof. repeat split; vm_compute; reflexivity. Qed.

Lemma chooseTab_falls_back_witness :
  forallb (λ entry, negb (str_strict_eq (ch_id entry) (AStr "nosuch")))
          (channels synced_world) = true
  ∧ (∃ w', chooseTab (AStr "nosuch") synced_world = (Ret tt, w')
       ∧ stored_tab w' = Some "all"
       ∧ active w' = Some "all")
  ∧ (genPostData (AStr "nosuch") false synced_world).1
    = Throw (TypeError "storageHash is undefined")
  ∧ (genPostData (AStr "constructor") false synced_world).1
    = Ret (base_post_data unit_box "constructor").
Proof.
  assert (forallb (λ entry, negb (str_strict_eq (ch_id entry) (AStr "nosuch")))
                  (channels synced_world) = true) as Hnone by reflexivity.
  assert (∀ ch, ch ≠ "all" → ch ≠ "faction" → ch ≠ "alerts" →
            ∀ entry, entry ∈ channels synced_world → ch_id entry ≠ ch) as Hids.
  { intros ch H1 H2 H3 entry Hin. change (channels synced_world) with stock_channels in Hin.
    unfold stock_channels in Hin.
    apply elem_of_cons in Hin as [->|Hin]; [by cbn; auto|].
    apply elem_of_cons in Hin as [->|Hin]; [by cbn; auto|].
    apply list_elem_of_singleton in Hin as ->. by cbn; auto. }
  split; [exact Hnone|]. split; [|split].
  - destruct (proj1 (chooseTab_falls_back synced_world) (AStr "nosuch")
                {| ch_id := "all"; ch_name := "All"; localBounds := true;
                   inputPrompt := Some "broadcast:"; inputClass := Some "public";
                   request := true; render := true |} Hnone)
      as (w' & Hrun & Hstored & _ & Hactive & _).
    { reflexivity. }
    { intros _. exists synced_state. split; [vm_compute; reflexivity|].
      intros g Hg. vm_compute in Hg.
      apply elem_of_cons in Hg as [->|Hg]; [by vm_compute|].
      apply list_elem_of_singleton in Hg as ->. by vm_compute. }
    exists w'. split; [exact Hrun|]. split; [exact Hstored|].
    rewrite Hactive. vm_compute. reflexivity.
  - etrans; [apply (proj2 (proj2 (chooseTab_falls_back synced_world)) "nosuch" false)|].
    + by apply Hids.
    + by vm_compute.
    + by vm_compute.
  - etrans; [apply (proj2 (proj2 (chooseTab_falls_back synced_world)) "constructor" false)|].
    + by apply Hids.
    + by vm_compute.
    + by vm_compute.
Defined.

Lemma renderData_in_given_order_witness :
  (∀ t, toLocaleDateString t ≠ "")
  ∧ Forall2 (λ g m, data (writeDataToHash three_days initChannelState false true) !! g = Some m)
            ["g1"; "g2"; "g3"] (stored_entry ∘ parseMsgData <$> three_days)
  ∧ render_rows (data (writeDataToHash three_days initChannelState false true)) None
                ["g1"; "g2"; "g3"]
    = Ret [Row (renderMsgRow (parseMsgData (raw "g1" 0)));
           Row (renderMsgRow (parseMsgData (raw "g2" 1000)));
           Divider "day 1";
           Row (renderMsgRow (parseMsgData (raw "g3" 86400000)))].
Proof.
  assert (∀ t, toLocaleDateString t ≠ "") as Hday.
  { intros t. cbn. discriminate. }
  assert (Forall2 (λ g m, data (writeDataToHash three_days initChannelState false true) !! g
                          = Some m)
                  ["g1"; "g2"; "g3"] (stored_entry ∘ parseMsgData <$> three_days)) as Hom.
  { repeat constructor; vm_compute; reflexivity. }
  split; [exact Hday|]. split; [exact Hom|].
  etrans; [exact (proj1 (renderData_in_given_order (B := QBox) _ _ _ Hday Hom))|].
  vm_compute. reflexivity.
Defined.

Lemma transformMessage_leaves_argument_witness :
  markup_value sample_heap 12 = Some sample_markup
  ∧ ∃ newMarkup h',
      transformMessage 12 sample_heap = (Ret newMarkup, h')
      ∧ markup_value h' 12 = Some sample_markup
      ∧ markup_value h' newMarkup
        = Some [ {| ent_type := "TEXT";
                    ent_data := {| plain := " destroyed the "; team := None; attrs := [] |} |};
                 {| ent_type := "TEXT";
                    ent_data := {| plain := " Link "; team := Some "RESISTANCE";
                                   attrs := [] |} |};
                 {| ent_type := "PORTAL";
                    ent_data := {| plain := "Town Hall"; team := Some "RESISTANCE";
                                   attrs := [("name", JStr "Town Hall");
                                             ("latE6", JNum 1000000)] |} |} ].
Proof.
  assert (markup_value sample_heap 12 = Some sample_markup) as Hv by reflexivity.
  split; [exact Hv|].
  destruct (transformMessage_leaves_argument sample_heap 12 sample_markup Hv)
    as (newMarkup & ext & Hrun & _ & Hsame & _ & Hnew).
  exists newMarkup, (sample_heap ++ ext)%list.
  split; [exact Hrun|]. split; [exact Hsame|]. exact Hnew.
Defined.

(** ** G. The scenarios of the specification, run on the model *)

Example scenario_ascending_batch :
  let s := writeDataToHash [raw "g1" 100; raw "g2" 200] initChannelState false true in
  guids s = ["g1"; "g2"]
  ∧ (newestTimestamp s, newestGUID s) = (200, Some "g2")
  ∧ (oldestTimestamp s, oldestGUID s) = (100, Some "g1").
Proof. repeat split; vm_compute; reflexivity. Qed.

Example scenario_older_batch :
  let s := writeDataToHash [raw "g0" 50] synced_state true false in
  guids s = ["g0"; "g1"; "g2"]
  ∧ (oldestTimestamp s, oldestGUID s) = (50, Some "g0")
  ∧ newestTimestamp s = newestTimestamp synced_state.
Proof. repeat split; vm_compute; reflexivity. Qed.

Example scenario_duplicate_guid :
  writeDataToHash [raw "g1" 100] synced_state false true = synced_state.
Proof.
  rewrite writeDataToHash_all_present.
  - vm_compute. reflexivity.
  - intros json Hin. apply list_elem_of_singleton in Hin as ->. by vm_compute.
Qed.

(** [chat.handleChannel] hands its [olderMsgs] flag to the merger as
    [isAscendingOrder]: a page of newer messages that arrives oldest first
    is prepended in reverse, and [newestTimestamp] is taken from its first
    record. *)
Example handleChannel_merges_newer_page_descending :
  let p := {| rq_channel := "all"; rq_data := post_data_for unit_box "all" synced_state false;
              rq_getOlderMsgs := false; rq_isRetry := false |} in
  let w := (onSuccess p (Some [raw "g3" 300; raw "g4" 400]) synced_world).2 in
  ascendingTimestampOrder (rq_data p) = Some true
  ∧ guids <$> _channels w !! "all" = Some ["g4"; "g3"; "g1"; "g2"]
  ∧ newestTimestamp <$> _channels w !! "all" = Some 300.
Proof. repeat split; vm_compute; reflexivity. Qed.

(** Two boxes that lie within each other's padding count as the same box;
    a box shifted by a fifth of its height does not. *)
Example viewport_hysteresis :
  same_bounding_box unit_box
    {| south := 1 # 20; west := 1 # 20; north := 21 # 20; east := 21 # 20 |} = true
  ∧ same_bounding_box unit_box
      {| south := 1 # 5; west := 0; north := 6 # 5; east := 1 |} = false.
Proof. split; vm_compute; reflexivity. Qed.

(** Why the sentinel must not occur as a timestamp: a stored timestamp of
    [-1] makes the next merge take the watermark for unset. *)
Example watermarks_sentinel_timestamp :
  let one g t := {| mg_batch := [raw g t]; mg_isOlderMsgs := false;
                    mg_isAscendingOrder := false |} in
  let s := run_merges [one "g1" 5; one "g2" (-1); one "g3" 3] in
  m_time <$> data s !! "g2" = Some (-1) ∧ oldestTimestamp s = 3.
Proof. split; vm_compute; reflexivity. Qed.
(** ** H. More about the merger *)

Ltac split_if :=
  match goal with
  | |- context [if ?c then _ else _] => destruct c eqn:?
  | H : context [if ?c then _ else _] |- _ => destruct c eqn:?
  end.

Ltac to_Z :=
  repeat match goal with
  | H : (_ || _) = true |- _ => apply orb_true_iff in H
  | H : (_ || _) = false |- _ => apply orb_false_iff in H; destruct H
  | H : negb _ = true |- _ => apply negb_true_iff in H
  | H : negb _ = false |- _ => apply negb_false_iff in H
  | H : (_ =? _) = true |- _ => apply Z.eqb_eq in H
  | H : (_ =? _) = false |- _ => apply Z.eqb_neq in H
  | H : (_ >=? _) = true |- _ => apply Z.geb_le in H
  | H : (_ >=? _) = false |- _ => rewrite Z.geb_leb in H; apply Z.leb_gt in H
  | H : (_ <=? _) = true |- _ => apply Z.leb_le in H
  | H : (_ <=? _) = false |- _ => apply Z.leb_gt in H
  end.

Section MergerMore.
Context `{HostPage}.

Lemma js_in_insert_ne {V} (g k : string) (v : V) (m : gmap string V) :
  g ≠ k → js_in g m = false → js_in g (<[k := v]> m) = false.
Proof.
  unfold js_in. intros Hne Hin. apply orb_false_iff in Hin as [Hd Hp].
  rewrite Hp, orb_false_r. apply bool_decide_eq_false. apply bool_decide_eq_false in Hd.
  rewrite dom_insert, elem_of_union, elem_of_singleton. tauto.
Qed.

Lemma write_one_lookup asc s json g m :
  data s !! g = Some m → data (write_one asc s json) !! g = Some m.
Proof.
  intros Hg. unfold write_one. destruct (js_in _ _) eqn:Hin; [done|]. cbn.
  apply js_in_false in Hin. rewrite lookup_insert_ne; [done|]. intros Heq.
  cbn in Heq. rewrite Heq in Hin. congruence.
Qed.

Lemma foldl_write_one_keeps_lookup asc batch s g m :
  data s !! g = Some m → data (foldl (write_one asc) s batch) !! g = Some m.
Proof.
  revert s. induction batch as [|json batch IH]; intros s Hg; [done|].
  cbn. apply IH. by apply write_one_lookup.
Qed.

Lemma foldl_write_one_guids asc batch s :
  ∃ new, guids (foldl (write_one asc) s batch)
         = (if asc then guids s ++ new else new ++ guids s)%list
       ∧ ∀ g, g ∈ new → ∃ r, r ∈ batch ∧ raw_guid r = g.
Proof.
  revert s. induction batch as [|json batch IH]; intros s.
  { exists []. split; [by destruct asc; rewrite ?app_nil_r|]. by intros g ?%elem_of_nil. }
  cbn. destruct (IH (write_one asc s json)) as (new & Hg & Hnew).
  rewrite Hg. unfold write_one. destruct (js_in (raw_guid json) (data s)) eqn:Hin.
  - exists new. split; [done|]. intros g Hin'. destruct (Hnew g Hin') as (r & ? & ?).
    exists r. split; [by right|done].
  - cbn. exists (if asc then raw_guid json :: new else new ++ [raw_guid json])%list. split.
    + destruct asc; by rewrite <- app_assoc.
    + intros g Hin'.
      assert (g = raw_guid json ∨ g ∈ new) as [->|Hg'].
      { destruct asc; [apply elem_of_cons in Hin'|apply elem_of_app in Hin'];
          [tauto|destruct Hin' as [?|?%list_elem_of_singleton]; tauto]. }
      * exists json. split; [by left|done].
      * destruct (Hnew g Hg') as (r & ? & ?). exists r. split; [by right|done].
Qed.

(** X1.  [chat.writeDataToHash] only ever adds: a stored message keeps its
    entry, and the GUIDs listed before stay where they are, in their order;
    the new GUIDs, all taken from the batch, are put after them for an
    ascending batch and before them for a descending one. *)
Theorem writeDataToHash_only_adds (batch : list RawMsg) (s : ChannelState)
    (isOlderMsgs isAscendingOrder : bool) :
  let s' := writeDataToHash batch s isOlderMsgs isAscendingOrder in
  (∀ g m, data s !! g = Some m → data s' !! g = Some m)
  ∧ ∃ new, guids s' = (if isAscendingOrder then guids s ++ new else new ++ guids s)%list
         ∧ ∀ g, g ∈ new → ∃ r, r ∈ batch ∧ raw_guid r = g.
Proof.
  cbv zeta. unfold writeDataToHash. split.
  - intros g m Hg. apply foldl_write_one_keeps_lookup. by rewrite updateOldNewHash_data.
  - destruct (foldl_write_one_guids isAscendingOrder batch
                (updateOldNewHash batch s isOlderMsgs isAscendingOrder)) as (new & Hg & Hnew).
    exists new. split; [|done]. by rewrite Hg, updateOldNewHash_guids.
Qed.

Lemma foldl_write_one_fresh asc batch s :
  NoDup (raw_guid <$> batch) →
  (∀ r, r ∈ batch → js_in (raw_guid r) (data s) = false) →
  guids (foldl (write_one asc) s batch)
  = (if asc then guids s ++ (raw_guid <$> batch)
     else reverse (raw_guid <$> batch) ++ guids s)%list
  ∧ ∀ r, r ∈ batch →
      data (foldl (write_one asc) s batch) !! raw_guid r = Some (stored_entry (parseMsgData r)).
Proof.
  revert s. induction batch as [|json batch IH]; intros s Hnd Hfresh.
  { split; [by destruct asc; rewrite ?app_nil_r|]. by intros r ?%elem_of_nil. }
  cbn in Hnd. apply NoDup_cons in Hnd as [Hnotin Hnd].
  assert (js_in (raw_guid json) (data s) = false) as Hin by (apply Hfresh; by left).
  assert (data (write_one asc s json)
          = <[raw_guid json := stored_entry (parseMsgData json)]> (data s)) as Hd1.
  { unfold write_one. by rewrite Hin. }
  assert (guids (write_one asc s json)
          = if asc then (guids s ++ [raw_guid json])%list else raw_guid json :: guids s) as Hg1.
  { unfold write_one. by rewrite Hin. }
  cbn [foldl fmap list_fmap]. destruct (IH (write_one asc s json) Hnd) as [Hg Hd].
  { intros r Hr. rewrite Hd1. apply js_in_insert_ne; [|apply Hfresh; by right].
    intros Heq. apply Hnotin. rewrite <- Heq. apply list_elem_of_fmap. by exists r. }
  split.
  - rewrite Hg, Hg1. destruct asc.
    + by rewrite <- app_assoc.
    + by rewrite reverse_cons, <- app_assoc.
  - intros r [->|Hr]%elem_of_cons; [|by apply Hd].
    apply foldl_write_one_keeps_lookup. by rewrite Hd1, lookup_insert_eq.
Qed.

(** X2.  A batch of records with distinct GUIDs, none of them stored yet
    (nor the name of an inherited member), is stored in full: ascending,
    its GUIDs are appended in the order received; descending, they are put
    in front in reverse, so that the list runs oldest first for a batch
    that came newest first.  Each record is kept under its GUID as parsed. *)
Theorem writeDataToHash_fresh_batch (batch : list RawMsg) (s : ChannelState)
    (isOlderMsgs isAscendingOrder : bool) :
  NoDup (raw_guid <$> batch) →
  (∀ r, r ∈ batch → js_in (raw_guid r) (data s) = false) →
  let s' := writeDataToHash batch s isOlderMsgs isAscendingOrder in
  guids s' = (if isAscendingOrder then guids s ++ (raw_guid <$> batch)
              else reverse (raw_guid <$> batch) ++ guids s)%list
  ∧ ∀ r, r ∈ batch → data s' !! raw_guid r = Some (stored_entry (parseMsgData r)).
Proof.
  intros Hnd Hfresh. cbv zeta. unfold writeDataToHash.
  destruct (foldl_write_one_fresh isAscendingOrder batch
              (updateOldNewHash batch s isOlderMsgs isAscendingOrder) Hnd) as [Hg Hd].
  { intros r Hr. rewrite updateOldNewHash_data. by apply Hfresh. }
  split; [|done]. by rewrite Hg, updateOldNewHash_guids.
Qed.

Lemma foldl_write_one_store asc batch s1 s2 :
  data s1 = data s2 → guids s1 = guids s2 →
  data (foldl (write_one asc) s1 batch) = data (foldl (write_one asc) s2 batch)
  ∧ guids (foldl (write_one asc) s1 batch) = guids (foldl (write_one asc) s2 batch).
Proof.
  revert s1 s2. induction batch as [|json batch IH]; intros s1 s2 Hd Hg; [done|].
  cbn. apply IH; unfold write_one; rewrite Hd, ?Hg; destruct (js_in _ _); cbn; congruence.
Qed.

(** X3.  As far as the stored messages and their order go, merging one
    batch after another is merging the two batches as one: how the server
    cuts its answer into pages makes no difference. *)
Theorem writeDataToHash_pages (b1 b2 : list RawMsg) (s : ChannelState)
    (older1 older2 older isAscendingOrder : bool) :
  let two := writeDataToHash b2 (writeDataToHash b1 s older1 isAscendingOrder)
                             older2 isAscendingOrder in
  let one := writeDataToHash (b1 ++ b2) s older isAscendingOrder in
  data two = data one ∧ guids two = guids one.
Proof.
  cbv zeta. unfold writeDataToHash. rewrite updateOldNewHash_foldl, <- foldl_app.
  apply foldl_write_one_store; by rewrite !updateOldNewHash_data || rewrite !updateOldNewHash_guids.
Qed.

(** X4.  [chat.updateOldNewHash] touches nothing but the watermarks, does
    nothing for an empty batch, and only ever widens the interval between
    two watermarks that are set: the oldest timestamp never grows, the
    newest never shrinks. *)
Theorem updateOldNewHash_widens (newData : list RawMsg) (s : ChannelState)
    (isOlderMsgs isAscendingOrder : bool) :
  let s' := updateOldNewHash newData s isOlderMsgs isAscendingOrder in
  data s' = data s ∧ guids s' = guids s
  ∧ (newData = [] → s' = s)
  ∧ (oldestTimestamp s ≠ -1 → oldestTimestamp s' ≤ oldestTimestamp s)
  ∧ (newestTimestamp s ≠ -1 → newestTimestamp s ≤ newestTimestamp s').
Proof.
  cbv zeta. split; [apply updateOldNewHash_data|]. split; [apply updateOldNewHash_guids|].
  split; [by intros ->|].
  unfold updateOldNewHash. destruct (head newData) as [r0|]; [|by split; intros; lia].
  destruct (last newData) as [rn|]; [|by split; intros; lia].
  destruct s as [d gs ot og nt ng], isOlderMsgs, isAscendingOrder;
    cbn -[Z.eqb Z.geb Z.leb];
    repeat (split_if; cbn -[Z.eqb Z.geb Z.leb] in *); to_Z; split; intros; lia.
Qed.

(** X5.  When a batch ends on the timestamp of a watermark, the GUID kept
    beside the watermark, which the next request names as its continuation
    point, changes on one side only: a batch of older messages replaces the
    GUID of the oldest message and leaves that of the newest, and a batch
    of newer messages does the opposite. *)
Theorem updateOldNewHash_tie (newData : list RawMsg) (s : ChannelState)
    (isOlderMsgs isAscendingOrder : bool) (r0 rn : RawMsg) :
  head newData = Some r0 → last newData = Some rn →
  let s' := updateOldNewHash newData s isOlderMsgs isAscendingOrder in
  let oldest := if isAscendingOrder then r0 else rn in
  let newest := if isAscendingOrder then rn else r0 in
  (oldestTimestamp s = raw_time oldest →
     oldestTimestamp s' = raw_time oldest
     ∧ oldestGUID s' = if isOlderMsgs then Some (raw_guid oldest) else oldestGUID s)
  ∧ (newestTimestamp s = raw_time newest →
     newestTimestamp s' = raw_time newest
     ∧ newestGUID s' = if isOlderMsgs then newestGUID s else Some (raw_guid newest)).
Proof.
  intros Hh Hl. cbv zeta. unfold updateOldNewHash. rewrite Hh, Hl.
  destruct s as [d gs ot og nt ng], isOlderMsgs, isAscendingOrder;
    cbn -[Z.eqb Z.geb Z.leb];
    repeat (split_if; cbn -[Z.eqb Z.geb Z.leb] in *); to_Z;
    (split; intros; split; (reflexivity || congruence || lia)).
Qed.

End MergerMore.
(** ** I. Parsing and rendering *)

Section ParserMore.
Context `{HostPage}.

Lemma land_pow2_eqb (a n : Z) : 0 ≤ n → (Z.land a (2 ^ n) =? 2 ^ n) = Z.testbit a n.
Proof.
  intros Hn.
  assert (Z.land a (2 ^ n) = if Z.testbit a n then 2 ^ n else 0) as ->.
  { apply Z.bits_inj'. intros m Hm. rewrite Z.land_spec, Z.pow2_bits_eqb by done.
    destruct (Z.eqb_spec n m) as [->|Hne].
    - rewrite andb_true_r. destruct (Z.testbit a m) eqn:E.
      + by rewrite Z.pow2_bits_true.
      + by rewrite Z.bits_0.
    - rewrite andb_false_r. destruct (Z.testbit a n).
      + by rewrite Z.pow2_bits_false.
      + by rewrite Z.bits_0. }
  assert (0 < 2 ^ n) by (apply Z.pow_pos_nonneg; lia).
  destruct (Z.testbit a n); [apply Z.eqb_refl|apply Z.eqb_neq; lia].
Qed.

(** X6.  [chat.parseMsgData] reads the categories of a message as a bit
    mask: bit 0 says public, bit 1 secure, bit 2 alert, whatever the other
    bits are; a message counts as addressed to the player when it is an
    alert that is public or secure. *)
Theorem parseMsgData_categories (json : RawMsg) :
  let p := parseMsgData json in
  let cats := categories (raw_plext json) in
  p_public p = Z.testbit cats 0
  ∧ p_secure p = Z.testbit cats 1
  ∧ p_alert p = Z.testbit cats 2
  ∧ p_msgToPlayer p = Z.testbit cats 2 && (Z.testbit cats 0 || Z.testbit cats 1).
Proof.
  cbv zeta. unfold parseMsgData. cbn -[Z.land Z.eqb Z.testbit].
  pose proof (land_pow2_eqb (categories (raw_plext json)) 0 ltac:(lia)) as H0.
  pose proof (land_pow2_eqb (categories (raw_plext json)) 1 ltac:(lia)) as H1.
  pose proof (land_pow2_eqb (categories (raw_plext json)) 2 ltac:(lia)) as H2.
  change (2 ^ 0) with 1 in H0. change (2 ^ 1) with 2 in H1. change (2 ^ 2) with 4 in H2.
  by rewrite H0, H1, H2.
Qed.

Lemma foldl_scan_player_other player l :
  Forall (λ ent, names_player ent = false) l → foldl scan_player player l = player.
Proof.
  revert player. induction l as [|ent l IH]; intros player Hl; [done|].
  apply Forall_cons in Hl as [He Hl]. cbn. rewrite IH by done.
  unfold names_player in He. apply orb_false_iff in He as [Hs Hp].
  unfold scan_player. by rewrite Hs, Hp.
Qed.

(** X7.  The name [chat.parseMsgData] reports for the player is the text of
    the last SENDER or PLAYER entity of the markup, a sender's text with
    its trailing colon and space cut; the entities after it play no part.
    Without such an entity the player has the empty name and the team of
    the message. *)
Theorem parseMsgData_player (json : RawMsg) :
  (∀ before ent after,
     markup (raw_plext json) = (before ++ ent :: after)%list →
     names_player ent = true →
     Forall (λ e, names_player e = false) after →
     player_name (p_player (parseMsgData json))
     = if String.eqb (ent_type ent) "SENDER"
       then cut_colon_suffix (plain (ent_data ent))
       else plain (ent_data ent))
  ∧ (Forall (λ e, names_player e = false) (markup (raw_plext json)) →
     p_player (parseMsgData json)
     = {| player_name := ""; player_team := p_team (parseMsgData json) |}).
Proof.
  split.
  - intros before ent after Hm Hent Hafter. unfold parseMsgData. cbn [p_player]. rewrite Hm.
    rewrite foldl_app. cbn [foldl]. rewrite foldl_scan_player_other by done.
    unfold names_player in Hent. unfold scan_player.
    destruct (String.eqb (ent_type ent) "SENDER"); [done|].
    cbn in Hent. by rewrite Hent.
  - intros Hm. unfold parseMsgData. cbn [p_player p_team].
    by rewrite foldl_scan_player_other.
Qed.

Lemma substring_zero s : substring 0 0 s = "".
Proof. by destruct s. Qed.

Lemma substring_all s : substring 0 (String.length s) s = s.
Proof. induction s as [|c s IH]; [done|]. simpl. by rewrite IH. Qed.

Lemma substring_app_l s t : substring 0 (String.length s) (s +:+ t) = s.
Proof.
  induction s as [|c s IH]; [apply substring_zero|]. simpl. f_equal. apply IH.
Qed.

Lemma substring_app_r s t :
  substring (String.length s) (String.length t) (s +:+ t) = t.
Proof. induction s as [|c s IH]; [apply substring_all|]. simpl. apply IH. Qed.

Lemma length_app_string s t :
  String.length (s +:+ t) = (String.length s + String.length t)%nat.
Proof. induction s as [|c s IH]; [done|]. simpl. f_equal. apply IH. Qed.

Lemma substring_split s (k : nat) :
  (k ≤ String.length s)%nat →
  substring 0 k s +:+ substring k (String.length s - k) s = s.
Proof.
  revert k. induction s as [|c s IH]; intros k Hk.
  { simpl in Hk. by replace k with 0%nat by lia. }
  destruct k as [|k]; simpl.
  - by rewrite substring_all.
  - simpl in Hk.
    change (String c (substring 0 k s +:+ substring k (String.length s - k) s) = String c s).
    f_equal. apply IH. lia.
Qed.

(** X8.  The replacement of [/: $/] that gives the sender's name removes
    exactly one trailing colon and space: it undoes appending them, and
    otherwise returns its argument as it is. *)
Theorem cut_colon_suffix_exact (s : string) :
  cut_colon_suffix (s +:+ ": ") = s
  ∧ (cut_colon_suffix s = s ∨ s = cut_colon_suffix s +:+ ": ").
Proof.
  split.
  - unfold cut_colon_suffix. rewrite length_app_string.
    change (String.length ": ") with 2%nat.
    replace (String.length s + 2 - 2)%nat with (String.length s) by lia.
    replace (2 <=? String.length s + 2)%nat with true by (symmetry; apply Nat.leb_le; lia).
    pose proof (substring_app_r s ": ") as Hr. change (String.length ": ") with 2%nat in Hr.
    rewrite Hr, (substring_app_l s ": "). done.
  - unfold cut_colon_suffix.
    destruct (2 <=? String.length s)%nat eqn:Hlen; [|by left]. cbn [andb].
    destruct (String.eqb_spec (substring (String.length s - 2) 2 s) ": ") as [Heq|]; [|by left].
    right. apply Nat.leb_le in Hlen.
    pose proof (substring_split s (String.length s - 2) ltac:(lia)) as Hs.
    replace (String.length s - (String.length s - 2))%nat with 2%nat in Hs by lia.
    rewrite Heq in Hs. done.
Qed.

Lemma list_ascii_app s t :
  list_ascii_of_string (s +:+ t) = (list_ascii_of_string s ++ list_ascii_of_string t)%list.
Proof. induction s as [|c s IH]; [done|]. simpl. f_equal. apply IH. Qed.

(** X9.  The text [chat.renderTimeCell] puts into the title attribute has
    passed three replacements, after which it holds no less-than sign, no
    greater-than sign and no double quote; a text without them is left as
    it is. *)
Theorem escape_markup_safe (s : string) :
  Forall (λ c, breaks_attribute c = false) (list_ascii_of_string (escape_markup s))
  ∧ (Forall (λ c, breaks_attribute c = false) (list_ascii_of_string s) → escape_markup s = s).
Proof.
  split.
  - induction s as [|c s IH]; [constructor|].
    cbn [escape_markup]. rewrite list_ascii_app. apply Forall_app. split; [|done].
    destruct (Ascii.eqb c "<") eqn:E1; [by repeat constructor|].
    destruct (Ascii.eqb c ">") eqn:E2; [by repeat constructor|].
    destruct (Ascii.eqb c "034") eqn:E3; [by repeat constructor|].
    repeat constructor. unfold breaks_attribute. by rewrite E1, E2, E3.
  - induction s as [|c s IH]; intros Hs; [done|].
    cbn in Hs. apply Forall_cons in Hs as [Hc Hs].
    unfold breaks_attribute in Hc. apply orb_false_iff in Hc as [Hc E3].
    apply orb_false_iff in Hc as [E1 E2].
    cbn [escape_markup]. rewrite E1, E2, E3, IH by done. done.
Qed.

End ParserMore.

Section TransformMore.

Lemma spliced_sublist {A} (start count : nat) (l : list A) : sublist (spliced start count l) l.
Proof.
  unfold spliced. rewrite <- (take_drop start l) at 3.
  apply sublist_app; [done|]. rewrite <- drop_drop. apply sublist_drop.
Qed.

Lemma length_spliced {A} (start count : nat) (l : list A) :
  (length l ≤ length (spliced start count l) + count)%nat.
Proof. unfold spliced. rewrite length_app, length_take, length_drop. lia. Qed.

Lemma collapse_faction_drops m :
  sublist (ent_text <$> collapse_faction m) (ent_text <$> m)
  ∧ (length m ≤ length (collapse_faction m) + 1)%nat.
Proof.
  unfold collapse_faction. destruct (4 <? length m)%nat; [|split; [done|lia]].
  destruct (m !! 3%nat) as [e3|] eqn:H3; [|split; [done|lia]].
  destruct (m !! 4%nat) as [e4|] eqn:H4; [|split; [done|lia]].
  destruct (is_faction_link _ _ _); [|split; [done|lia]].
  split.
  - unfold spliced. rewrite fmap_app, fmap_take, fmap_drop, list_fmap_insert.
    cbn. change (ent_type e4, plain (ent_data e4)) with (ent_text e4).
    rewrite list_insert_id by (by rewrite list_lookup_fmap, H4).
    apply (spliced_sublist 3 1).
  - etrans; [|apply (length_spliced 3 1)]. by rewrite length_insert.
Qed.

Lemma skip_agent_drops m :
  sublist (ent_text <$> skip_agent m) (ent_text <$> m)
  ∧ (length m ≤ length (skip_agent m) + 2)%nat.
Proof.
  unfold skip_agent. destruct (1 <? length m)%nat; [|split; [done|lia]].
  destruct (m !! 0%nat) as [e0|]; [|split; [done|lia]].
  destruct (m !! 1%nat) as [e1|]; [|split; [done|lia]].
  destruct (is_agent_prefix _ _ _); [|split; [done|lia]].
  split; [apply fmap_sublist, spliced_sublist|apply length_spliced].
Qed.

Lemma skip_faction_agent_drops m :
  sublist (ent_text <$> skip_faction_agent m) (ent_text <$> m)
  ∧ (length m ≤ length (skip_faction_agent m) + 3)%nat.
Proof.
  unfold skip_faction_agent. destruct (2 <? length m)%nat; [|split; [done|lia]].
  destruct (m !! 0%nat) as [e0|]; [|split; [done|lia]].
  destruct (m !! 1%nat) as [e1|]; [|split; [done|lia]].
  destruct (m !! 2%nat) as [e2|]; [|split; [done|lia]].
  destruct (is_faction_agent_prefix _ _ _ _); [|split; [done|lia]].
  split; [apply fmap_sublist, spliced_sublist|apply length_spliced].
Qed.

(** X10.  [transformMessage] only leaves entities out: the types and texts
    of the entities it returns are those of its argument, in the same
    order, with at most six missing; it adds, reorders and rewrites no
    text. *)
Theorem transformMessage_value_only_drops (markup : list Entity) :
  sublist (ent_text <$> transformMessage_value markup) (ent_text <$> markup)
  ∧ (length markup ≤ length (transformMessage_value markup) + 6)%nat.
Proof.
  unfold transformMessage_value.
  destruct (collapse_faction_drops markup) as [S1 L1].
  destruct (skip_agent_drops (collapse_faction markup)) as [S2 L2].
  destruct (skip_faction_agent_drops (skip_agent (collapse_faction markup))) as [S3 L3].
  split; [|lia]. etrans; [exact S3|]. etrans; [exact S2|exact S1].
Qed.

End TransformMore.
(** ** J. More about the page *)

Section PageMore.
Context {B : Type} `{LatLngBounds B} `{HostPage}.

(** *** The renderer *)

Lemma render_rows_missing (d : gmap string StoredMsg) prev vals g :
  g ∈ vals → lookup_row d g = None →
  render_rows d prev vals = Throw (TypeError "msg is undefined").
Proof.
  revert prev. induction vals as [|g' vals IH]; intros prev Hin Hg.
  { by apply elem_of_nil in Hin. }
  cbn. destruct (lookup_row d g') as [[day row]|] eqn:Hg'; [|done].
  apply elem_of_cons in Hin as [->|Hin]; [congruence|].
  by rewrite (IH (Some day)).
Qed.

Lemma renderData_run (d : gmap string StoredMsg) element older sortedGuids (w : World B) :
  renderData d element older sortedGuids w
  = if is_hidden element w then (Ret tt, w)
    else match render_rows d None (default (legacy_order d) sortedGuids) with
         | Throw e => (Throw e, w)
         | Ret frags =>
             (Ret tt, set_html element
                        ("<table>" +:+ String.concat "" (fragment_html <$> frags) +:+ "</table>")
                        w)
         end.
Proof.
  unfold renderData, bind, get, modify, throw, ret. cbn -[render_rows legacy_order].
  destruct (is_hidden element w); [done|].
  destruct sortedGuids; cbn -[render_rows legacy_order]; by destruct (render_rows _ _ _).
Qed.

Lemma same_but_html_refl element (w : World B) : same_but_html element w w.
Proof. by repeat split. Qed.

Lemma set_html_same_but_html element h (w : World B) :
  same_but_html element w (set_html element h w).
Proof.
  repeat split; cbn.
  - destruct (decide (k = element)) as [->|Hne].
    + rewrite lookup_alter_eq. by destruct (containers w !! element).
    + by rewrite lookup_alter_ne.
  - destruct (decide (k = element)) as [->|Hne].
    + rewrite lookup_alter_eq. by destruct (containers w !! element).
    + by rewrite lookup_alter_ne.
  - intros Hne. by rewrite lookup_alter_ne.
Qed.

(** X11.  The two ways [chat.renderData] ends before it writes: for a
    hidden element it returns at once and nothing is changed; for a
    visible one, a GUID of the order that is neither stored nor inherited
    makes it throw while the rows are collected, before anything is
    written, so that the old content stays. *)
Theorem renderData_edges (d : gmap string StoredMsg) (element : string)
    (likelyWereOldMsgs : bool) (sortedGuids : option (list string)) (w : World B) :
  (is_hidden element w = true →
     renderData d element likelyWereOldMsgs sortedGuids w = (Ret tt, w))
  ∧ (is_hidden element w = false →
       ∀ g, g ∈ default (legacy_order d) sortedGuids → lookup_row d g = None →
         renderData d element likelyWereOldMsgs sortedGuids w
         = (Throw (TypeError "msg is undefined"), w)).
Proof.
  rewrite renderData_run. split.
  - by intros ->.
  - intros -> g Hg Hrow. by rewrite (render_rows_missing d None _ g).
Qed.

Lemma renderChannel_same ch older (w : World B) :
  same_but_html (container_id ch) w (renderChannel ch older w).2.
Proof.
  unfold renderChannel, bind, get, throw. cbn -[renderData].
  destruct (_channels w !! ch) as [st|]; [|apply same_but_html_refl].
  rewrite renderData_run.
  destruct (is_hidden _ w); [apply same_but_html_refl|].
  destruct (render_rows _ _ _); [apply set_html_same_but_html|apply same_but_html_refl].
Qed.

Lemma renderChannel_ok ch older (w : World B) st :
  _channels w !! ch = Some st → (∀ g, g ∈ guids st → g ∈ dom (data st)) →
  ∃ frags, render_rows (data st) None (guids st) = Ret frags
    ∧ renderChannel ch older w
      = (Ret tt,
         if is_hidden (container_id ch) w then w
         else set_html (container_id ch)
                ("<table>" +:+ String.concat "" (fragment_html <$> frags) +:+ "</table>") w).
Proof.
  intros Hst Hguids.
  destruct (render_rows_total (data st) None (guids st)) as [frags Hf].
  { intros g Hg. by apply lookup_row_member, Hguids. }
  exists frags. split; [done|].
  unfold renderChannel, bind, get, throw. cbn -[renderData]. rewrite Hst, renderData_run.
  cbn -[render_rows]. rewrite Hf. by destruct (is_hidden _ w).
Qed.

(** *** The response handler *)

Lemma handleChannel_run ch data older asc (w : World B) :
  handleChannel ch data older asc w =
  let w1 := set_requestRunning ch false w in
  match data with
  | None =>
      (Ret tt, add_log (LogWarn (ch +:+ " chat error. Waiting for next auto-refresh."))
                 (incr_failedRequestCount w1))
  | Some result =>
      if (length result =? 0)%nat && negb (get_needsClearing ch w) then (Ret tt, w1)
      else
        match _channels w !! ch with
        | None => (Throw (TypeError "chat._channels[channel] is undefined"),
                   set_needsClearing ch false w1)
        | Some st =>
            let st' := writeDataToHash result st false older in
            renderChannel ch (negb (bool_decide (oldestGUID st = oldestGUID st')))
              (set_channel_states (<[ch := st']>) (set_needsClearing ch false w1))
        end
  end.
Proof.
  unfold handleChannel, bind, get, modify, throw, ret.
  destruct data as [result|]; [|done]. cbn -[renderChannel writeDataToHash Nat.eqb].
  change (get_needsClearing ch (set_requestRunning ch false w)) with (get_needsClearing ch w).
  destruct ((length result =? 0)%nat && negb (get_needsClearing ch w)); [done|].
  cbn -[renderChannel writeDataToHash]. by destruct (_channels w !! ch).
Qed.

(** X12.  Whatever the response is, and even when the handler throws,
    [chat.handleChannel] marks the channel as no longer in flight and
    changes the flag of no other channel.  A response that is falsy or has
    no result counts one failed request and logs one warning; the stored
    messages, the display and the requests sent stay as they were. *)
Theorem handleChannel_releases (ch : string) (data : option (list RawMsg))
    (olderMsgs : bool) (ascendingTimestampOrder : option bool) (w : World B) :
  let w' := (handleChannel ch data olderMsgs ascendingTimestampOrder w).2 in
  _requestRunning w' = <[ch := false]> (_requestRunning w)
  ∧ outbox w' = outbox w
  ∧ (data = None →
       handleChannel ch data olderMsgs ascendingTimestampOrder w = (Ret tt, w')
       ∧ failedRequestCount w' = failedRequestCount w + 1
       ∧ log w' = (log w ++ [LogWarn (ch +:+ " chat error. Waiting for next auto-refresh.")])%list
       ∧ _channels w' = _channels w ∧ containers w' = containers w).
Proof.
  cbv zeta. rewrite handleChannel_run. cbv zeta. destruct data as [result|].
  - destruct (_ && _); [by repeat split|].
    destruct (_channels w !! ch) as [st|]; [|by repeat split].
    match goal with |- context [(renderChannel ?c ?o ?v).2] =>
      pose proof (renderChannel_same c o v) as Hs end.
    destruct Hs as (_ & _ & _ & Hrun & _ & _ & _ & _ & _ & Hout & _).
    rewrite Hrun, Hout. by repeat split.
  - by repeat split.
Qed.

(** X13.  On a page whose channel states list exactly what they store, a
    response for a channel that has a state is always handled to the end:
    [chat.handleChannel] returns normally, the states still list exactly
    what they store, and the channel is no longer in flight. *)
Theorem handleChannel_consistent (ch : string) (data : option (list RawMsg))
    (olderMsgs : bool) (ascendingTimestampOrder : option bool) (w : World B) :
  stores_consistent w → is_Some (_channels w !! ch) →
  ∃ w', handleChannel ch data olderMsgs ascendingTimestampOrder w = (Ret tt, w')
    ∧ stores_consistent w'
    ∧ is_Some (_channels w' !! ch)
    ∧ _requestRunning w' !! ch = Some false.
Proof.
  intros Hcons [st Hst]. rewrite handleChannel_run. cbv zeta.
  destruct data as [result|].
  - destruct (_ && _).
    { eexists. split; [done|]. split; [done|]. split; [by exists st|].
      cbn. by rewrite lookup_insert_eq. }
    rewrite Hst.
    set (st' := writeDataToHash result st false olderMsgs).
    assert (order_integrity st') as Hst'.
    { apply writeDataToHash_order_integrity. by apply (Hcons ch). }
    set (w2 := set_channel_states _ _).
    assert (_channels w2 !! ch = Some st') as Hw2 by (subst w2; cbn; by rewrite lookup_insert_eq).
    destruct (renderChannel_ok ch (negb (bool_decide (oldestGUID st = oldestGUID st'))) w2 st' Hw2)
      as (frags & _ & Hrun).
    { intros g Hg. by apply Hst'. }
    rewrite Hrun.
    set (h := "<table>" +:+ String.concat "" (fragment_html <$> frags) +:+ "</table>").
    assert (_channels w2 = <[ch := st']> (_channels w)) as Hw2eq by done.
    assert (stores_consistent w2) as Hcons2.
    { intros ch' s' Hs'. rewrite Hw2eq in Hs'.
      destruct (decide (ch' = ch)) as [->|Hne].
      - rewrite lookup_insert_eq in Hs'. by injection Hs' as <-.
      - rewrite lookup_insert_ne in Hs' by done. by apply (Hcons ch'). }
    assert (_requestRunning w2 !! ch = Some false) as Hrun2.
    { subst w2. cbn. by rewrite lookup_insert_eq. }
    eexists. split; [done|].
    destruct (is_hidden (container_id ch) w2); (split; [done|split; [by exists st'|done]]).
  - eexists. split; [done|]. split; [done|]. split; [by exists st|].
    cbn. by rewrite lookup_insert_eq.
Qed.

(** X14.  [chat.handleChannel] hands the merger its [olderMsgs] flag in
    the place of the order flag and never the order the request asked for:
    the records of a response, if they are new and distinct, are put in
    front of the GUIDs of the channel in reverse when newer messages were
    requested, and appended in the order received when older messages
    were. *)
Theorem handleChannel_page_order (ch : string) (result : list RawMsg)
    (olderMsgs : bool) (ascendingTimestampOrder : option bool) (w : World B)
    (st : ChannelState) :
  _channels w !! ch = Some st →
  NoDup (raw_guid <$> result) →
  (∀ r, r ∈ result → js_in (raw_guid r) (data st) = false) →
  ∃ st', _channels (handleChannel ch (Some result) olderMsgs ascendingTimestampOrder w).2 !! ch
         = Some st'
    ∧ guids st' = (if olderMsgs then guids st ++ (raw_guid <$> result)
                   else reverse (raw_guid <$> result) ++ guids st)%list.
Proof.
  intros Hst Hnd Hfresh. rewrite handleChannel_run. cbv zeta.
  destruct (_ && _) eqn:Hempty.
  - exists st. split; [done|].
    apply andb_true_iff in Hempty as [Hlen _]. apply Nat.eqb_eq in Hlen.
    destruct result; [|done]. by destruct olderMsgs; rewrite ?app_nil_r.
  - rewrite Hst.
    match goal with |- context [(renderChannel ?c ?o ?v).2] =>
      pose proof (renderChannel_same c o v) as Hs end.
    destruct Hs as (_ & Hch & _). rewrite Hch. cbn -[writeDataToHash].
    rewrite lookup_insert_eq. eexists. split; [done|].
    unfold writeDataToHash.
    destruct (foldl_write_one_fresh olderMsgs result
                (updateOldNewHash result st false olderMsgs) Hnd) as [Hg _].
    { intros r Hr. rewrite updateOldNewHash_data. by apply Hfresh. }
    by rewrite Hg, updateOldNewHash_guids.
Qed.

(** X15.  An empty response is dropped unless the channel waits to be
    cleared.  After the viewport has moved, the channel has been reset and
    its display flagged, and then the first response, empty or not, is
    rendered: for an empty one the visible display becomes the empty
    table, and the flag is taken back. *)
Theorem handleChannel_empty_response (ch : string) (olderMsgs : bool)
    (ascendingTimestampOrder : option bool) (w : World B) :
  (get_needsClearing ch w = false →
     handleChannel ch (Some []) olderMsgs ascendingTimestampOrder w
     = (Ret tt, set_requestRunning ch false w))
  ∧ (get_needsClearing ch w = true → _channels w !! ch = Some initChannelState →
     ∃ w', handleChannel ch (Some []) olderMsgs ascendingTimestampOrder w = (Ret tt, w')
       ∧ get_needsClearing ch w' = false
       ∧ _channels w' !! ch = Some initChannelState
       ∧ (is_hidden (container_id ch) w = false →
            html <$> containers w' !! container_id ch = Some "<table></table>")).
Proof.
  split.
  - intros Hn. rewrite handleChannel_run. cbv zeta. by rewrite Hn.
  - intros Hn Hst. rewrite handleChannel_run. cbv zeta. rewrite Hn, Hst.
    cbn -[renderChannel]. unfold renderChannel, bind, get. cbn -[renderData].
    rewrite lookup_insert_eq, renderData_run. cbn.
    unfold get_needsClearing in Hn.
    destruct (containers w !! container_id ch) as [c|] eqn:Hc; [|done].
    assert (is_hidden (container_id ch)
              (set_channel_states (<[ch := initChannelState]>)
                 (set_needsClearing ch false (set_requestRunning ch false w)))
            = hidden c) as ->.
    { unfold is_hidden. cbn. by rewrite lookup_alter_eq, Hc. }
    unfold is_hidden. rewrite Hc.
    destruct (hidden c); eexists; (split; [reflexivity|]); unfold get_needsClearing; cbn;
      rewrite ?lookup_alter_eq, ?lookup_insert_eq, Hc; split; try done; split; try done.
Qed.

End PageMore.
(** ** K. More about the driver *)

Section DriverMore.
Context {B : Type} `{LatLngBounds B} `{HostPage}.

Lemma js_truthy_at_true ch (flags : gmap string bool) :
  flags !! ch = Some true → js_truthy_at ch flags = true.
Proof. unfold js_truthy_at. by intros ->. Qed.

(** X16.  A request that the in-flight guard lets through is not sent
    while the client is idle: only the status is rendered.  On a client
    that is awake it is sent exactly once for a channel that has a state,
    and from then on every further request for the channel that is not a
    retry does nothing. *)
Theorem requestChannel_guard (ch : string) (getOlderMsgs isRetry : bool) (w : World B) :
  js_truthy_at ch (_requestRunning w) && negb isRetry = false →
  (isIdle w = true →
     requestChannel ch getOlderMsgs isRetry w = (Ret tt, renderUpdateStatus w))
  ∧ (isIdle w = false → is_Some (_channels w !! ch) →
     ∃ p w', requestChannel ch getOlderMsgs isRetry w = (Ret tt, w')
       ∧ outbox w' = (outbox w ++ [p])%list
       ∧ rq_channel p = ch ∧ rq_getOlderMsgs p = getOlderMsgs ∧ rq_isRetry p = isRetry
       ∧ tab (rq_data p) = ch
       ∧ ∀ again, requestChannel ch again false w' = (Ret tt, w')).
Proof.
  intros Hguard. split.
  - intros Hidle. unfold requestChannel, bind, get, modify, ret. cbn.
    by rewrite Hguard, Hidle.
  - intros Hidle Hst.
    destruct (requestChannel_issues w ch getOlderMsgs isRetry Hguard Hidle Hst)
      as (d & Htab & Hrun).
    set (p := {| rq_channel := ch; rq_data := d; rq_getOlderMsgs := getOlderMsgs;
                 rq_isRetry := isRetry |}) in *.
    destruct (issued_fields w ch p) as (Hout & Hflag & _ & _).
    exists p. eexists. split; [exact Hrun|]. split; [exact Hout|].
    do 4 (split; [done|]).
    intros again. apply requestChannel_in_flight. by apply js_truthy_at_true.
Qed.

Lemma after_bounding_box_check_same (w : World B) :
  same_bounding_box (viewport w) (default (viewport w) (_oldBBox w)) = true →
  after_bounding_box_check w = set_oldBBox (Some (default (viewport w) (_oldBBox w))) w.
Proof. intros Hs. unfold after_bounding_box_check. cbv zeta. by rewrite Hs. Qed.

(** X17.  [chat.requestChannel] for a channel without a state, on a map
    that has not moved, throws when it builds the request; by then the
    channel is marked as in flight, nothing has been sent, and every later
    request for the channel that is not a retry does nothing. *)
Theorem requestChannel_without_state (ch : string) (getOlderMsgs isRetry : bool) (w : World B) :
  js_truthy_at ch (_requestRunning w) && negb isRetry = false →
  isIdle w = false →
  _channels w !! ch = None → ch ∉ object_prototype_members →
  same_bounding_box (viewport w) (default (viewport w) (_oldBBox w)) = true →
  ∃ w', requestChannel ch getOlderMsgs isRetry w
        = (Throw (TypeError "storageHash is undefined"), w')
    ∧ _requestRunning w' !! ch = Some true
    ∧ outbox w' = outbox w
    ∧ ∀ again, requestChannel ch again false w' = (Ret tt, w').
Proof.
  intros Hguard Hidle Hst Hproto Hsame.
  exists (set_oldBBox (Some (default (viewport w) (_oldBBox w))) (set_requestRunning ch true w)).
  split; [|split; [|split]].
  - unfold requestChannel, bind, get, modify. cbn -[genPostData].
    rewrite Hguard, Hidle. rewrite genPostData_run.
    rewrite after_bounding_box_check_same by done.
    cbn. rewrite Hst. by rewrite bool_decide_eq_false_2.
  - cbn. by rewrite lookup_insert_eq.
  - done.
  - intros again. apply requestChannel_in_flight. apply js_truthy_at_true. cbn.
    by rewrite lookup_insert_eq.
Qed.

(** X18.  When the first attempt of a request fails while the client is
    idle, the error callback sends no retry and renders the status, and the
    channel stays marked as in flight: once the client is awake again,
    requests for the channel that are not retries still do nothing. *)
Theorem onError_while_idle (p : Pending) (w : World B) :
  rq_isRetry p = false → isIdle w = true →
  js_truthy_at (rq_channel p) (_requestRunning w) = true →
  onError p w = (Ret tt, renderUpdateStatus w)
  ∧ ∀ again, requestChannel (rq_channel p) again false (set_isIdle false (renderUpdateStatus w))
             = (Ret tt, set_isIdle false (renderUpdateStatus w)).
Proof.
  intros Hretry Hidle Hflag. split.
  - unfold onError. rewrite Hretry. unfold requestChannel, bind, get, modify, ret. cbn.
    by rewrite andb_false_r, Hidle.
  - intros again. by apply requestChannel_in_flight.
Qed.

Lemma after_bounding_box_check_viewport (w : World B) :
  viewport (after_bounding_box_check w) = viewport w.
Proof. by destruct (after_bounding_box_check_fields w) as (_ & _ & _ & _ & ?). Qed.

Lemma after_bounding_box_check_oldBBox (w : World B) :
  _oldBBox (after_bounding_box_check w)
  = Some (if same_bounding_box (viewport w) (default (viewport w) (_oldBBox w))
          then default (viewport w) (_oldBBox w) else viewport w).
Proof. unfold after_bounding_box_check. cbv zeta. by destruct (same_bounding_box _ _). Qed.

Lemma set_oldBBox_id (w : World B) b : _oldBBox w = Some b → set_oldBBox (Some b) w = w.
Proof. destruct w. cbn. by intros ->. Qed.

(** X19.  Building a second request without moving the map never clears
    the chat again, for whatever channel and direction: provided the box in
    view counts as the same as itself, [chat.genPostData] run after
    [chat.genPostData] leaves the page as it is. *)
Theorem genPostData_settles (ch ch2 : string) (getOlderMsgs getOlderMsgs2 : bool) (w : World B) :
  same_bounding_box (viewport w) (viewport w) = true →
  let w1 := (genPostData (AStr ch) getOlderMsgs w).2 in
  (genPostData (AStr ch2) getOlderMsgs2 w1).2 = w1.
Proof.
  intros Hrefl. cbv zeta. rewrite !genPostData_run. cbn [snd].
  set (w1 := after_bounding_box_check w).
  assert (viewport w1 = viewport w) as Hv by apply after_bounding_box_check_viewport.
  pose proof (after_bounding_box_check_oldBBox w) as Hold. fold w1 in Hold.
  assert (same_bounding_box (viewport w1) (default (viewport w1) (_oldBBox w1)) = true) as Hs.
  { rewrite Hold, Hv. cbn. by destruct (same_bounding_box _ (default _ _)) eqn:E. }
  rewrite after_bounding_box_check_same by done. apply set_oldBBox_id.
  by destruct (_oldBBox w1).
Qed.

End DriverMore.
(** ** L. The registry of channels and the tabs *)

Section RegistryMore.
Context {B : Type} `{LatLngBounds B} `{HostPage}.

(** [chat.getChannelDesc] on the list of entries. *)
Lemma getChannelDesc_snoc (t : string) (w w' : World B) (l : list ChannelDesc) (e : ChannelDesc) :
  channels w = l → channels w' = (l ++ [e])%list →
  getChannelDesc (Some t) w'
  = if String.eqb (ch_id e) t then Some e else getChannelDesc (Some t) w.
Proof.
  intros Hl Hl'. unfold getChannelDesc. rewrite Hl, Hl', foldl_app. done.
Qed.

Lemma getChannelDesc_None (w : World B) : getChannelDesc None w = None.
Proof.
  unfold getChannelDesc. induction (channels w) as [|e l IH] using rev_ind; [done|].
  by rewrite foldl_app.
Qed.

Lemma getChannelDesc_list (t : string) (l : list ChannelDesc) (w : World B) :
  channels w = l →
  (getChannelDesc (Some t) w = None ↔ ∀ entry, entry ∈ l → ch_id entry ≠ t)
  ∧ (∀ entry, getChannelDesc (Some t) w = Some entry → entry ∈ l ∧ ch_id entry = t).
Proof.
  revert w. induction l as [|e l IH] using rev_ind; intros w Hl.
  { unfold getChannelDesc. rewrite Hl. cbn. split; [|done].
    split; [by intros _ entry ?%elem_of_nil|done]. }
  destruct (IH (set_channels l w) eq_refl) as [IHn IHs].
  rewrite (getChannelDesc_snoc t (set_channels l w) w l e eq_refl Hl).
  destruct (String.eqb_spec (ch_id e) t) as [Heq|Hne].
  - split.
    + split; [done|]. intros Hall. destruct (Hall e); [|done].
      apply elem_of_app. right. by apply list_elem_of_singleton.
    + intros entry [= <-]. split; [|done].
      apply elem_of_app. right. by apply list_elem_of_singleton.
  - split.
    + rewrite IHn. split.
      * intros Hall entry [Hin|Hin%list_elem_of_singleton]%elem_of_app; [by apply Hall|].
        by subst.
      * intros Hall entry Hin. apply Hall, elem_of_app. by left.
    + intros entry Hentry. destruct (IHs entry Hentry) as [Hin ?]. split; [|done].
      apply elem_of_app. by left.
Qed.

Lemma getChannelDesc_last (t : string) (w : World B) before entry after :
  channels w = (before ++ entry :: after)%list → ch_id entry = t →
  (∀ e, e ∈ after → ch_id e ≠ t) →
  getChannelDesc (Some t) w = Some entry.
Proof.
  intros Hl Hid Hafter. unfold getChannelDesc. rewrite Hl, foldl_app. cbn [foldl].
  destruct (String.eqb_spec (ch_id entry) t) as [_|]; [|done]. clear Hl.
  induction after as [|e after IH] using rev_ind; [done|].
  rewrite foldl_app. cbn.
  destruct (String.eqb_spec (ch_id e) t) as [Heq|Hne].
  - destruct (Hafter e); [|done]. apply elem_of_app. right. by apply list_elem_of_singleton.
  - apply IH. intros e' He'. apply Hafter, elem_of_app. by left.
Qed.

(** X20.  [chat.getChannelDesc] finds an entry exactly when some entry has
    the id asked for, and then returns an entry with that id: the last one,
    if several share it.  Asked for [undefined], as when no tab is active,
    it finds nothing. *)
Theorem getChannelDesc_finds (t : string) (w : World B) :
  (getChannelDesc (Some t) w = None ↔ ∀ entry, entry ∈ channels w → ch_id entry ≠ t)
  ∧ (∀ entry, getChannelDesc (Some t) w = Some entry → entry ∈ channels w ∧ ch_id entry = t)
  ∧ (∀ before entry after,
       channels w = (before ++ entry :: after)%list → ch_id entry = t →
       (∀ e, e ∈ after → ch_id e ≠ t) →
       getChannelDesc (Some t) w = Some entry)
  ∧ getChannelDesc None w = None.
Proof.
  destruct (getChannelDesc_list t (channels w) w eq_refl) as [Hn Hs].
  split; [done|]. split; [done|]. split; [apply getChannelDesc_last|apply getChannelDesc_None].
Qed.

Lemma addChannel_run isTabsSetup (channelDesc : ChannelDesc) (w : World B) :
  addChannel isTabsSetup channelDesc w =
  if String.eqb (ch_id channelDesc) "info" || String.eqb (ch_id channelDesc) "map"
  then (Ret false,
        add_log (LogWarn (addChannel_warning (ch_id channelDesc) "reserved")) w)
  else match getChannelDesc (Some (ch_id channelDesc)) w with
       | Some _ =>
           (Ret false,
            add_log (LogWarn (addChannel_warning (ch_id channelDesc) "already exist")) w)
       | None =>
           (Ret true,
            let w1 := set_channels (channels w ++ [channelDesc]) w in
            if isTabsSetup then createChannelTab channelDesc w1 else w1)
       end.
Proof.
  unfold addChannel, bind, get, modify, ret, when. cbn.
  destruct (_ || _); [done|].
  destruct (getChannelDesc _ w); [done|]. by destruct isTabsSetup.
Qed.

(** X21.  [chat.addChannel] keeps the ids of the registry distinct.  It
    refuses, with a warning and without touching the registry, the ids
    [info] and [map] and an id that is already there; otherwise it appends
    the entry, which [chat.getChannelDesc] then finds.  Every entry found
    before is found after, and no channel state is created. *)
Theorem addChannel_registry (isTabsSetup : bool) (channelDesc : ChannelDesc) (w : World B) :
  NoDup (ch_id <$> channels w) →
  ∃ ok w', addChannel isTabsSetup channelDesc w = (Ret ok, w')
    ∧ NoDup (ch_id <$> channels w')
    ∧ (ok = false ↔ ch_id channelDesc = "info" ∨ ch_id channelDesc = "map"
                    ∨ ∃ entry, entry ∈ channels w ∧ ch_id entry = ch_id channelDesc)
    ∧ (ok = false → channels w' = channels w ∧ ∃ warning, log w' = (log w ++ [LogWarn warning])%list)
    ∧ (ok = true → channels w' = (channels w ++ [channelDesc])%list
                   ∧ getChannelDesc (Some (ch_id channelDesc)) w' = Some channelDesc)
    ∧ (∀ t entry, getChannelDesc (Some t) w = Some entry →
                  getChannelDesc (Some t) w' = Some entry)
    ∧ _channels w' = _channels w.
Proof.
  intros Hnd. rewrite addChannel_run.
  destruct (getChannelDesc_list (ch_id channelDesc) (channels w) w eq_refl) as [Hnone Hsome].
  destruct (String.eqb_spec (ch_id channelDesc) "info") as [Hinfo|Hinfo]; cbn [orb].
  { eexists _, _. split; [done|]. split; [done|]. split; [by split; auto|].
    split; [by eauto|]. split; [done|]. by split. }
  destruct (String.eqb_spec (ch_id channelDesc) "map") as [Hmap|Hmap].
  { eexists _, _. split; [done|]. split; [done|]. split; [by split; auto|].
    split; [by eauto|]. split; [done|]. by split. }
  destruct (getChannelDesc (Some (ch_id channelDesc)) w) as [found|] eqn:Hfound.
  { destruct (Hsome found eq_refl) as [Hin Hid].
    eexists _, _. split; [done|]. split; [done|].
    split; [split; [|done]; intros _; right; right; by exists found|].
    split; [by eauto|]. split; [done|]. by split. }
  assert (∀ entry, entry ∈ channels w → ch_id entry ≠ ch_id channelDesc) as Hfresh
    by (by apply Hnone).
  set (w1 := set_channels (channels w ++ [channelDesc]) w).
  set (w' := if isTabsSetup then createChannelTab channelDesc w1 else w1).
  assert (channels w' = (channels w ++ [channelDesc])%list) as Hch
    by (subst w' w1; by destruct isTabsSetup).
  assert (_channels w' = _channels w) as Hst by (subst w' w1; by destruct isTabsSetup).
  exists true, w'. split; [done|]. split; [|split; [|split; [|split; [|split]]]].
  - rewrite Hch, fmap_app. apply NoDup_app. split; [done|]. split; [|apply NoDup_singleton].
    intros id Hid Hid2. cbn in Hid2. apply list_elem_of_singleton in Hid2 as ->.
    apply list_elem_of_fmap in Hid as (entry & Heq & Hin). by destruct (Hfresh entry).
  - split; [done|]. intros [?|[?|(entry & Hin & Heq)]]; [done|done|]. by destruct (Hfresh entry).
  - done.
  - intros _. split; [done|].
    rewrite (getChannelDesc_snoc _ w w' (channels w) channelDesc eq_refl Hch).
    by destruct (String.eqb_spec (ch_id channelDesc) (ch_id channelDesc)).
  - intros t entry Hentry.
    rewrite (getChannelDesc_snoc _ w w' (channels w) channelDesc eq_refl Hch).
    destruct (String.eqb_spec (ch_id channelDesc) t) as [Heq|]; [|done].
    subst t. congruence.
  - done.
Qed.

(** *** Setting up *)

Lemma setupTabs_foldl (l : list ChannelDesc) (w : World B) :
  let w' := foldl (λ w entry, createChannelTab entry (initChannelData entry w)) w l in
  channels w' = channels w
  ∧ (∀ ch, _channels w' !! ch
           = if bool_decide (ch ∈ ch_id <$> l) then Some initChannelState else _channels w !! ch)
  ∧ (∀ k, containers w' !! k
          = if bool_decide (k ∈ (container_id ∘ ch_id) <$> l)
            then Some {| hidden := false; html := "<table></table>"; needsClearing := false |}
            else containers w !! k)
  ∧ _requestRunning w' = _requestRunning w ∧ outbox w' = outbox w ∧ log w' = log w
  ∧ stored_tab w' = stored_tab w ∧ active w' = active w.
Proof.
  cbv zeta. induction l as [|e l IH] using rev_ind; [by repeat split|].
  rewrite foldl_app. cbn [foldl].
  destruct IH as (Hch & Hst & Hco & Hrun & Hout & Hlog & Htab & Hact).
  split; [done|]. split; [|split; [|done]].
  - intros ch. cbn. rewrite fmap_app. cbn.
    destruct (decide (ch = ch_id e)) as [->|Hne].
    + rewrite lookup_insert_eq, bool_decide_eq_true_2; [done|].
      apply elem_of_app. right. by apply list_elem_of_singleton.
    + rewrite lookup_insert_ne by done. rewrite Hst.
      assert (ch ∈ ch_id <$> l ↔ ch ∈ ((ch_id <$> l) ++ [ch_id e])%list) as Hiff
        by (rewrite elem_of_app, list_elem_of_singleton; tauto).
      by rewrite (bool_decide_ext _ _ Hiff).
  - intros k. cbn. rewrite fmap_app. cbn.
    destruct (decide (k = container_id (ch_id e))) as [->|Hne].
    + rewrite lookup_insert_eq, bool_decide_eq_true_2; [done|].
      apply elem_of_app. right. by apply list_elem_of_singleton.
    + rewrite lookup_insert_ne by done. rewrite Hco.
      assert (k ∈ container_id ∘ ch_id <$> l
              ↔ k ∈ ((container_id ∘ ch_id <$> l) ++ [container_id (ch_id e)])%list) as Hiff
        by (rewrite elem_of_app, list_elem_of_singleton; tauto).
      by rewrite (bool_decide_ext _ _ Hiff).
Qed.

Lemma setupTabs_entries (w : World B) :
  channels (setupTabs w) = channels w
  ∧ ∀ entry, entry ∈ channels w →
      _channels (setupTabs w) !! ch_id entry = Some initChannelState
      ∧ containers (setupTabs w) !! container_id (ch_id entry)
        = Some {| hidden := false; html := "<table></table>"; needsClearing := false |}.
Proof.
  unfold setupTabs.
  destruct (setupTabs_foldl (channels w) w) as (Hch & Hst & Hco & _).
  split; [done|]. intros entry Hin. rewrite Hst, Hco. split.
  - rewrite bool_decide_eq_true_2; [done|]. apply list_elem_of_fmap. by exists entry.
  - rewrite bool_decide_eq_true_2; [done|]. apply list_elem_of_fmap. by exists entry.
Qed.

(** X22.  After [chat.setupTabs] every registered channel has the state of
    a fresh channel and a visible, empty display that does not wait to be
    cleared; the registry itself, the requests in flight and the requests
    sent are as before, and a state outside the registry is left alone. *)
Theorem setupTabs_ready (w : World B) :
  let w' := setupTabs w in
  channels w' = channels w
  ∧ (∀ entry, entry ∈ channels w →
       _channels w' !! ch_id entry = Some initChannelState
       ∧ containers w' !! container_id (ch_id entry)
         = Some {| hidden := false; html := "<table></table>"; needsClearing := false |})
  ∧ (∀ ch, ch ∉ ch_id <$> channels w → _channels w' !! ch = _channels w !! ch)
  ∧ _requestRunning w' = _requestRunning w ∧ outbox w' = outbox w.
Proof.
  cbv zeta. destruct (setupTabs_entries w) as [Hch Hentries]. unfold setupTabs in *.
  destruct (setupTabs_foldl (channels w) w) as (_ & Hst & _ & Hrun & Hout & _).
  split; [done|]. split; [done|]. split; [|done].
  intros ch Hch'. rewrite Hst. by rewrite bool_decide_eq_false_2.
Qed.

End RegistryMore.
Section TabsMore.
Context {B : Type} `{LatLngBounds B} `{HostPage}.

Lemma chooseTab_run (tab : JsArg) (w : World B) :
  chooseTab tab w =
  let invalid := forallb (λ entry, negb (str_strict_eq (ch_id entry) tab)) (channels w) in
  let t := if invalid then "all" else js_toString tab in
  let w1 := set_tab (Some t) (active w)
              (if invalid then add_log (LogWarn (invalid_tab_warning tab w)) w else w) in
  match getChannelDesc (Some t) w with
  | None => (Throw (TypeError "channel is null"), w1)
  | Some channel =>
      let w2 := show_only t
                  (set_tab (Some t)
                     (if bool_decide (is_Some (containers w !! container_id t))
                      then Some t else None) w1) in
      if render channel then renderChannel t false w2 else (Ret tt, w2)
  end.
Proof.
  unfold chooseTab, bind, get, modify, ret, when, throw. cbn -[renderChannel].
  destruct (forallb _ (channels w)); cbn -[renderChannel];
    (destruct (getChannelDesc _ w) as [channel|]; [|done]);
    cbn -[renderChannel]; by destruct (render channel).
Qed.

Lemma show_only_lookup t (w : World B) k c :
  containers (show_only t w) !! k = Some c →
  hidden c = negb (bool_decide (k = container_id t)) ∧ is_Some (containers w !! k).
Proof.
  cbn. destruct (decide (k = container_id t)) as [->|Hne].
  - rewrite lookup_alter_eq, lookup_fmap, bool_decide_eq_true_2 by done.
    destruct (containers w !! container_id t); [|done]. cbn. intros [= <-]. by split.
  - rewrite lookup_alter_ne, lookup_fmap, bool_decide_eq_false_2 by done.
    destruct (containers w !! k); [|done]. cbn. intros [= <-]. by split.
Qed.

Lemma show_only_is_Some t (w : World B) k :
  is_Some (containers (show_only t w) !! k) ↔ is_Some (containers w !! k).
Proof.
  cbn. destruct (decide (k = container_id t)) as [->|Hne].
  - rewrite lookup_alter_eq, lookup_fmap. by rewrite !fmap_is_Some.
  - rewrite lookup_alter_ne, lookup_fmap by done. by rewrite fmap_is_Some.
Qed.

(** X23.  [chat.chooseTab], asked for a tab or falling back to [all],
    records the tab as the stored one and, provided its channel is
    registered, leaves the display of that tab as the only visible one,
    whether or not the rendering that follows succeeds.  It creates and
    removes no display, changes no channel state, and neither sends a
    request nor touches the in-flight flags. *)
Theorem chooseTab_shows_only (tab : JsArg) (w : World B) :
  let t := if forallb (λ entry, negb (str_strict_eq (ch_id entry) tab)) (channels w)
           then "all" else js_toString tab in
  is_Some (getChannelDesc (Some t) w) →
  let w' := (chooseTab tab w).2 in
  stored_tab w' = Some t
  ∧ (∀ k c, containers w' !! k = Some c → hidden c = negb (bool_decide (k = container_id t)))
  ∧ (∀ k, is_Some (containers w' !! k) ↔ is_Some (containers w !! k))
  ∧ _channels w' = _channels w ∧ _requestRunning w' = _requestRunning w
  ∧ outbox w' = outbox w.
Proof.
  cbv zeta. intros [channel Hchannel]. rewrite chooseTab_run. cbv zeta. rewrite Hchannel.
  set (t := if forallb _ _ then "all" else js_toString tab) in *.
  set (w2 := show_only t _).
  assert (stored_tab w2 = Some t) as Htab by done.
  assert (_channels w2 = _channels w ∧ _requestRunning w2 = _requestRunning w
          ∧ outbox w2 = outbox w) as (Hst & Hrun & Hout).
  { subst w2. cbn. by destruct (forallb _ _). }
  assert (∀ k c, containers w2 !! k = Some c →
            hidden c = negb (bool_decide (k = container_id t))) as Hhid.
  { intros k c Hc. by destruct (show_only_lookup _ _ _ _ Hc). }
  assert (∀ k, is_Some (containers w2 !! k) ↔ is_Some (containers w !! k)) as Hdom.
  { intros k. subst w2. rewrite show_only_is_Some. cbn. by destruct (forallb _ _). }
  assert (∀ w', same_but_html (container_id t) w2 w' →
            stored_tab w' = Some t
            ∧ (∀ k c, containers w' !! k = Some c →
                 hidden c = negb (bool_decide (k = container_id t)))
            ∧ (∀ k, is_Some (containers w' !! k) ↔ is_Some (containers w !! k))
            ∧ _channels w' = _channels w ∧ _requestRunning w' = _requestRunning w
            ∧ outbox w' = outbox w) as Hgen.
  { intros w' (_ & Hst' & _ & Hrun' & _ & _ & _ & _ & _ & Hout' & Htab' & _ & Hcont).
    split; [congruence|]. split; [|split; [|split; [congruence|split; congruence]]].
    - intros k c Hc. destruct (Hcont k) as (Hh & _ & _). rewrite Hc in Hh.
      destruct (containers w2 !! k) as [c2|] eqn:Hc2; [|discriminate Hh].
      injection Hh as ->. by apply (Hhid k).
    - intros k. rewrite <- Hdom. destruct (Hcont k) as (Hh & _ & _).
      rewrite <- !(fmap_is_Some hidden), Hh. done. }
  destruct (render channel).
  - apply Hgen, renderChannel_same.
  - apply Hgen, same_but_html_refl.
Qed.

Lemma forallb_false_elem {A} (f : A → bool) (l : list A) :
  forallb f l = false → ∃ x, x ∈ l ∧ f x = false.
Proof.
  induction l as [|x l IH]; [done|]. cbn. destruct (f x) eqn:Hx.
  - intros Hl. destruct (IH Hl) as (y & ? & ?). exists y. split; [by right|done].
  - intros _. exists x. split; [by left|done].
Qed.

(** X24.  The start of [chat.setup]: once [chat.setupTabs] has run on a
    registry that holds the channel [all], [chat.chooseTab] returns
    normally for every argument, a tab kept from an earlier session that
    no longer exists included, and leaves some tab both stored and
    active. *)
Theorem chooseTab_after_setupTabs (w : World B) (tab : JsArg) :
  (∃ entry, entry ∈ channels w ∧ ch_id entry = "all") →
  ∃ w', chooseTab tab (setupTabs w) = (Ret tt, w')
    ∧ is_Some (stored_tab w') ∧ active w' = stored_tab w'.
Proof.
  intros (all & Hall & Hallid).
  destruct (setupTabs_entries w) as [Hch Hready].
  set (ws := setupTabs w) in *.
  rewrite chooseTab_run. cbv zeta.
  set (t := if forallb _ _ then "all" else js_toString tab).
  assert (∃ entry, entry ∈ channels w ∧ ch_id entry = t) as (entry & Hentry & Hid).
  { subst t. destruct (forallb _ (channels ws)) eqn:Hvalid; [by exists all|].
    apply forallb_false_elem in Hvalid as (entry & Hin & Heq).
    rewrite Hch in Hin. exists entry. split; [done|].
    apply negb_false_iff in Heq. destruct tab; try done. cbn in Heq.
    by apply String.eqb_eq in Heq. }
  destruct (Hready entry Hentry) as [Hst Hco]. rewrite Hid in Hst, Hco.
  destruct (getChannelDesc_list t (channels ws) ws eq_refl) as [Hnone _].
  destruct (getChannelDesc (Some t) ws) as [channel|] eqn:Hchannel.
  2:{ destruct (proj1 Hnone eq_refl entry); [by rewrite Hch|done]. }
  rewrite Hco. rewrite bool_decide_eq_true_2 by by eexists.
  set (w2 := show_only t _).
  assert (stored_tab w2 = Some t ∧ active w2 = Some t) as [Htab Hact] by done.
  destruct (render channel).
  - destruct (renderChannel_ok t false w2 initChannelState) as (frags & _ & ->).
    { subst w2. cbn. by destruct (forallb _ _). }
    { by intros g ?%elem_of_nil. }
    eexists. split; [done|]. destruct (is_hidden _ w2); cbn; by eauto.
  - eexists. split; [done|]. cbn. by eauto.
Qed.

(** *** The refresh function *)

Lemma requestChannel_running (w : World B) ch older isRetry d :
  _requestRunning (postAjax {| rq_channel := ch; rq_data := d; rq_getOlderMsgs := older;
                               rq_isRetry := isRetry |}
                     (after_bounding_box_check (set_requestRunning ch true w)))
  = <[ch := true]> (_requestRunning w).
Proof.
  destruct (after_bounding_box_check_fields (set_requestRunning ch true w))
    as (_ & Hrun & _). cbn. by rewrite Hrun.
Qed.

Lemma js_truthy_at_insert_ne ch ch' v (flags : gmap string bool) :
  ch ≠ ch' → js_truthy_at ch (<[ch' := v]> flags) = js_truthy_at ch flags.
Proof. intros Hne. unfold js_truthy_at. by rewrite lookup_insert_ne. Qed.

Lemma chat_request_loop act bg (l : list ChannelDesc) (w : World B) :
  isIdle w = false → NoDup (ch_id <$> l) →
  (∀ e, e ∈ l → is_Some (_channels w !! ch_id e)) →
  ∃ w' new,
    forEach l (λ entry, when (wants_refresh act bg entry)
                          (when (request entry) (requestChannel (ch_id entry) false false))) w
    = (Ret tt, w')
    ∧ outbox w' = (outbox w ++ new)%list
    ∧ rq_channel <$> new
      = ch_id <$> List.filter (λ e, wants_refresh act bg e && request e
                                    && negb (js_truthy_at (ch_id e) (_requestRunning w))) l
    ∧ Forall (λ p, rq_getOlderMsgs p = false ∧ rq_isRetry p = false
                   ∧ tab (rq_data p) = rq_channel p) new.
Proof.
  revert w. induction l as [|e l IH]; intros w Hidle Hnd Hst.
  { exists w, []. by rewrite app_nil_r. }
  cbn in Hnd. apply NoDup_cons in Hnd as [Hnotin Hnd].
  assert (∀ w1, isIdle w1 = false →
            (∀ ch, is_Some (_channels w !! ch) → is_Some (_channels w1 !! ch)) →
            (∀ e', e' ∈ l → js_truthy_at (ch_id e') (_requestRunning w1)
                            = js_truthy_at (ch_id e') (_requestRunning w)) →
            ∃ w' new,
              forEach l (λ entry, when (wants_refresh act bg entry)
                           (when (request entry) (requestChannel (ch_id entry) false false))) w1
              = (Ret tt, w')
              ∧ outbox w' = (outbox w1 ++ new)%list
              ∧ rq_channel <$> new
                = ch_id <$> List.filter (λ e, wants_refresh act bg e && request e
                                 && negb (js_truthy_at (ch_id e) (_requestRunning w))) l
              ∧ Forall (λ p, rq_getOlderMsgs p = false ∧ rq_isRetry p = false
                             ∧ tab (rq_data p) = rq_channel p) new) as Hrest.
  { intros w1 Hidle1 Hst1 Hrun1.
    destruct (IH w1 Hidle1 Hnd) as (w' & new & Hrun & Hout & Hnew & Hall).
    { intros e' He'. apply Hst1, Hst. by right. }
    exists w', new. split; [done|]. split; [done|]. split; [|done].
    rewrite Hnew. f_equal. apply filter_ext_in. intros e' He'.
    rewrite Hrun1; [done|]. by apply list_elem_of_In. }
  cbn [forEach List.filter]. unfold bind at 1.
  destruct (wants_refresh act bg e && request e) eqn:Hwant.
  2:{ assert (when (wants_refresh act bg e)
                (when (request e) (requestChannel (ch_id e) false false)) w = (Ret tt, w)) as ->.
      { apply andb_false_iff in Hwant as [->| ->]; [done|]. by destruct (wants_refresh _ _ _). }
      cbn [andb]. by apply Hrest. }
  apply andb_true_iff in Hwant as [-> ->]. cbn [when andb].
  destruct (js_truthy_at (ch_id e) (_requestRunning w)) eqn:Hflag; cbn [negb].
  - rewrite requestChannel_in_flight by done. by apply Hrest.
  - destruct (requestChannel_issues w (ch_id e) false false) as (d & Htab & ->);
      [by rewrite Hflag|done|apply Hst; by left|].
    set (p := {| rq_channel := ch_id e; rq_data := d; rq_getOlderMsgs := false;
                 rq_isRetry := false |}).
    destruct (issued_fields w (ch_id e) p) as (Hout1 & _ & Hidle1 & _).
    destruct (Hrest (postAjax p (after_bounding_box_check (set_requestRunning (ch_id e) true w))))
      as (w' & new & Hrun & Hout & Hnew & Hall).
    + by rewrite Hidle1.
    + intros ch Hch. cbn. apply after_bounding_box_check_keeps_state. by cbn.
    + intros e' He'. subst p. rewrite requestChannel_running.
      apply js_truthy_at_insert_ne. intros Heq. apply Hnotin. rewrite <- Heq.
      apply list_elem_of_fmap. by exists e'.
    + exists w', (p :: new). split; [done|]. split; [|split].
      * rewrite Hout, Hout1. by rewrite <- app_assoc.
      * cbn. by rewrite Hnew.
      * constructor; [done|done].
Qed.

Lemma chat_request_idle_loop act bg (l : list ChannelDesc) (w : World B) :
  isIdle w = true →
  ∃ w', forEach l (λ entry, when (wants_refresh act bg entry)
                     (when (request entry) (requestChannel (ch_id entry) false false))) w
        = (Ret tt, w')
    ∧ outbox w' = outbox w ∧ _channels w' = _channels w
    ∧ _requestRunning w' = _requestRunning w ∧ containers w' = containers w.
Proof.
  revert w. induction l as [|e l IH]; intros w Hidle; [by exists w|].
  cbn [forEach]. unfold bind at 1.
  assert (∃ w1, when (wants_refresh act bg e)
                  (when (request e) (requestChannel (ch_id e) false false)) w = (Ret tt, w1)
            ∧ isIdle w1 = true ∧ outbox w1 = outbox w ∧ _channels w1 = _channels w
            ∧ _requestRunning w1 = _requestRunning w ∧ containers w1 = containers w)
    as (w1 & -> & Hidle1 & Hout1 & Hst1 & Hrun1 & Hco1).
  { destruct (wants_refresh act bg e); [|by exists w].
    destruct (request e); [|by exists w]. cbn [when].
    unfold requestChannel, bind, get, modify, ret. cbn. rewrite Hidle.
    destruct (js_truthy_at _ _ && true); [by exists w|by eexists]. }
  destruct (IH w1 Hidle1) as (w' & -> & Hout & Hst & Hrun & Hco).
  exists w'. split; [done|]. by rewrite Hout, Hst, Hrun, Hco.
Qed.

(** X25.  [chat.request] on a client that is awake, whose channels have
    distinct ids and each a state: one request is sent, in the order of
    the registry, for every channel that is the active tab or flagged for
    background monitoring, asks for requests and is not in flight; each
    asks for newer messages and is a first attempt.  On an idle client
    nothing is sent and neither the stored messages, the in-flight flags
    nor the displays change. *)
Theorem chat_request_refreshes (bg : option (gmap string bool)) (w : World B) :
  (isIdle w = false → NoDup (ch_id <$> channels w) →
   (∀ e, e ∈ channels w → is_Some (_channels w !! ch_id e)) →
   ∃ w' new, chat_request bg w = (Ret tt, w')
     ∧ outbox w' = (outbox w ++ new)%list
     ∧ rq_channel <$> new
       = ch_id <$> List.filter (λ e, wants_refresh (active w) bg e && request e
                                     && negb (js_truthy_at (ch_id e) (_requestRunning w)))
                               (channels w)
     ∧ Forall (λ p, rq_getOlderMsgs p = false ∧ rq_isRetry p = false
                    ∧ tab (rq_data p) = rq_channel p) new)
  ∧ (isIdle w = true →
     ∃ w', chat_request bg w = (Ret tt, w')
       ∧ outbox w' = outbox w ∧ _channels w' = _channels w
       ∧ _requestRunning w' = _requestRunning w ∧ containers w' = containers w).
Proof.
  split.
  - intros Hidle Hnd Hst. apply (chat_request_loop (active w) bg (channels w) w Hidle Hnd Hst).
  - intros Hidle. apply (chat_request_idle_loop (active w) bg (channels w) w Hidle).
Qed.

End TabsMore.
(** ** M. An invariant of the page *)

Section InvariantMore.
Context {B : Type} `{LatLngBounds B} `{HostPage}.








Lemma setupTabs_consistent (w : World B) :
  stores_consistent w → stores_consistent (setupTabs w).
Proof.
  intros Hc. destruct (setupTabs_foldl (channels w) w) as (_ & Hst & _).
  intros ch st. unfold setupTabs. rewrite Hst. destruct (bool_decide _).
  - intros [= <-]. apply initChannelState_order_integrity.
  - apply Hc.
Qed.

Lemma initial_world_consistent (b : B) : stores_consistent (initial_world b).
Proof. intros ch st Hst. cbn in Hst. by rewrite lookup_empty in Hst. Qed.



End InvariantMore.
(** ** N. Background monitoring, posting and the legacy order *)

Section BackgroundMore.

Lemma foldr_flag_channel (l : list (string * bool)) (acc : gmap string bool) (c : string) :
  foldr (uncurry flag_channel) acc l !! c = Some true
  ↔ acc !! c = Some true ∨ (c, true) ∈ l.
Proof.
  induction l as [|[k v] l IH]; cbn.
  { split; [by left|]. by intros [?|?%elem_of_nil]. }
  unfold flag_channel at 1. destruct v.
  - destruct (decide (c = k)) as [->|Hne].
    + rewrite lookup_insert_eq. split; [|done]. intros _. right. by left.
    + rewrite lookup_insert_ne by done. rewrite IH, elem_of_cons.
      split; [tauto|]. intros [?|[[=]|?]]; tauto.
  - rewrite IH, elem_of_cons. split; [tauto|]. intros [?|[[=]|?]]; tauto.
Qed.

Lemma foldr_flag_channel_true (l : list (string * bool)) (acc : gmap string bool) (c : string) :
  acc !! c ≠ Some false → foldr (uncurry flag_channel) acc l !! c ≠ Some false.
Proof.
  intros Hacc. induction l as [|[k v] l IH]; cbn; [done|].
  unfold flag_channel at 1. destruct v; [|done].
  destruct (decide (c = k)) as [->|Hne].
  - by rewrite lookup_insert_eq.
  - by rewrite lookup_insert_ne.
Qed.

Lemma merge_flags_foldr (l : list (string * gmap string bool)) (c : string) :
  let flags := foldr (uncurry (λ (_ : string) channels acc, map_fold flag_channel acc channels))
                     ∅ l in
  (flags !! c = Some true ↔ ∃ i channels, (i, channels) ∈ l ∧ channels !! c = Some true)
  ∧ flags !! c ≠ Some false.
Proof.
  cbv zeta. induction l as [|[i channels] l [IH1 IH2]]; cbn.
  { rewrite lookup_empty. split; [|done]. split; [done|]. by intros (? & ? & ?%elem_of_nil & _). }
  rewrite map_fold_foldr. split.
  - rewrite foldr_flag_channel, IH1, elem_of_map_to_list. split.
    + intros [(j & chans & Hin & Hc)|Hc].
      * exists j, chans. split; [by right|done].
      * exists i, channels. split; [by left|done].
    + intros (j & chans & [[= -> ->]|Hin]%elem_of_cons & Hc); [by right|].
      left. by exists j, chans.
  - by apply foldr_flag_channel_true.
Qed.

(** X27.  After [chat.backgroundChannelData] the flag of the instance for
    the channel is stored, the wishes of the other instances are as they
    were, and the merged flags, which [chat.request] reads, mark exactly
    the channels that some instance wants monitored: an instance that
    stops monitoring a channel does not switch it off for the others. *)
Theorem backgroundChannelData_merged (instance channel : string) (flag : bool)
    (bg : Background) :
  let bg' := backgroundChannelData instance channel flag bg in
  ∃ instances flags,
    backgroundInstanceChannel bg' = Some instances
    ∧ backgroundChannels bg' = Some flags
    ∧ (∃ own, instances !! instance = Some own ∧ own !! channel = Some flag
              ∧ ∀ c, c ≠ channel →
                  own !! c = default ∅ (default ∅ (backgroundInstanceChannel bg) !! instance) !! c)
    ∧ (∀ i, i ≠ instance →
         instances !! i = default ∅ (backgroundInstanceChannel bg) !! i)
    ∧ (∀ c, flags !! c = Some true
            ↔ ∃ i channels, instances !! i = Some channels ∧ channels !! c = Some true)
    ∧ (∀ c, flags !! c ≠ Some false).
Proof.
  cbv zeta. unfold backgroundChannelData. cbv zeta. eexists _, _.
  split; [reflexivity|]. split; [reflexivity|]. split; [|split; [|split]].
  - eexists. rewrite lookup_insert_eq. split; [done|]. rewrite lookup_insert_eq.
    split; [done|]. intros c Hne. by rewrite lookup_insert_ne.
  - intros i Hne. by rewrite lookup_insert_ne.
  - intros c. unfold merge_flags. rewrite map_fold_foldr.
    destruct (merge_flags_foldr (map_to_list (<[instance := <[channel := flag]>
                (default ∅ (default ∅ (backgroundInstanceChannel bg) !! instance))]>
                (default ∅ (backgroundInstanceChannel bg)))) c) as [-> _].
    split; intros (i & chans & Hin & Hc); exists i, chans; split; try done;
      by apply elem_of_map_to_list.
  - intros c. unfold merge_flags. rewrite map_fold_foldr.
    apply (merge_flags_foldr _ c).
Qed.

End BackgroundMore.

Section PostingMore.
Context {B : Type}.

Lemma append_assoc_string (s t u : string) : (s +:+ t) +:+ u = s +:+ (t +:+ u).
Proof.
  induction s as [|c s IH]; [done|].
  change (String c ((s +:+ t) +:+ u) = String c (s +:+ (t +:+ u))). by rewrite IH.
Qed.

Lemma errMsg_ends (msg : string) : ∃ text, errMsg (Some msg) = text +:+ msg.
Proof.
  exists ("Your message could not be delivered. You can copy&paste it here and try again if you want:"
          +:+ newline +:+ newline).
  unfold errMsg. by rewrite !append_assoc_string.
Qed.

(** X28.  [chat.sendChatMessage] posts to the tabs [all] and [faction]
    only; for any other tab it does nothing.  The request carries the
    message, the tab and the centre of the map.  A failed delivery is never
    silent: on a transport error and on an error response the user is
    shown a text that ends with the message; every response, failed or
    not, asks for an early refresh. *)
Theorem sendChatMessage_delivery (tab msg : string) (d : Desk) :
  (tab ≠ "all" → tab ≠ "faction" → sendChatMessage tab (Some msg) d = d)
  ∧ (tab = "all" ∨ tab = "faction" →
     ∃ p, sendPlext (sendChatMessage tab (Some msg) d) = (sendPlext d ++ [p])%list
       ∧ p = {| sd_message := Some msg; sd_latE6 := center_latE6 d;
                sd_lngE6 := center_lngE6 d; sd_tab := tab |}
       ∧ alerts (sendChatMessage tab (Some msg) d) = alerts d
       ∧ chatinput (sendChatMessage tab (Some msg) d) = chatinput d
       ∧ ∀ later,
           (∃ text, alerts (sendPlext_error p later) = (alerts later ++ [text +:+ msg])%list)
           ∧ (∃ text, alerts (sendPlext_success p true later)
                      = (alerts later ++ [text +:+ msg])%list)
           ∧ alerts (sendPlext_success p false later) = alerts later
           ∧ ∀ failed, refreshTimeouts (sendPlext_success p failed later)
                       = (refreshTimeouts later ++ [100])%list).
Proof.
  unfold sendChatMessage. split.
  - intros Hall Hfaction.
    destruct (String.eqb_spec tab "all"); [done|]. by destruct (String.eqb_spec tab "faction").
  - intros Htab.
    assert (negb (String.eqb tab "all") && negb (String.eqb tab "faction") = false) as ->.
    { by destruct Htab as [-> | ->]. }
    eexists. split; [reflexivity|]. split; [reflexivity|]. split; [done|]. split; [done|].
    intros later. unfold sendPlext_error, sendPlext_success. cbn -[errMsg].
    split; [|split; [|split]].
    + destruct (errMsg_ends msg) as [text ->]. by exists text.
    + destruct (errMsg_ends msg) as [text ->]. by exists text.
    + done.
    + by intros [].
Qed.

(** X29.  [chat.postMsg] does nothing for an input that is empty once
    trimmed, and throws, keeping the input, when no registered tab is
    active.  On the tabs [all] and [faction] it calls the [sendMessage]
    of the entry with the text alone, which [chat.sendChatMessage] takes
    for the tab: the input box is cleared and no request carries the text
    as its message; a request is sent only for a text that is itself
    [all] or [faction], and then without a message.  On the tab [alerts]
    the user is told that the channel takes no messages. *)
Theorem postMsg_sends (trim : string → string) (w : World B) (d : Desk) :
  let msg := trim (chatinput d) in
  (msg = "" → postMsg trim stock_sendMessage w d = (Ret tt, d))
  ∧ (msg ≠ "" → getChannelDesc (active w) w = None →
     postMsg trim stock_sendMessage w d = (Throw (TypeError "channel is null"), d))
  ∧ (msg ≠ "" → ∀ entry, getChannelDesc (active w) w = Some entry →
     ch_id entry = "all" ∨ ch_id entry = "faction" →
     ∃ d', postMsg trim stock_sendMessage w d = (Ret tt, d')
       ∧ chatinput d' = "" ∧ alerts d' = alerts d
       ∧ sendPlext d'
         = (sendPlext d
            ++ if String.eqb msg "all" || String.eqb msg "faction"
               then [ {| sd_message := None; sd_latE6 := center_latE6 d;
                         sd_lngE6 := center_lngE6 d; sd_tab := msg |} ]
               else [])%list)
  ∧ (msg ≠ "" → ∀ entry, getChannelDesc (active w) w = Some entry →
     ch_id entry = "alerts" →
     ∃ d', postMsg trim stock_sendMessage w d = (Ret tt, d')
       ∧ chatinput d' = "" ∧ alerts d' = (alerts d ++ [jarvis_text])%list
       ∧ sendPlext d' = sendPlext d).
Proof.
  cbv zeta. unfold postMsg, bind, get, modify, ret, throw. cbn.
  split; [by intros ->|].
  split; [|split].
  - intros Hmsg ->. by destruct (String.eqb_spec (trim (chatinput d)) "").
  - intros Hmsg entry -> Hid.
    destruct (String.eqb_spec (trim (chatinput d)) "") as [|_]; [done|].
    assert (stock_sendMessage entry = Some SendChatMessage) as ->.
    { unfold stock_sendMessage. by destruct Hid as [-> | ->]. }
    cbn. unfold sendChatMessage.
    destruct (String.eqb (trim (chatinput d)) "all"),
             (String.eqb (trim (chatinput d)) "faction"); cbn;
      eexists; (split; [reflexivity|]); cbn; by rewrite ?app_nil_r.
  - intros Hmsg entry -> Hid.
    destruct (String.eqb_spec (trim (chatinput d)) "") as [|_]; [done|].
    assert (stock_sendMessage entry = Some JarvisAlert) as ->.
    { unfold stock_sendMessage. by rewrite Hid. }
    cbn. eexists. split; [reflexivity|]. done.
Qed.

End PostingMore.

Section LegacyMore.

#[local] Existing Instance older_first_dec.

Lemma older_first_total : Total older_first.
Proof. intros a b. unfold older_first. lia. Qed.

Lemma older_first_trans : Transitive older_first.
Proof. intros a b c. unfold older_first. lia. Qed.

Lemma StronglySorted_lookup {A} (R : relation A) (l : list A) (i j : nat) (a b : A) :
  StronglySorted R l → (i < j)%nat → l !! i = Some a → l !! j = Some b → R a b.
Proof.
  intros Hs. revert i j. induction Hs as [|x l Hs IH Hall]; intros i j Hij Hi Hj; [done|].
  destruct j as [|j]; [lia|]. cbn in Hj. destruct i as [|i].
  - cbn in Hi. injection Hi as ->. rewrite Forall_forall in Hall.
    apply Hall. by eapply list_elem_of_lookup_2.
  - cbn in Hi. apply (IH i j); [lia|done|done].
Qed.

(** X30.  Without an explicit order, the legacy path of [chat.renderData]
    shows every stored message exactly once, oldest first: the order it
    computes lists each key of the map once, and a message never comes
    before one with a smaller timestamp. *)
Theorem legacy_order_sorted (d : gmap string StoredMsg) :
  NoDup (legacy_order d)
  ∧ (∀ g, g ∈ legacy_order d ↔ g ∈ dom d)
  ∧ ∀ (i j : nat) g1 g2 m1 m2,
      (i < j)%nat → legacy_order d !! i = Some g1 → legacy_order d !! j = Some g2 →
      d !! g1 = Some m1 → d !! g2 = Some m2 → m_time m1 ≤ m_time m2.
Proof.
  unfold legacy_order.
  set (pairs := (λ kv : string * StoredMsg, (m_time kv.2, kv.1)) <$> map_to_list d).
  assert (snd <$> merge_sort older_first pairs ≡ₚ (map_to_list d).*1) as Hperm.
  { rewrite merge_sort_Permutation. subst pairs. rewrite <- list_fmap_compose.
    by erewrite list_fmap_ext. }
  assert (∀ p, p ∈ merge_sort older_first pairs →
            ∃ m, d !! p.2 = Some m ∧ p.1 = m_time m) as Hpair.
  { intros p Hp. rewrite merge_sort_Permutation in Hp. subst pairs.
    apply list_elem_of_fmap in Hp as ([g m] & -> & Hin).
    apply elem_of_map_to_list in Hin. by exists m. }
  split; [|split].
  - rewrite Hperm. apply NoDup_fst_map_to_list.
  - intros g. rewrite Hperm, elem_of_dom. split.
    + intros ([g' m] & -> & Hin)%list_elem_of_fmap. apply elem_of_map_to_list in Hin.
      by exists m.
    + intros [m Hm]. apply list_elem_of_fmap. exists (g, m). split; [done|].
      by apply elem_of_map_to_list.
  - intros i j g1 g2 m1 m2 Hij Hi Hj Hm1 Hm2.
    rewrite list_lookup_fmap in Hi, Hj.
    destruct (merge_sort older_first pairs !! i) as [p1|] eqn:Hp1; [|done].
    destruct (merge_sort older_first pairs !! j) as [p2|] eqn:Hp2; [|done].
    cbn in Hi, Hj. injection Hi as <-. injection Hj as <-.
    destruct (Hpair p1) as (m1' & Hm1' & Ht1); [by eapply list_elem_of_lookup_2|].
    destruct (Hpair p2) as (m2' & Hm2' & Ht2); [by eapply list_elem_of_lookup_2|].
    assert (m1' = m1) as -> by congruence. assert (m2' = m2) as -> by congruence.
    rewrite <- Ht1, <- Ht2.
    apply (StronglySorted_lookup older_first (merge_sort older_first pairs) i j p1 p2);
      [|done|done|done].
    apply (@StronglySorted_merge_sort _ older_first _ older_first_trans older_first_total).
Qed.

End LegacyMore.
(** ** O. Instances of the further properties *)

Lemma writeDataToHash_fresh_batch_witness :
  let batch := [raw "g3" 300; raw "g4" 400] in
  NoDup (raw_guid <$> batch)
  ∧ (∀ r, r ∈ batch → js_in (raw_guid r) (data synced_state) = false)
  ∧ guids (writeDataToHash batch synced_state false false) = ["g4"; "g3"; "g1"; "g2"]
  ∧ guids (writeDataToHash batch synced_state false true) = ["g1"; "g2"; "g3"; "g4"].
Proof.
  cbv zeta.
  assert (NoDup (raw_guid <$> [raw "g3" 300; raw "g4" 400])) as Hnd.
  { apply (bool_decide_unpack _). by vm_compute. }
  assert (∀ r, r ∈ [raw "g3" 300; raw "g4" 400] →
            js_in (raw_guid r) (data synced_state) = false) as Hfresh.
  { intros r Hin. apply elem_of_cons in Hin as [->|Hin]; [by vm_compute|].
    apply list_elem_of_singleton in Hin as ->. by vm_compute. }
  split; [exact Hnd|]. split; [exact Hfresh|]. split.
  - etrans; [exact (proj1 (writeDataToHash_fresh_batch _ synced_state false false Hnd Hfresh))|].
    by vm_compute.
  - etrans; [exact (proj1 (writeDataToHash_fresh_batch _ synced_state false true Hnd Hfresh))|].
    by vm_compute.
Defined.

Lemma updateOldNewHash_tie_witness :
  let s := writeDataToHash [raw "g1" 100] initChannelState false false in
  let newData := [raw "g2" 100] in
  head newData = Some (raw "g2" 100) ∧ last newData = Some (raw "g2" 100)
  ∧ oldestTimestamp s = 100
  ∧ oldestGUID (updateOldNewHash newData s true false) = Some "g2"
  ∧ oldestGUID (updateOldNewHash newData s false false) = Some "g1".
Proof.
  cbv zeta. split; [reflexivity|]. split; [reflexivity|]. split; [by vm_compute|]. split.
  - exact (proj2 (proj1 (updateOldNewHash_tie [raw "g2" 100]
             (writeDataToHash [raw "g1" 100] initChannelState false false) true false
             (raw "g2" 100) (raw "g2" 100) eq_refl eq_refl) eq_refl)).
  - etrans; [exact (proj2 (proj1 (updateOldNewHash_tie [raw "g2" 100]
             (writeDataToHash [raw "g1" 100] initChannelState false false) false false
             (raw "g2" 100) (raw "g2" 100) eq_refl eq_refl) eq_refl))|].
    by vm_compute.
Defined.

Lemma handleChannel_consistent_witness :
  stores_consistent sample_world
  ∧ is_Some (_channels sample_world !! "all")
  ∧ ∃ w', handleChannel "all" (Some three_days) false (Some true) sample_world = (Ret tt, w')
      ∧ stores_consistent w'
      ∧ _requestRunning w' !! "all" = Some false.
Proof.
  assert (stores_consistent sample_world) as Hc.
  { apply setupTabs_consistent, initial_world_consistent. }
  assert (is_Some (_channels sample_world !! "all")) as Hst.
  { exists initChannelState. by vm_compute. }
  split; [exact Hc|]. split; [exact Hst|].
  destruct (handleChannel_consistent "all" (Some three_days) false (Some true) sample_world
              Hc Hst) as (w' & Hrun & Hc' & _ & Hflag).
  by exists w'.
Defined.

Lemma handleChannel_page_order_witness :
  let batch := [raw "g3" 300; raw "g4" 400] in
  _channels synced_world !! "all" = Some synced_state
  ∧ NoDup (raw_guid <$> batch)
  ∧ (∀ r, r ∈ batch → js_in (raw_guid r) (data synced_state) = false)
  ∧ ∃ st', _channels (handleChannel "all" (Some batch) false (Some true) synced_world).2 !! "all"
           = Some st'
      ∧ guids st' = ["g4"; "g3"; "g1"; "g2"].
Proof.
  cbv zeta.
  assert (_channels synced_world !! "all" = Some synced_state) as Hst by by vm_compute.
  assert (NoDup (raw_guid <$> [raw "g3" 300; raw "g4" 400])) as Hnd.
  { apply (bool_decide_unpack _). by vm_compute. }
  assert (∀ r, r ∈ [raw "g3" 300; raw "g4" 400] →
            js_in (raw_guid r) (data synced_state) = false) as Hfresh.
  { intros r Hin. apply elem_of_cons in Hin as [->|Hin]; [by vm_compute|].
    apply list_elem_of_singleton in Hin as ->. by vm_compute. }
  split; [exact Hst|]. split; [exact Hnd|]. split; [exact Hfresh|].
  destruct (handleChannel_page_order "all" [raw "g3" 300; raw "g4" 400] false (Some true)
              synced_world synced_state Hst Hnd Hfresh) as (st' & Hst' & Hg).
  exists st'. split; [exact Hst'|]. etrans; [exact Hg|]. by vm_compute.
Defined.

Lemma requestChannel_guard_witness :
  js_truthy_at "all" (_requestRunning sample_world) && negb false = false
  ∧ ∃ p w', requestChannel "all" false false sample_world = (Ret tt, w')
      ∧ outbox w' = [p]
      ∧ requestChannel "all" true false w' = (Ret tt, w').
Proof.
  assert (js_truthy_at "all" (_requestRunning sample_world) && negb false = false) as Hguard
    by by vm_compute.
  split; [exact Hguard|].
  destruct (proj2 (requestChannel_guard "all" false false sample_world Hguard) eq_refl)
    as (p & w' & Hrun & Hout & _ & _ & _ & _ & Hagain).
  { exists initChannelState. by vm_compute. }
  exists p, w'. split; [exact Hrun|]. split; [exact Hout|]. apply Hagain.
Defined.

Lemma requestChannel_without_state_witness :
  js_truthy_at "relay" (_requestRunning sample_world) && negb false = false
  ∧ isIdle sample_world = false
  ∧ _channels sample_world !! "relay" = None
  ∧ ("relay" ∉ object_prototype_members)
  ∧ same_bounding_box (viewport sample_world)
      (default (viewport sample_world) (_oldBBox sample_world)) = true
  ∧ ∃ w', requestChannel "relay" false false sample_world
          = (Throw (TypeError "storageHash is undefined"), w')
      ∧ _requestRunning w' !! "relay" = Some true
      ∧ requestChannel "relay" false false w' = (Ret tt, w').
Proof.
  assert (js_truthy_at "relay" (_requestRunning sample_world) && negb false = false) as H1
    by by vm_compute.
  assert (_channels sample_world !! "relay" = None) as H3 by by vm_compute.
  assert ("relay" ∉ object_prototype_members) as H4.
  { apply (bool_decide_unpack _). by vm_compute. }
  assert (same_bounding_box (viewport sample_world)
            (default (viewport sample_world) (_oldBBox sample_world)) = true) as H5
    by by vm_compute.
  split; [exact H1|]. split; [reflexivity|]. split; [exact H3|]. split; [exact H4|].
  split; [exact H5|].
  destruct (requestChannel_without_state "relay" false false sample_world H1 eq_refl H3 H4 H5)
    as (w' & Hrun & Hflag & _ & Hagain).
  exists w'. split; [exact Hrun|]. split; [exact Hflag|]. apply Hagain.
Defined.

Lemma onError_while_idle_witness :
  let w := set_isIdle true (set_requestRunning "all" true sample_world) in
  let p := {| rq_channel := "all"; rq_data := base_post_data unit_box "all";
              rq_getOlderMsgs := false; rq_isRetry := false |} in
  isIdle w = true
  ∧ js_truthy_at "all" (_requestRunning w) = true
  ∧ outbox (onError p w).2 = []
  ∧ requestChannel "all" false false (set_isIdle false (renderUpdateStatus w))
    = (Ret tt, set_isIdle false (renderUpdateStatus w)).
Proof.
  cbv zeta. split; [reflexivity|].
  assert (js_truthy_at "all"
            (_requestRunning (set_isIdle true (set_requestRunning "all" true sample_world)))
          = true) as Hflag by by vm_compute.
  split; [exact Hflag|].
  destruct (onError_while_idle
              {| rq_channel := "all"; rq_data := base_post_data unit_box "all";
                 rq_getOlderMsgs := false; rq_isRetry := false |}
              (set_isIdle true (set_requestRunning "all" true sample_world))
              eq_refl eq_refl Hflag) as [Hrun Hagain].
  split; [by rewrite Hrun|]. apply Hagain.
Defined.

Lemma genPostData_settles_witness :
  same_bounding_box (viewport moved_world) (viewport moved_world) = true
  ∧ (genPostData (AStr "all") false moved_world).2 ≠ moved_world
  ∧ (genPostData (AStr "faction") true (genPostData (AStr "all") false moved_world).2).2
    = (genPostData (AStr "all") false moved_world).2.
Proof.
  assert (same_bounding_box (viewport moved_world) (viewport moved_world) = true) as Hrefl
    by by vm_compute.
  split; [exact Hrefl|]. split.
  - intros Heq. apply (f_equal (λ w, length (log w))) in Heq. by vm_compute in Heq.
  - exact (genPostData_settles "all" "faction" false true moved_world Hrefl).
Defined.

Lemma addChannel_registry_witness :
  let relay := {| ch_id := "relay"; ch_name := "Relay"; localBounds := false;
                  inputPrompt := None; inputClass := None;
                  request := false; render := false |} in
  NoDup (ch_id <$> channels sample_world)
  ∧ ∃ w', addChannel true relay sample_world = (Ret true, w')
      ∧ NoDup (ch_id <$> channels w')
      ∧ getChannelDesc (Some "relay") w' = Some relay
      ∧ _channels w' !! "relay" = None.
Proof.
  cbv zeta.
  assert (NoDup (ch_id <$> channels sample_world)) as Hnd.
  { apply (bool_decide_unpack _). by vm_compute. }
  split; [exact Hnd|].
  destruct (addChannel_registry true
              {| ch_id := "relay"; ch_name := "Relay"; localBounds := false;
                 inputPrompt := None; inputClass := None; request := false; render := false |}
              sample_world Hnd)
    as (ok & w' & Hrun & Hnd' & Hok & _ & Htrue & _ & Hst).
  assert (ok = true) as ->.
  { destruct ok; [done|]. apply (f_equal fst) in Hrun. by vm_compute in Hrun. }
  exists w'. split; [exact Hrun|]. split; [exact Hnd'|].
  split; [exact (proj2 (Htrue eq_refl))|]. rewrite Hst. by vm_compute.
Defined.

Lemma chooseTab_shows_only_witness :
  is_Some (getChannelDesc (Some "faction") sample_world)
  ∧ stored_tab (chooseTab (AStr "faction") sample_world).2 = Some "faction"
  ∧ hidden <$> containers (chooseTab (AStr "faction") sample_world).2 !! "chatall" = Some true
  ∧ hidden <$> containers (chooseTab (AStr "faction") sample_world).2 !! "chatfaction"
    = Some false.
Proof.
  assert (is_Some (getChannelDesc (Some "faction") sample_world)) as Hsome.
  { eexists. by vm_compute. }
  split; [exact Hsome|].
  destruct (chooseTab_shows_only (AStr "faction") sample_world Hsome)
    as (Htab & Hhid & Hdom & _).
  split; [exact Htab|].
  assert (∀ k, is_Some (containers sample_world !! k) →
            hidden <$> containers (chooseTab (AStr "faction") sample_world).2 !! k
            = Some (negb (bool_decide (k = container_id "faction")))) as Hk.
  { intros k Hin. apply Hdom in Hin as [c Hc]. rewrite Hc. cbn. f_equal. exact (Hhid k c Hc). }
  split; (etrans; [apply Hk; eexists; by vm_compute|by vm_compute]).
Defined.

Lemma chooseTab_after_setupTabs_witness :
  (∃ entry, entry ∈ channels (initial_world unit_box) ∧ ch_id entry = "all")
  ∧ ∃ w', chooseTab (AStr "portals") (setupTabs (initial_world unit_box)) = (Ret tt, w')
      ∧ is_Some (stored_tab w') ∧ active w' = stored_tab w'.
Proof.
  assert (∃ entry, entry ∈ channels (initial_world unit_box) ∧ ch_id entry = "all") as Hall.
  { eexists. split; [by left|reflexivity]. }
  split; [exact Hall|].
  exact (chooseTab_after_setupTabs (initial_world unit_box) (AStr "portals") Hall).
Defined.

